(** * The PCjs debugger (src/modules/pcjs/lib/debugger.js): a shallow embedding

    The development follows the source file: JavaScript numbers that hold
    integers are [Z], with the 32-bit conversions of the bitwise operators
    written out; strings are [string], a character standing for one UTF-16
    code unit below 256; the objects used as maps ([aVariables],
    [traceEnabled]) are [gmap]s of their own properties; arrays are lists; the
    debugger's mutable fields are threaded through the functions as an
    explicit state record.  Console output ([println]) is not part of the
    state. *)

From Stdlib Require Import ZArith String Ascii List Lia Bool.
From stdpp Require Import base option list gmap strings.
Import ListNotations.

Local Open Scope string_scope.
Local Open Scope Z_scope.

(** ** JavaScript integer conversions *)

Module JS.

(** ToInt32: the conversion applied by [|], [&], [^], [<<] and [>>]. *)
Definition toInt32 (z : Z) : Z := (z + 2 ^ 31) mod 2 ^ 32 - 2 ^ 31.

(** ToUint32: the conversion applied by [>>>]. *)
Definition toUint32 (z : Z) : Z := z mod 2 ^ 32.

Definition and (a b : Z) : Z := Z.land (toInt32 a) (toInt32 b).
Definition or (a b : Z) : Z := Z.lor (toInt32 a) (toInt32 b).
Definition xor (a b : Z) : Z := Z.lxor (toInt32 a) (toInt32 b).
Definition not (a : Z) : Z := Z.lnot (toInt32 a).
Definition shl (a b : Z) : Z := toInt32 (Z.shiftl (toInt32 a) (toUint32 b mod 32)).
Definition shr (a b : Z) : Z := Z.shiftr (toInt32 a) (toUint32 b mod 32).
Definition shru (a b : Z) : Z := Z.shiftr (toUint32 a) (toUint32 b mod 32).

(** The values of the evaluator are numbers that hold integers.  An
    integer result of a double-precision operation is exact below 2^53,
    otherwise rounded to 53 significant bits, ties to even. *)
Definition roundDouble (x : Z) : Z :=
  let m := Z.abs x in
  if m <? 2 ^ 53 then x
  else
    let e := Z.log2 m - 52 in
    let q := m / 2 ^ e in
    let r := m mod 2 ^ e in
    let half := 2 ^ (e - 1) in
    let q' := if r <? half then q
              else if half <? r then q + 1
              else if Z.even q then q else q + 1 in
    Z.sgn x * (q' * 2 ^ e).

(** [a * b] on numbers holding integers. *)
Definition mul (a b : Z) : Z := roundDouble (a * b).

(** [a / b] as [|0] will see it, for integers [a] and [b] with [b]
    non-zero and [|a| + |b| < 2^53] (the rounded quotient then has the
    integer part of the exact one): the quotient truncated towards zero.
    The ToInt32 of [|0] is applied where the result is pushed. *)
Definition divTrunc (a b : Z) : Z := Z.quot a b.

(** [a % b]: the remainder has the sign of the dividend. *)
Definition rem (a b : Z) : Z := Z.rem a b.

(** The UTF-16 code units of a string: the numbers of its characters. *)
Fixpoint units (s : string) : list N :=
  match s with
  | EmptyString => []
  | String c r => N_of_ascii c :: units r
  end.

(** Equality of two sequences of code units. *)
Fixpoint sameUnits (a b : list N) : bool :=
  match a, b with
  | [], [] => true
  | x :: a', y :: b' => (x =? y)%N && sameUnits a' b'
  | _, _ => false
  end.

(** [String.prototype.toUpperCase] on one code unit below 256, by the
    Unicode case mappings, which do not depend on the locale: the
    letters a-z and the Latin-1 letters U+00E0 to U+00FE (the division
    sign U+00F7 is none) move down by 32; the sharp s U+00DF becomes SS;
    the micro sign U+00B5 becomes U+039C and the y with diaeresis U+00FF
    becomes U+0178, which are code units no string of the model holds. *)
Definition upperUnit (n : N) : list N :=
  if ((97 <=? n) && (n <=? 122))%N then [(n - 32)%N]
  else if (n =? 181)%N then [924%N]
  else if (n =? 223)%N then [83%N; 83%N]
  else if ((224 <=? n) && (n <=? 254) && negb (n =? 247))%N then [(n - 32)%N]
  else if (n =? 255)%N then [376%N]
  else [n].

(** [s.toUpperCase()], as code units. *)
Definition toUpperCase (s : string) : list N :=
  List.flat_map upperUnit (units s).

(** [s.substring(i, j)] for [i <= j]. *)
Definition substring (i j : nat) (s : string) : string :=
  String.substring i (j - i) s.

(** [s.indexOf(t) == 0]: [t] is found at the very start of [s]. *)
Definition startsWith (t s : string) : bool := String.prefix t s.

End JS.

(** ** The expression evaluator *)

(** Functions of the string library (strlib.js), which is not under src/. *)
Record StrLib := {
  str_trim : string -> string;
  str_parseInt : string -> option Z
}.

(** The CPU as the debugger observes it (the X86CPU component is a
    collaborator; each field is the value the like-named property or
    getter returns). *)
Record X86Seg := {
  seg_sel : Z;
  seg_base : Z;
  seg_limit : Z;
  seg_offMax : Z;
  seg_maskAddr : Z;
  seg_sizeData : Z;
  seg_sizeAddr : Z
}.

Record X86CPU := {
  cpu_model : Z;
  regEAX : Z; regECX : Z; regEDX : Z; regEBX : Z;
  regEBP : Z; regESI : Z; regEDI : Z;
  regCR0 : Z; regCR1 : Z; regCR2 : Z; regCR3 : Z;
  regPS : Z;
  getSP : Z; getIP : Z; getPS : Z;
  segCS : X86Seg; segDS : X86Seg; segES : X86Seg; segSS : X86Seg;
  segFS : X86Seg; segGS : X86Seg;
  nIOPL : Z; nCPL : Z;
  probeAddr : Z -> option Z;
  isRunning : bool
}.

Definition getCS (cpu : X86CPU) : Z := seg_sel (segCS cpu).
Definition getDS (cpu : X86CPU) : Z := seg_sel (segDS cpu).
Definition getES (cpu : X86CPU) : Z := seg_sel (segES cpu).
Definition getSS (cpu : X86CPU) : Z := seg_sel (segSS cpu).
Definition getFS (cpu : X86CPU) : Z := seg_sel (segFS cpu).
Definition getGS (cpu : X86CPU) : Z := seg_sel (segGS cpu).

(** Constants of defines.js and x86.js, which are not under src/. *)
Record Defines := {
  DEBUG : bool;
  MAXDEBUG : bool;
  I386 : bool;
  ADDR_INVALID : Z;
  MODEL_80286 : Z;
  MODEL_80386 : Z;
  CR0_MSW_PE : Z;
  PS_VM : Z;
  PS_IF : Z;
  OPCODE_INT3 : Z;
  Messages_INT : Z;
  Messages_HALT : Z
}.

Module Expr.

(** [Debugger.REGS]; [None] is a [null] entry. *)
Definition REGS : list (option string) :=
  [ Some "AL";  Some "CL";  Some "DL";  Some "BL";  Some "AH";  Some "CH";  Some "DH";  Some "BH";
    Some "AX";  Some "CX";  Some "DX";  Some "BX";  Some "SP";  Some "BP";  Some "SI";  Some "DI";
    Some "ES";  Some "CS";  Some "SS";  Some "DS";  Some "FS";  Some "GS";  Some "IP";  Some "PS";
    Some "EAX"; Some "ECX"; Some "EDX"; Some "EBX"; Some "ESP"; Some "EBP"; Some "ESI"; Some "EDI";
    Some "CR0"; Some "CR1"; Some "CR2"; Some "CR3"; None; None; None; None;
    Some "DR0"; Some "DR1"; Some "DR2"; Some "DR3"; None; None; Some "DR6"; Some "DR7";
    None; None; None; None; None; None; Some "TR6"; Some "TR7";
    Some "EIP" ].

Definition REG_AL := 0x00.
Definition REG_CL := 0x01.
Definition REG_DL := 0x02.
Definition REG_BL := 0x03.
Definition REG_AH := 0x04.
Definition REG_CH := 0x05.
Definition REG_DH := 0x06.
Definition REG_BH := 0x07.
Definition REG_AX := 0x08.
Definition REG_CX := 0x09.
Definition REG_DX := 0x0A.
Definition REG_BX := 0x0B.
Definition REG_SP := 0x0C.
Definition REG_BP := 0x0D.
Definition REG_SI := 0x0E.
Definition REG_DI := 0x0F.
Definition REG_SEG := 0x10.
Definition REG_IP := 0x16.
Definition REG_PS := 0x17.
Definition REG_EAX := 0x18.
Definition REG_ECX := 0x19.
Definition REG_EDX := 0x1A.
Definition REG_EBX := 0x1B.
Definition REG_ESP := 0x1C.
Definition REG_EBP := 0x1D.
Definition REG_ESI := 0x1E.
Definition REG_EDI := 0x1F.
Definition REG_CR0 := 0x20.
Definition REG_CR1 := 0x21.
Definition REG_CR2 := 0x22.
Definition REG_CR3 := 0x23.
Definition REG_EIP := 0x38.
Definition REG_ES := 0x00.
Definition REG_CS := 0x01.
Definition REG_SS := 0x02.
Definition REG_DS := 0x03.
Definition REG_FS := 0x04.
Definition REG_GS := 0x05.

(** Modelled from the spec: usr.indexOf of the user library, which is not
    under src/ ("exact match against a fixed name table"): the position of
    the first entry equal to the target, or -1. *)
Fixpoint indexOfFrom (a : list (option string)) (t : list N) (i : Z) : Z :=
  match a with
  | [] => -1
  | Some r :: a' =>
    if JS.sameUnits (JS.units r) t then i else indexOfFrom a' t (i + 1)
  | None :: a' => indexOfFrom a' t (i + 1)
  end.

Definition usr_indexOf (a : list (option string)) (t : list N) : Z :=
  indexOfFrom a t 0.

(** [getRegIndex(sReg)], called without an offset. *)
Definition getRegIndex (sReg : string) : Z :=
  usr_indexOf REGS (JS.toUpperCase sReg).

(** [getRegIndex(sReg, off)], called with an offset. *)
Definition getRegIndexAt (sReg : string) (off : nat) : Z :=
  let sReg := JS.toUpperCase sReg in
  let i := usr_indexOf REGS (take 3 (drop off sReg)) in
  if i <? 0 then usr_indexOf REGS (take 2 (drop off sReg)) else i.

(** What a value lookup and the evaluation of an expression return:
    [undefined], a number, or a value that is not a number.  The only
    such values that can turn up are the members every object inherits
    from [Object.prototype], which [this.aVariables[sVar]] yields for
    their names.  The stacks of the evaluator hold numbers here, so an
    evaluation that has to stack such a member with other values, or
    under an operator, is [Unmodelled]: nothing is said of its result. *)
Inductive Result :=
| Undefined
| Number (z : Z)
| Member (name : string)
| Unmodelled.

(** A number or [undefined] as a result. *)
Definition toResult (o : option Z) : Result :=
  match o with Some z => Number z | None => Undefined end.

(** The property names of [Object.prototype] (ECMAScript 2017, 19.1.3
    and B.2.2), which a plain object [{}] inherits. *)
Definition objectMembers : list string :=
  [ "constructor"; "hasOwnProperty"; "isPrototypeOf"; "propertyIsEnumerable";
    "toLocaleString"; "toString"; "valueOf"; "__proto__";
    "__defineGetter__"; "__defineSetter__"; "__lookupGetter__";
    "__lookupSetter__" ].

Definition inherited (sVar : string) : bool :=
  existsb (String.eqb sVar) objectMembers.

Section WithMachine.

Context (lib : StrLib) (def : Defines) (cpu : X86CPU).

(** [getRegValue(iReg)]; [None] is [undefined]. *)
Definition getRegValue (iReg : Z) : option Z :=
  if iReg <? 0 then None
  else if iReg =? REG_AL then Some (JS.and (regEAX cpu) 0xff)
  else if iReg =? REG_CL then Some (JS.and (regECX cpu) 0xff)
  else if iReg =? REG_DL then Some (JS.and (regEDX cpu) 0xff)
  else if iReg =? REG_BL then Some (JS.and (regEBX cpu) 0xff)
  else if iReg =? REG_AH then Some (JS.and (JS.shr (regEAX cpu) 8) 0xff)
  else if iReg =? REG_CH then Some (JS.and (JS.shr (regECX cpu) 8) 0xff)
  else if iReg =? REG_DH then Some (JS.and (JS.shr (regEDX cpu) 8) 0xff)
  else if iReg =? REG_BH then Some (JS.and (JS.shr (regEBX cpu) 8) 0xff)
  else if iReg =? REG_AX then Some (JS.and (regEAX cpu) 0xffff)
  else if iReg =? REG_CX then Some (JS.and (regECX cpu) 0xffff)
  else if iReg =? REG_DX then Some (JS.and (regEDX cpu) 0xffff)
  else if iReg =? REG_BX then Some (JS.and (regEBX cpu) 0xffff)
  else if iReg =? REG_SP then Some (JS.and (getSP cpu) 0xffff)
  else if iReg =? REG_BP then Some (JS.and (regEBP cpu) 0xffff)
  else if iReg =? REG_SI then Some (JS.and (regESI cpu) 0xffff)
  else if iReg =? REG_DI then Some (JS.and (regEDI cpu) 0xffff)
  else if iReg =? REG_IP then Some (JS.and (getIP cpu) 0xffff)
  else if iReg =? REG_PS then Some (getPS cpu)
  else if iReg =? REG_SEG + REG_ES then Some (getES cpu)
  else if iReg =? REG_SEG + REG_CS then Some (getCS cpu)
  else if iReg =? REG_SEG + REG_SS then Some (getSS cpu)
  else if iReg =? REG_SEG + REG_DS then Some (getDS cpu)
  else if cpu_model cpu =? MODEL_80286 def then
    (if iReg =? REG_CR0 then Some (regCR0 cpu) else None)
  else if (I386 def && (MODEL_80386 def <=? cpu_model cpu))%bool then
    (if iReg =? REG_EAX then Some (regEAX cpu)
     else if iReg =? REG_ECX then Some (regECX cpu)
     else if iReg =? REG_EDX then Some (regEDX cpu)
     else if iReg =? REG_EBX then Some (regEBX cpu)
     else if iReg =? REG_ESP then Some (getSP cpu)
     else if iReg =? REG_EBP then Some (regEBP cpu)
     else if iReg =? REG_ESI then Some (regESI cpu)
     else if iReg =? REG_EDI then Some (regEDI cpu)
     else if iReg =? REG_CR0 then Some (regCR0 cpu)
     else if iReg =? REG_CR1 then Some (regCR1 cpu)
     else if iReg =? REG_CR2 then Some (regCR2 cpu)
     else if iReg =? REG_CR3 then Some (regCR3 cpu)
     else if iReg =? REG_SEG + REG_FS then Some (getFS cpu)
     else if iReg =? REG_SEG + REG_GS then Some (getGS cpu)
     else if iReg =? REG_EIP then Some (getIP cpu)
     else None)
  else None.

(** [getVariable(sVar)], which is [this.aVariables[sVar]]: the object's
    own property when it has one, else the member of that name it
    inherits from [Object.prototype], else [undefined]. *)
Definition getVariable (aVariables : gmap string Z) (sVar : string) : Result :=
  match aVariables !! sVar with
  | Some value => Number value
  | None => if inherited sVar then Member sVar else Undefined
  end.

(** [setVariable(sVar, value)], which is [this.aVariables[sVar] = value]
    for a number: the assignment to [__proto__] goes to the setter the
    object inherits, which ignores a value that is no object; any other
    name becomes, or stays, an own property. *)
Definition setVariable (aVariables : gmap string Z) (sVar : string) (value : Z)
  : gmap string Z :=
  if String.eqb sVar "__proto__" then aVariables
  else <[sVar := value]> aVariables.

(** [delVariable(sVar)], which is [delete this.aVariables[sVar]]. *)
Definition delVariable (aVariables : gmap string Z) (sVar : string)
  : gmap string Z := delete sVar aVariables.

(** [parseValue(sValue, sName, fQuiet)] for a defined [sValue]; the
    messages it prints are not modelled. *)
Definition parseValue (aVariables : gmap string Z) (sValue : string) : Result :=
  let iReg := getRegIndex sValue in
  if 0 <=? iReg then toResult (getRegValue iReg)
  else
    match getVariable aVariables sValue with
    | Undefined => toResult (str_parseInt lib sValue)
    | value => value
    end.

End WithMachine.

(** [Debugger.aBinOpPrecedence] at an operator text, the entries of
    odd index of the split being such texts; [None] is a missing
    property. *)
Definition aBinOpPrecedence (sOp : string) : option Z :=
  if String.eqb sOp "||" then Some 0
  else if String.eqb sOp "&&" then Some 1
  else if String.eqb sOp "|" then Some 2
  else if String.eqb sOp "^" then Some 3
  else if String.eqb sOp "&" then Some 4
  else if String.eqb sOp "!=" then Some 5
  else if String.eqb sOp "==" then Some 5
  else if String.eqb sOp ">=" then Some 6
  else if String.eqb sOp ">" then Some 6
  else if String.eqb sOp "<=" then Some 6
  else if String.eqb sOp "<" then Some 6
  else if String.eqb sOp ">>>" then Some 7
  else if String.eqb sOp ">>" then Some 7
  else if String.eqb sOp "<<" then Some 7
  else if String.eqb sOp "-" then Some 8
  else if String.eqb sOp "+" then Some 8
  else if String.eqb sOp "%" then Some 9
  else if String.eqb sOp "/" then Some 9
  else if String.eqb sOp "*" then Some 9
  else None.

(** [a < b] on two table entries: false as soon as one is [undefined]. *)
Definition precLt (a b : option Z) : bool :=
  match a, b with
  | Some x, Some y => x <? y
  | _, _ => false
  end.

Definition b2z (b : bool) : Z := if b then 1 else 0.

(** The [switch (chOp)] of [evalExpression]: [valNew] before the final
    [|0], or [None] where the source returns false. *)
Definition binOp (chOp : string) (val1 val2 : Z) : option Z :=
  if String.eqb chOp "*" then Some (JS.mul val1 val2)
  else if String.eqb chOp "/" then
    (if val2 =? 0 then None else Some (JS.divTrunc val1 val2))
  else if String.eqb chOp "%" then
    (if val2 =? 0 then None else Some (JS.rem val1 val2))
  else if String.eqb chOp "+" then Some (val1 + val2)
  else if String.eqb chOp "-" then Some (val1 - val2)
  else if String.eqb chOp "<<" then Some (JS.shl val1 val2)
  else if String.eqb chOp ">>" then Some (JS.shr val1 val2)
  else if String.eqb chOp ">>>" then Some (JS.shru val1 val2)
  else if String.eqb chOp "<" then Some (b2z (val1 <? val2))
  else if String.eqb chOp "<=" then Some (b2z (val1 <=? val2))
  else if String.eqb chOp ">" then Some (b2z (val2 <? val1))
  else if String.eqb chOp ">=" then Some (b2z (val2 <=? val1))
  else if String.eqb chOp "==" then Some (b2z (val1 =? val2))
  else if String.eqb chOp "!=" then Some (b2z (negb (val1 =? val2)))
  else if String.eqb chOp "&" then Some (JS.and val1 val2)
  else if String.eqb chOp "^" then Some (JS.xor val1 val2)
  else if String.eqb chOp "|" then Some (JS.or val1 val2)
  else if String.eqb chOp "&&" then
    Some (b2z (negb (val1 =? 0) && negb (val2 =? 0)))
  else if String.eqb chOp "||" then
    Some (b2z (negb (val1 =? 0) || negb (val2 =? 0)))
  else None.

(** The two stacks of the evaluator.  Each JavaScript array is a list
    whose head is the array's last element, so [push] is a cons and [pop]
    takes the head. *)
Record Stacks := { aVals : list Z; aOps : list string }.

(** The [while (cOps-- && aOps.length)] loop of [evalExpression], by
    recursion on the operator stack (every iteration pops one operator).
    [cOps] is the counter after [cOps = cOps || -1]. *)
Fixpoint evalLoop (ops : list string) (vals : list Z) (cOps : Z) : bool * Stacks :=
  if cOps =? 0 then (true, {| aVals := vals; aOps := ops |})
  else
    match ops with
    | [] => (true, {| aVals := vals; aOps := [] |})
    | chOp :: ops' =>
      match vals with
      | val2 :: val1 :: vals' =>
        match binOp chOp val1 val2 with
        | Some valNew => evalLoop ops' (JS.toInt32 valNew :: vals') (cOps - 1)
        | None => (false, {| aVals := vals'; aOps := ops' |})
        end
      | _ => (false, {| aVals := vals; aOps := ops' |})
      end
    end.

(** [evalExpression(aVals, aOps, cOps)]: the result and the stacks as the
    call leaves them; [cOps = 0] stands for an omitted argument. *)
Definition evalExpression (st : Stacks) (cOps : Z) : bool * Stacks :=
  evalLoop (aOps st) (aVals st) (if cOps =? 0 then -1 else cOps).

(** One alternative of the regular expression of [parseExpression]:
    literal text, or the assertion [^] (start of input), which is what an
    unescaped caret denotes. *)
Inductive RegAlt := Lit (t : string) | Bol.

(** The regular expression of [parseExpression], one capturing group
    whose alternatives are, in the order they are written: the escaped
    texts of the operators and, in fourth place, a bare caret. *)
Definition regExp : list RegAlt :=
  [ Lit "||"; Lit "&&"; Lit "|"; Bol; Lit "&"; Lit "!="; Lit "=="; Lit ">=";
    Lit ">>>"; Lit ">>"; Lit ">"; Lit "<="; Lit "<<"; Lit "<"; Lit "-";
    Lit "+"; Lit "%"; Lit "/"; Lit "*" ].

(** Matching the alternation at index [q] of [s]: the end index of the
    first alternative that matches. *)
Fixpoint matchAt (alts : list RegAlt) (s : string) (q : nat) : option nat :=
  match alts with
  | [] => None
  | Lit t :: alts' =>
    if String.prefix t (String.substring q (String.length s - q) s)
    then Some (q + String.length t)%nat
    else matchAt alts' s q
  | Bol :: alts' => if (q =? 0)%nat then Some q else matchAt alts' s q
  end.

(** [String.prototype.split] with a capturing regular expression
    (ECMAScript 15.5.4.14): [p] is the start of the pending piece, [q] the
    index tried next; an empty match at [p] only advances [q]. *)
Fixpoint splitLoop (fuel : nat) (s : string) (p q : nat) : list string :=
  match fuel with
  | O => [JS.substring p (String.length s) s]
  | S fuel' =>
    if (String.length s <=? q)%nat then [JS.substring p (String.length s) s]
    else
      match matchAt regExp s q with
      | None => splitLoop fuel' s p (q + 1)
      | Some e =>
        if (e =? p)%nat then splitLoop fuel' s p (q + 1)
        else JS.substring p q s :: JS.substring q e s :: splitLoop fuel' s e e
      end
  end.

Definition split (s : string) : list string :=
  if (String.length s =? 0)%nat then
    match matchAt regExp s 0 with Some _ => [] | None => [s] end
  else splitLoop (S (String.length s)) s 0 0.

(** The substitution pass of [parseReference] proper needs [parseAddr],
    [getWord] and the hexadecimal printer; it is a parameter here, and
    only strings holding a [{...}] or a [[...]] reach it. *)
Fixpoint hasPair (cOpen cClose : ascii) (seen : bool) (s : string) : bool :=
  match s with
  | EmptyString => false
  | String c r =>
    if (seen && Ascii.eqb c cClose)%bool then true
    else hasPair cOpen cClose (seen || Ascii.eqb c cOpen)%bool r
  end.

Definition hasReference (s : string) : bool :=
  (hasPair "{" "}" false s || hasPair "[" "]" false s)%bool.

Section WithMachine.

Context (lib : StrLib) (def : Defines) (cpu : X86CPU).
Context (substituteReferences : string -> string).
Context (aVariables : gmap string Z).

(** [parseReference(sValue)]: both [while] loops are skipped when
    neither pattern matches. *)
Definition parseReference (sValue : string) : string :=
  if hasReference sValue then substituteReferences sValue else sValue.

(** The [while (i < asValues.length)] loop of [parseExpression]: the
    entries of [asValues] from index [i] on, the stacks so far; the
    result is [fError] and the stacks at loop exit, or [None] when a
    value that is not a number has to be pushed. *)
Fixpoint parseLoop (asValues : list string) (st : Stacks)
  : option (bool * Stacks) :=
  match asValues with
  | [] => Some (false, st)
  | sValue :: rest =>
    let s := str_trim lib sValue in
    if String.eqb s "" then Some (true, st)
    else
      match parseValue lib def cpu aVariables s with
      | Undefined => Some (true, st)
      | Member _ | Unmodelled => None
      | Number v =>
        let st1 := {| aVals := v :: aVals st; aOps := aOps st |} in
        match rest with
        | [] => Some (false, st1)
        | sOp :: rest' =>
          let st2 :=
            match aOps st1 with
            | top :: _ =>
              if precLt (aBinOpPrecedence sOp) (aBinOpPrecedence top)
              then snd (evalExpression st1 1)
              else st1
            | [] => st1
            end in
          parseLoop rest' {| aVals := aVals st2; aOps := sOp :: aOps st2 |}
        end
      end
  end.

(** The body of [parseExpression] from the split on: the final, full
    [evalExpression], the length test and the pop.  An expression of one
    piece whose value is not a number has that value for its result: it
    is pushed, no operator is applied, and it is popped again. *)
Definition parseTokens (asValues : list string) : Result :=
  match parseLoop asValues {| aVals := []; aOps := [] |} with
  | Some (fError, st) =>
    let '(ok, st') := evalExpression st 0 in
    let fError :=
      (fError || negb ok || negb (length (aVals st') =? 1)%nat)%bool in
    if fError then Undefined else toResult (head (aVals st'))
  | None =>
    match asValues with
    | [sValue] => parseValue lib def cpu aVariables (str_trim lib sValue)
    | _ => Unmodelled
    end
  end.

(** [parseExpression(sExp, fPrint)]. *)
Definition parseExpression (sExp : string) : Result :=
  if String.eqb sExp "" then Undefined
  else parseTokens (split (parseReference sExp)).

End WithMachine.

End Expr.

(** ** The address model *)

(** Methods of X86Seg (x86seg.js) and of the Component base class, which
    are not under src/; each takes the machine it reads as an argument. *)
Record Collaborators := {
  loadReal : X86CPU -> X86Seg -> option Z -> X86Seg;
  probeDesc : X86CPU -> X86Seg -> option Z -> X86Seg;
  checkReadDebugger : X86CPU -> X86Seg -> Z -> Z -> Z;
  checkWriteDebugger : X86CPU -> X86Seg -> Z -> Z -> Z;
  messageEnabled : Z -> Z -> bool
}.

(** A [DbgAddr] object; [None] is [null] or [undefined]. *)
Record DbgAddr := {
  off : Z;
  sel : option Z;
  addr : option Z;
  type : Z;
  fData32 : bool;
  fAddr32 : bool;
  fTempBreak : bool;
  sCmd : option string;
  aCmds : option (list string)
}.

Definition setOff (v : Z) (a : DbgAddr) : DbgAddr :=
  {| off := v; sel := sel a; addr := addr a; type := type a;
     fData32 := fData32 a; fAddr32 := fAddr32 a; fTempBreak := fTempBreak a;
     sCmd := sCmd a; aCmds := aCmds a |}.

Definition setSel (v : option Z) (a : DbgAddr) : DbgAddr :=
  {| off := off a; sel := v; addr := addr a; type := type a;
     fData32 := fData32 a; fAddr32 := fAddr32 a; fTempBreak := fTempBreak a;
     sCmd := sCmd a; aCmds := aCmds a |}.

Definition setLinear (v : option Z) (a : DbgAddr) : DbgAddr :=
  {| off := off a; sel := sel a; addr := v; type := type a;
     fData32 := fData32 a; fAddr32 := fAddr32 a; fTempBreak := fTempBreak a;
     sCmd := sCmd a; aCmds := aCmds a |}.

Definition setSizes (d32 a32 : bool) (a : DbgAddr) : DbgAddr :=
  {| off := off a; sel := sel a; addr := addr a; type := type a;
     fData32 := d32; fAddr32 := a32; fTempBreak := fTempBreak a;
     sCmd := sCmd a; aCmds := aCmds a |}.

Definition setTempBreak (v : bool) (a : DbgAddr) : DbgAddr :=
  {| off := off a; sel := sel a; addr := addr a; type := type a;
     fData32 := fData32 a; fAddr32 := fAddr32 a; fTempBreak := v;
     sCmd := sCmd a; aCmds := aCmds a |}.

(** A call made to the Bus component. *)
Inductive BusCall :=
| AddMemBreak (lin : Z) (fWrite : bool)
| RemoveMemBreak (lin : Z) (fWrite : bool).

Record Breaks := {
  aBreakExec : list DbgAddr;
  aBreakRead : list DbgAddr;
  aBreakWrite : list DbgAddr
}.

Record History := {
  aOpcodeHistory : list DbgAddr;
  iOpcodeHistory : nat;
  aaOpcodeCounts : list (Z * Z);
  cOpcodes : Z
}.

Record Trace := {
  traceEnabled : option (gmap string bool);
  aTraceBuffer : list (option string);
  iTraceBuffer : nat
}.

(** The fields of the Debugger object the modelled functions read or
    write, once [initBus] has run.  A breakpoint array is the list of its
    entries from index 1 on (index 0 of the JavaScript array holds the
    name of the list), so index [i] of the source is index [i - 1] here. *)
Record Debugger := {
  cpu : X86CPU;
  maskAddr : Z;
  segDebugger : X86Seg;
  nSuppressBreaks : Z;
  bitsMessage : Z;
  breaks : Breaks;
  busCalls : list BusCall;
  aVariables : gmap string Z;
  history : History;
  trace : Trace
}.

Definition setCpu (v : X86CPU) (d : Debugger) : Debugger :=
  {| cpu := v; maskAddr := maskAddr d; segDebugger := segDebugger d;
     nSuppressBreaks := nSuppressBreaks d; bitsMessage := bitsMessage d;
     breaks := breaks d; busCalls := busCalls d; aVariables := aVariables d;
     history := history d; trace := trace d |}.

Definition setSegDebugger (v : X86Seg) (d : Debugger) : Debugger :=
  {| cpu := cpu d; maskAddr := maskAddr d; segDebugger := v;
     nSuppressBreaks := nSuppressBreaks d; bitsMessage := bitsMessage d;
     breaks := breaks d; busCalls := busCalls d; aVariables := aVariables d;
     history := history d; trace := trace d |}.

Definition setSuppress (v : Z) (d : Debugger) : Debugger :=
  {| cpu := cpu d; maskAddr := maskAddr d; segDebugger := segDebugger d;
     nSuppressBreaks := v; bitsMessage := bitsMessage d;
     breaks := breaks d; busCalls := busCalls d; aVariables := aVariables d;
     history := history d; trace := trace d |}.

Definition setBreaks (v : Breaks) (d : Debugger) : Debugger :=
  {| cpu := cpu d; maskAddr := maskAddr d; segDebugger := segDebugger d;
     nSuppressBreaks := nSuppressBreaks d; bitsMessage := bitsMessage d;
     breaks := v; busCalls := busCalls d; aVariables := aVariables d;
     history := history d; trace := trace d |}.

Definition setBusCalls (v : list BusCall) (d : Debugger) : Debugger :=
  {| cpu := cpu d; maskAddr := maskAddr d; segDebugger := segDebugger d;
     nSuppressBreaks := nSuppressBreaks d; bitsMessage := bitsMessage d;
     breaks := breaks d; busCalls := v; aVariables := aVariables d;
     history := history d; trace := trace d |}.

Definition setHistory (v : History) (d : Debugger) : Debugger :=
  {| cpu := cpu d; maskAddr := maskAddr d; segDebugger := segDebugger d;
     nSuppressBreaks := nSuppressBreaks d; bitsMessage := bitsMessage d;
     breaks := breaks d; busCalls := busCalls d; aVariables := aVariables d;
     history := v; trace := trace d |}.

Definition setTrace (v : Trace) (d : Debugger) : Debugger :=
  {| cpu := cpu d; maskAddr := maskAddr d; segDebugger := segDebugger d;
     nSuppressBreaks := nSuppressBreaks d; bitsMessage := bitsMessage d;
     breaks := breaks d; busCalls := busCalls d; aVariables := aVariables d;
     history := history d; trace := v |}.

(** [Debugger.ADDR]. *)
Definition ADDR_NONE := 0x00.
Definition ADDR_REAL := 0x01.
Definition ADDR_PROT := 0x02.
Definition ADDR_V86 := 0x03.
Definition ADDR_LINEAR := 0x04.
Definition ADDR_PHYSICAL := 0x05.

Module Addr.

Section WithMachine.

Context (def : Defines) (ext : Collaborators).

(** [getCurrentMode()]: true in protected mode. *)
Definition getCurrentMode (d : Debugger) : bool :=
  (negb (JS.and (regCR0 (cpu d)) (CR0_MSW_PE def) =? 0)
   && (JS.and (regPS (cpu d)) (PS_VM def) =? 0))%bool.

Definition getCurrentType (d : Debugger) : Z :=
  if getCurrentMode d then ADDR_PROT else ADDR_REAL.

(** [sel === this.cpu.getXS()]. *)
Definition selIs (s : option Z) (v : Z) : bool :=
  match s with Some x => x =? v | None => false end.

(** [seg.limit = 0xffff; seg.offMax = 0x10000] after [loadReal]. *)
Definition realLimits (seg : X86Seg) : X86Seg :=
  {| seg_sel := seg_sel seg; seg_base := seg_base seg; seg_limit := 0xffff;
     seg_offMax := 0x10000; seg_maskAddr := seg_maskAddr seg;
     seg_sizeData := seg_sizeData seg; seg_sizeAddr := seg_sizeAddr seg |}.

(** [getSegment(sel, type)]: the segment, or [None] for [null], and the
    debugger with its scratch segment register as the call leaves it.
    [segDebugger] exists (it is created by [initBus]), so the test
    [!this.segDebugger] is false. *)
Definition getSegment (s : option Z) (ty : Z) (d : Debugger)
  : option X86Seg * Debugger :=
  let c := cpu d in
  let typeDefault := getCurrentType d in
  let ty := if ty =? 0 then typeDefault else ty in
  let scratch :=
    if negb (ty =? ADDR_PROT) then
      let seg := realLimits (loadReal ext c (segDebugger d) s) in
      (Some seg, setSegDebugger seg d)
    else
      let seg := probeDesc ext c (segDebugger d) s in
      (Some seg, setSegDebugger seg d) in
  if ty =? typeDefault then
    if selIs s (getCS c) then (Some (segCS c), d)
    else if selIs s (getDS c) then (Some (segDS c), d)
    else if selIs s (getES c) then (Some (segES c), d)
    else if selIs s (getSS c) then (Some (segSS c), d)
    else if (I386 def && (MODEL_80386 def <=? cpu_model c)
             && selIs s (getFS c))%bool then (Some (segFS c), d)
    else if (I386 def && (MODEL_80386 def <=? cpu_model c)
             && selIs s (getGS c))%bool then (Some (segGS c), d)
    else if (negb (nSuppressBreaks d =? 0) && (ty =? ADDR_PROT))%bool
    then (None, d)
    else scratch
  else scratch.

(** [getAddr(dbgAddr, fWrite, nb)] for an address object: the linear
    address or [ADDR_INVALID], the object and the debugger afterwards.
    [nb = 0] stands for an omitted argument. *)
Definition getAddr (a : DbgAddr) (fWrite : bool) (nb : Z) (d : Debugger)
  : Z * DbgAddr * Debugger :=
  match addr a with
  | Some lin => (lin, a, d)
  | None =>
    let '(oseg, d') := getSegment (sel a) (type a) d in
    match oseg with
    | Some seg =>
      let n := if nb =? 0 then 1 else nb in
      let lin :=
        if negb fWrite then checkReadDebugger ext (cpu d') seg (off a) n
        else checkWriteDebugger ext (cpu d') seg (off a) n in
      (lin, setLinear (Some lin) a, d')
    | None => (ADDR_INVALID def, a, d')
    end
  end.

(** [getAddr] on an argument that may be [null] or [undefined]. *)
Definition getAddrOpt (oa : option DbgAddr) (fWrite : bool) (nb : Z) (d : Debugger)
  : Z * option DbgAddr * Debugger :=
  match oa with
  | Some a => let '(lin, a', d') := getAddr a fWrite nb d in (lin, Some a', d')
  | None => (ADDR_INVALID def, None, d)
  end.

(** [this.cpu.probeAddr(addr)] used as an operand of [|] or [<<]. *)
Definition probe (d : Debugger) (lin : Z) : Z :=
  match probeAddr (cpu d) lin with Some b => b | None => 0 end.

(** [checkLimit(dbgAddr, fUpdate)]. *)
Definition checkLimit (a : DbgAddr) (fUpdate : bool) (d : Debugger)
  : bool * DbgAddr * Debugger :=
  match sel a with
  | Some _ =>
    let '(oseg, d') := getSegment (sel a) (type a) d in
    match oseg with
    | Some seg =>
      let o := JS.and (off a) (seg_maskAddr seg) in
      if seg_offMax seg <=? JS.toUint32 o then (false, a, d')
      else if fUpdate then
        (true,
         setSizes (seg_sizeData seg =? 4) (seg_sizeAddr seg =? 4) (setOff o a),
         d')
      else (true, a, d')
    | None => (true, a, d')
    end
  | None => (true, a, d)
  end.

(** [incAddr(dbgAddr, inc)]; [inc = 0] stands for an omitted argument. *)
Definition incAddr (a : DbgAddr) (inc : Z) (d : Debugger) : DbgAddr * Debugger :=
  let inc := if inc =? 0 then 1 else inc in
  let a1 :=
    match addr a with
    | Some lin => setLinear (Some (lin + inc)) a
    | None => a
    end in
  match sel a1 with
  | Some _ =>
    let a2 := setOff (off a1 + inc) a1 in
    let '(ok, a3, d') := checkLimit a2 false d in
    if ok then (a3, d') else (setLinear None (setOff 0 a3), d')
  | None => (a1, d)
  end.

(** [incAddr] on the object a memory accessor was given. *)
Definition incAddrOpt (oa : option DbgAddr) (inc : Z) (d : Debugger)
  : option DbgAddr * Debugger :=
  match oa with
  | Some a => let '(a', d') := incAddr a inc d in (Some a', d')
  | None => (None, d)
  end.

(** [getByte(dbgAddr, inc)]: the byte, the address object and the
    debugger afterwards. *)
Definition getByte (oa : option DbgAddr) (inc : Z) (d : Debugger)
  : Z * option DbgAddr * Debugger :=
  let b := 0xff in
  let '(lin, oa1, d1) := getAddrOpt oa false 1 d in
  if negb (lin =? ADDR_INVALID def) then
    let b := JS.or (probe d1 lin) 0 in
    if negb (inc =? 0) then
      let '(oa2, d2) := incAddrOpt oa1 inc d1 in (b, oa2, d2)
    else (b, oa1, d1)
  else (b, oa1, d1).

(** [getShort(dbgAddr, inc)]. *)
Definition getShort (oa : option DbgAddr) (inc : Z) (d : Debugger)
  : Z * option DbgAddr * Debugger :=
  let w := 0xffff in
  let '(lin, oa1, d1) := getAddrOpt oa false 2 d in
  if negb (lin =? ADDR_INVALID def) then
    let w := JS.or (probe d1 lin) (JS.shl (probe d1 (lin + 1)) 8) in
    if negb (inc =? 0) then
      let '(oa2, d2) := incAddrOpt oa1 inc d1 in (w, oa2, d2)
    else (w, oa1, d1)
  else (w, oa1, d1).

(** [getLong(dbgAddr, inc)]. *)
Definition getLong (oa : option DbgAddr) (inc : Z) (d : Debugger)
  : Z * option DbgAddr * Debugger :=
  let l := -1 in
  let '(lin, oa1, d1) := getAddrOpt oa false 4 d in
  if negb (lin =? ADDR_INVALID def) then
    let l :=
      JS.or (JS.or (JS.or (probe d1 lin) (JS.shl (probe d1 (lin + 1)) 8))
                   (JS.shl (probe d1 (lin + 2)) 16))
            (JS.shl (probe d1 (lin + 3)) 24) in
    if negb (inc =? 0) then
      let '(oa2, d2) := incAddrOpt oa1 inc d1 in (l, oa2, d2)
    else (l, oa1, d1)
  else (l, oa1, d1).

(** [setAddr(dbgAddr, off, sel, addr, type, fData32, fAddr32)]; a [type]
    of 0 and a [None] size flag stand for omitted arguments. *)
Definition setAddr (a : DbgAddr) (o : Z) (s lin : option Z) (ty : Z)
    (d32 a32 : option bool) (d : Debugger) : DbgAddr :=
  {| off := o; sel := s; addr := lin;
     type := if ty =? 0 then getCurrentType d else ty;
     fData32 := match d32 with
                | Some b => b
                | None => seg_sizeData (segCS (cpu d)) =? 4
                end;
     fAddr32 := match a32 with
                | Some b => b
                | None => seg_sizeAddr (segCS (cpu d)) =? 4
                end;
     fTempBreak := false;
     sCmd := sCmd a; aCmds := aCmds a |}.

(** The empty object [{}] that [newAddr] hands to [setAddr]. *)
Definition emptyAddr : DbgAddr :=
  {| off := 0; sel := None; addr := None; type := 0; fData32 := false;
     fAddr32 := false; fTempBreak := false; sCmd := None; aCmds := None |}.

(** [newAddr(off, sel, addr, type, fData32, fAddr32)]. *)
Definition newAddr (o : Z) (s lin : option Z) (ty : Z) (d32 a32 : option bool)
    (d : Debugger) : DbgAddr :=
  setAddr emptyAddr o s lin ty d32 a32 d.

End WithMachine.

End Addr.

(** ** History and trace buffers *)

Definition TRACE_LIMIT : nat := Z.to_nat 100000.

Definition HISTORY_LIMIT (def : Defines) : nat :=
  if DEBUG def then Z.to_nat 100000 else Z.to_nat 1000.

(** An assignment [a[i] = x] to a JavaScript array: past the end, the
    array grows, the skipped slots staying empty. *)
Definition arraySet {A} (l : list (option A)) (i : nat) (x : A) : list (option A) :=
  if (i <? length l)%nat then <[i := Some x]> l
  else l ++ repeat None (i - length l) ++ [Some x].

Module Hist.

Section WithMachine.

Context (def : Defines) (ext : Collaborators).

(** [checksEnabled(fRelease)]. *)
Definition checksEnabled (fRelease : bool) (d : Debugger) : bool :=
  if (DEBUG def && negb fRelease)%bool then true
  else (negb (length (aBreakExec (breaks d)) =? 0)%nat
        || messageEnabled ext (bitsMessage d) (Messages_INT def))%bool.

(** [historyInit()]. *)
Definition historyInit (d : Debugger) : Debugger :=
  if negb (checksEnabled false d) then
    setHistory {| aOpcodeHistory := []; iOpcodeHistory := 0;
                  aaOpcodeCounts := []; cOpcodes := cOpcodes (history d) |} d
  else
    let h := history d in
    let h1 :=
      if (length (aOpcodeHistory h) =? 0)%nat then
        {| aOpcodeHistory :=
             repeat (Addr.newAddr def 0 None None 0 None None d) (HISTORY_LIMIT def);
           iOpcodeHistory := 0;
           aaOpcodeCounts := aaOpcodeCounts h; cOpcodes := cOpcodes h |}
      else h in
    let h2 :=
      if (length (aaOpcodeCounts h1) =? 0)%nat then
        {| aOpcodeHistory := aOpcodeHistory h1;
           iOpcodeHistory := iOpcodeHistory h1;
           aaOpcodeCounts := map (fun i => (Z.of_nat i, 0)) (seq 0 256);
           cOpcodes := cOpcodes h1 |}
      else h1 in
    setHistory h2 d.

(** The second half of [checkInstruction]: the opcode count and the
    history slot of one retired instruction.  [probeAddr] yields a byte
    or [null]; a count or a slot that does not exist, on which the source
    would raise a TypeError, is left alone here. *)
Definition recordInstruction (lin nState : Z) (d : Debugger) : Debugger :=
  let h := history d in
  if ((0 <=? nState) && negb (length (aaOpcodeCounts h) =? 0)%nat)%bool then
    let c := cOpcodes h + 1 in
    match probeAddr (cpu d) lin with
    | Some bOpcode =>
      let counts :=
        match aaOpcodeCounts h !! Z.to_nat bOpcode with
        | Some (i, n) => <[Z.to_nat bOpcode := (i, n + 1)]> (aaOpcodeCounts h)
        | None => aaOpcodeCounts h
        end in
      let i := iOpcodeHistory h in
      let slots :=
        match aOpcodeHistory h !! i with
        | Some a =>
          <[i := Addr.setAddr def a (getIP (cpu d)) (Some (getCS (cpu d))) None 0
                   None None d]> (aOpcodeHistory h)
        | None => aOpcodeHistory h
        end in
      let i' := if (i + 1 =? length (aOpcodeHistory h))%nat then 0%nat
                else (i + 1)%nat in
      setHistory {| aOpcodeHistory := slots; iOpcodeHistory := i';
                    aaOpcodeCounts := counts; cOpcodes := c |} d
    | None =>
      setHistory {| aOpcodeHistory := aOpcodeHistory h;
                    iOpcodeHistory := iOpcodeHistory h;
                    aaOpcodeCounts := aaOpcodeCounts h; cOpcodes := c |} d
    end
  else d.

(** [traceInit()]; [props] are the property names of [Debugger.TRACE]. *)
Definition TRACE_props : list string :=
  [ "ROLB"; "ROLW"; "RORB"; "RORW"; "RCLB"; "RCLW"; "RCRB"; "RCRW"; "SHLB";
    "SHLW"; "MULB"; "IMULB"; "DIVB"; "IDIVB"; "MULW"; "IMULW"; "DIVW";
    "IDIVW" ].

Definition traceInit (d : Debugger) : Debugger :=
  if DEBUG def then
    setTrace {| traceEnabled :=
                  Some (list_to_map (map (fun p => (p, false)) TRACE_props));
                aTraceBuffer := []; iTraceBuffer := 0 |} d
  else d.

(** [this.traceEnabled[prop]] as a condition: the flag the object has
    for [prop]; where it has none, the member of that name it inherits
    from [Object.prototype], which counts as true; else [undefined],
    which counts as false. *)
Definition traceFlag (flags : gmap string bool) (prop : string) : bool :=
  match flags !! prop with
  | Some b => b
  | None => Expr.inherited prop
  end.

(** [traceLog(prop, ...)]; [s] is the line the call formats from its
    other arguments. *)
Definition traceLog (prop s : string) (d : Debugger) : Debugger :=
  if DEBUG def then
    let t := trace d in
    match traceEnabled t with
    | Some flags =>
      if traceFlag flags prop then
        let buf := if (length (aTraceBuffer t) =? 0)%nat
                   then repeat None TRACE_LIMIT else aTraceBuffer t in
        let buf' := arraySet buf (iTraceBuffer t) s in
        let i' := S (iTraceBuffer t) in
        let flags' :=
          if (length buf' <=? i')%nat then (fun _ : bool => false) <$> flags
          else flags in
        setTrace {| traceEnabled := Some flags'; aTraceBuffer := buf';
                    iTraceBuffer := i' |} d
      else d
    | None => d
    end
  else d.

End WithMachine.

End Hist.

(** ** The breakpoint engine *)

Inductive BreakList := Exec | Read | Write.

Definition getList (k : BreakList) (d : Debugger) : list DbgAddr :=
  match k with
  | Exec => aBreakExec (breaks d)
  | Read => aBreakRead (breaks d)
  | Write => aBreakWrite (breaks d)
  end.

Definition setList (k : BreakList) (l : list DbgAddr) (d : Debugger) : Debugger :=
  let b := breaks d in
  setBreaks
    match k with
    | Exec => {| aBreakExec := l; aBreakRead := aBreakRead b;
                 aBreakWrite := aBreakWrite b |}
    | Read => {| aBreakExec := aBreakExec b; aBreakRead := l;
                 aBreakWrite := aBreakWrite b |}
    | Write => {| aBreakExec := aBreakExec b; aBreakRead := aBreakRead b;
                  aBreakWrite := l |}
    end d.

Definition isExec (k : BreakList) : bool :=
  match k with Exec => true | _ => false end.

Definition isWrite (k : BreakList) : bool :=
  match k with Write => true | _ => false end.

(** [a == b] on two selectors, each a number, [null] or [undefined]. *)
Definition selEq (a b : option Z) : bool :=
  match a, b with
  | Some x, Some y => x =? y
  | None, None => true
  | _, _ => false
  end.

Module Break.

Section WithMachine.

Context (def : Defines) (ext : Collaborators).

(** [doCommand(sCmd, fQuiet)], the command dispatcher: its result and
    the debugger it leaves. *)
Context (doCommand : string -> bool -> Debugger -> bool * Debugger).

(** [mapBreakpoint(addr)]. *)
Definition mapBreakpoint (lin : Z) (d : Debugger) : Z :=
  if negb (lin =? ADDR_INVALID def) then
    let mask := JS.and (maskAddr d) (JS.not 0xffff) in
    if JS.and lin mask =? mask then JS.and lin 0x000fffff else lin
  else lin.

(** The condition under which [findBreakpoint] takes the entry [b] to be
    at the address sought ([a], mapped to [lin]): equal mapped linear
    addresses when [lin] is valid, equal selector and offset otherwise.
    The entry is resolved only in the first case. *)
Definition matchEntry (a : DbgAddr) (lin : Z) (b : DbgAddr) (d : Debugger)
  : bool * DbgAddr * Debugger :=
  if negb (lin =? ADDR_INVALID def) then
    let '(linB, b', d') := Addr.getAddr def ext b false 0 d in
    (lin =? mapBreakpoint linB d', b', d')
  else
    ((selEq (sel a) (sel b) && (off a =? off b))%bool, b, d).

(** The [for] loop of [findBreakpoint] from entry [i] on; [l] holds the
    entries from [i] on, [pre] the entries before, already visited. *)
Fixpoint findLoop (k : BreakList) (a : DbgAddr) (lin : Z)
    (fRemove fTemp : bool) (pre l : list DbgAddr) (d : Debugger)
  : bool * Debugger :=
  match l with
  | [] => (false, setList k pre d)
  | b :: l' =>
    let '(hit, b', d') := matchEntry a lin b d in
    if (hit && (negb fTemp || fTempBreak b'))%bool then
      if fRemove then
        let d1 := setList k (pre ++ l') d' in
        let d2 :=
          if negb (isExec k)
          then setBusCalls (busCalls d1 ++ [RemoveMemBreak lin (isWrite k)]) d1
          else d1 in
        (true, Hist.historyInit def ext d2)
      else (true, setList k (pre ++ b' :: l') d')
    else findLoop k a lin fRemove fTemp (pre ++ [b']) l' d'
  end.

(** [findBreakpoint(aBreak, dbgAddr, fRemove, fTempBreak, fQuiet)]:
    [fFound], the address object and the debugger afterwards. *)
Definition findBreakpoint (k : BreakList) (a : DbgAddr)
    (fRemove fTemp : bool) (d : Debugger) : bool * DbgAddr * Debugger :=
  let '(lin0, a', d1) := Addr.getAddr def ext a false 0 d in
  let lin := mapBreakpoint lin0 d1 in
  let '(fFound, d2) := findLoop k a' lin fRemove fTemp [] (getList k d1) d1 in
  (fFound, a', d2).

(** [addBreakpoint(aBreak, dbgAddr, fTempBreak)]: [fSuccess], the address
    object as stored, and the debugger afterwards. *)
Definition addBreakpoint (k : BreakList) (a : DbgAddr) (fTemp : bool)
    (d : Debugger) : bool * DbgAddr * Debugger :=
  let '(a1, d1) :=
    if negb fTemp then
      let '(_, a1, d1) := findBreakpoint k a true false d in (a1, d1)
    else (a, d) in
  let '(fSuccess, a2, d2) :=
    if negb (isExec k) then
      let '(lin, a2, d2) := Addr.getAddr def ext a1 false 0 d1 in
      if lin =? ADDR_INVALID def then (false, a2, d2)
      else
        (true, setSel None a2,
         setBusCalls (busCalls d2 ++ [AddMemBreak lin (isWrite k)]) d2)
    else (true, a1, d1) in
  if fSuccess then
    if fTemp then
      let a3 := match addr a2 with
                | Some _ => setSel None a2
                | None => a2
                end in
      let a4 := setTempBreak true a3 in
      (true, a4, setList k (getList k d2 ++ [a4]) d2)
    else
      (true, a2, Hist.historyInit def ext (setList k (getList k d2 ++ [a2]) d2))
  else (false, a2, d2).

(** The inner [for (; k < a.length; k++)] loop of [checkBreakpoint] that
    looks for an [else]; [rest] holds the commands from index [k] on.
    The result is [k] and [j] at loop exit. *)
Fixpoint skipToElse (rest : list string) (k j : nat) : nat * nat :=
  match rest with
  | [] => (k, j)
  | c :: rest' =>
    if JS.startsWith "else" c then (k, j)
    else skipToElse rest' (S k) (S j)
  end.

(** The [for (j = 0; j < a.length; j++)] loop over the commands attached
    to a breakpoint, from index [j] on: [fBreak] at loop exit.  [fuel]
    bounds the iterations; [S (length a)] is never exhausted, as [j]
    grows with every iteration. *)
Fixpoint cmdLoop (fuel : nat) (a : list string) (j : nat) (d : Debugger)
  : bool * Debugger :=
  match fuel with
  | O => (false, d)
  | S fuel' =>
    match a !! j with
    | None => (false, d)
    | Some c =>
      let '(ok, d') := doCommand c true d in
      if ok then cmdLoop fuel' a (S j) d'
      else if negb (JS.startsWith "if" c) then (true, d')
      else
        let '(k, j') := skipToElse (drop (S j) a) (S j) j in
        if (k =? length a)%nat then (true, d')
        else cmdLoop fuel' a (S j') d'
    end
  end.

(** The commands of a breakpoint that matched: [fBreak] once
    [isRunning()] has been consulted. *)
Definition runCommands (a : list string) (d : Debugger) : bool * Debugger :=
  let '(fBreak, d') := cmdLoop (S (length a)) a 0 d in
  (if negb (isRunning (cpu d')) then true else fBreak, d').

(** The body run when [addr + n == addrBreak]: [fBreak], [fTempBreak]
    and the debugger afterwards. *)
Definition matchBody (k : BreakList) (b : DbgAddr) (fTemp : bool) (d : Debugger)
  : bool * bool * Debugger :=
  let '(fTemp1, d1) :=
    if fTempBreak b then
      let '(_, _, d1) := findBreakpoint k b true true d in (true, d1)
    else (fTemp, d) in
  match aCmds b with
  | Some a => let '(fBreak, d2) := runCommands a d1 in (fBreak, fTemp1, d2)
  | None => (true, fTemp1, d1)
  end.

(** The [for (n = 0; n < nb; n++)] loop, [cnt] iterations being left. *)
Fixpoint byteLoop (cnt : nat) (n : Z) (k : BreakList) (lin linBreak : Z)
    (b : DbgAddr) (fTemp : bool) (d : Debugger) : bool * bool * Debugger :=
  match cnt with
  | O => (false, fTemp, d)
  | S cnt' =>
    if lin + n =? linBreak then
      let '(fBreak, fTemp', d') := matchBody k b fTemp d in
      if fBreak then (true, fTemp', d')
      else byteLoop cnt' (n + 1) k lin linBreak b fTemp' d'
    else byteLoop cnt' (n + 1) k lin linBreak b fTemp d
  end.

(** The [for (i = 1; !fBreak && i < aBreak.length; i++)] loop; [i] counts
    the entries from 0.  The commands of a breakpoint may change the
    contents of the array the loop walks (the array object itself is
    taken to stay the list the debugger holds), so the recursion is on
    [fuel], which bounds the number of entries visited; [None] is fuel
    exhausted. *)
Fixpoint entryLoop (fuel : nat) (k : BreakList) (lin : Z) (nb : nat)
    (i : nat) (fBreak fTemp : bool) (d : Debugger) : option (bool * Debugger) :=
  if fBreak then Some (true, d)
  else
    match getList k d !! i with
    | None => Some (false, d)
    | Some b =>
      match fuel with
      | O => None
      | S fuel' =>
        if (fTemp && negb (fTempBreak b))%bool
        then entryLoop fuel' k lin nb (S i) false fTemp d
        else
          let b1 := match sel b with
                    | Some _ => setLinear None b
                    | None => b
                    end in
          let '(linB, b2, d1) := Addr.getAddr def ext b1 false 0 d in
          let d2 := setList k (<[i := b2]> (getList k d1)) d1 in
          let linBreak := mapBreakpoint linB d2 in
          let '(fBreak', fTemp', d3) :=
            byteLoop nb 0 k lin linBreak b2 fTemp d2 in
          entryLoop fuel' k lin nb (S i) fBreak' fTemp' d3
      end
    end.

(** [checkBreakpoint(addr, nb, aBreak, fTempBreak)]. *)
Definition checkBreakpoint (fuel : nat) (lin : Z) (nb : nat) (k : BreakList)
    (fTemp : bool) (d : Debugger) : option (bool * Debugger) :=
  let d0 := setSuppress (nSuppressBreaks d + 1) d in
  let r :=
    if nSuppressBreaks d =? 0 then
      let lin' := mapBreakpoint lin d0 in
      let fBreak :=
        (messageEnabled ext (bitsMessage d0)
           (JS.or (Messages_INT def) (Messages_HALT def))
         && match probeAddr (cpu d0) lin' with
            | Some b => b =? OPCODE_INT3 def
            | None => false
            end)%bool in
      entryLoop fuel k lin' nb 0 fBreak fTemp d0
    else Some (false, d0) in
  match r with
  | Some (fBreak, d1) => Some (fBreak, setSuppress (nSuppressBreaks d1 - 1) d1)
  | None => None
  end.

(** The first half of [checkInstruction], run when [nState > 0]: the
    exec breakpoints, then the MAXDEBUG check on the interrupt flag. *)
Definition breakPhase (fuel : nat) (lin nState : Z) (d : Debugger)
  : option (bool * Debugger) :=
  if 0 <? nState then
    match checkBreakpoint fuel lin 1 Exec false d with
    | Some (true, d1) => Some (true, d1)
    | Some (false, d1) =>
      if (MAXDEBUG def && (JS.and (regPS (cpu d1)) (PS_IF def) =? 0)
          && (nIOPL (cpu d1) <? nCPL (cpu d1)))%bool
      then Some (true, d1) else Some (false, d1)
    | None => None
    end
  else Some (false, d).

(** [checkInstruction(addr, nState)]. *)
Definition checkInstruction (fuel : nat) (lin nState : Z) (d : Debugger)
  : option (bool * Debugger) :=
  match breakPhase fuel lin nState d with
  | Some (false, d1) => Some (false, Hist.recordInstruction def lin nState d1)
  | other => other
  end.

End WithMachine.

End Break.

(** One retired instruction as the CPU reports it: the machine at that
    point, the linear address and [nState]. *)
Record Retired := { r_cpu : X86CPU; r_addr : Z; r_state : Z }.

(** ** A sample machine for the concrete examples *)

Module Sample.

Definition isSpace (c : ascii) : bool :=
  let n := nat_of_ascii c in
  ((n =? 32) || (n =? 9) || (n =? 10) || (n =? 13))%nat%bool.

Fixpoint trimLeft (s : string) : string :=
  match s with
  | String c r => if isSpace c then trimLeft r else s
  | EmptyString => EmptyString
  end.

Fixpoint trimRight (s : string) : string :=
  match s with
  | String c r =>
    let r' := trimRight r in
    if (isSpace c && String.eqb r' "")%bool then EmptyString else String c r'
  | EmptyString => EmptyString
  end.

(** Modelled from the spec: str.trim of strlib.js, which is not under
    src/; white space is removed at both ends. *)
Definition trim (s : string) : string := trimRight (trimLeft s).

Definition digitOf (base : Z) (c : ascii) : option Z :=
  let n := Z.of_nat (nat_of_ascii c) in
  let v :=
    if (48 <=? n) && (n <=? 57) then Some (n - 48)
    else if (97 <=? n) && (n <=? 102) then Some (n - 87)
    else if (65 <=? n) && (n <=? 70) then Some (n - 55)
    else None in
  match v with
  | Some x => if x <? base then Some x else None
  | None => None
  end.

Fixpoint parseDigits (base : Z) (s : string) (acc : Z) : option Z :=
  match s with
  | EmptyString => Some acc
  | String c r =>
    match digitOf base c with
    | Some x => parseDigits base r (acc * base + x)
    | None => None
    end
  end.

(** Modelled from the spec: str.parseInt of strlib.js, which is not under
    src/: "numeric literal with hexadecimal as the default base (decimal
    requires a trailing period)"; [None] is [undefined]. *)
Definition parseInt (s : string) : option Z :=
  let n := String.length s in
  if (n =? 0)%nat then None
  else if String.eqb (String.substring (n - 1) 1 s) "." then
    (if (n =? 1)%nat then None
     else parseDigits 10 (String.substring 0 (n - 1) s) 0)
  else parseDigits 16 s 0.

Definition lib : StrLib := {| str_trim := trim; str_parseInt := parseInt |}.

(** Values for the constants of defines.js and x86.js. *)
Definition def : Defines :=
  {| DEBUG := true; MAXDEBUG := false; I386 := true; ADDR_INVALID := -1;
     MODEL_80286 := 80286; MODEL_80386 := 80386; CR0_MSW_PE := 0x1;
     PS_VM := 0x20000; PS_IF := 0x200; OPCODE_INT3 := 0xCC;
     Messages_INT := 0x400; Messages_HALT := 0x20000000 |}.

(** A real-mode segment register holding selector [s]. *)
Definition realSeg (s : Z) : X86Seg :=
  {| seg_sel := s; seg_base := Z.shiftl s 4; seg_limit := 0xffff;
     seg_offMax := 0x10000; seg_maskAddr := 0xffff;
     seg_sizeData := 2; seg_sizeAddr := 2 |}.

(** Modelled from the spec: the X86Seg methods of x86seg.js, which is not
    under src/: a real-mode load, and the "bounds-checked read/write probe
    for byteCount bytes at offset" that yields the linear address or the
    invalid address. *)
Definition ext : Collaborators :=
  {| loadReal := fun _ seg s =>
       match s with
       | Some v => realSeg v
       | None => realSeg 0
       end;
     probeDesc := fun _ seg _ => seg;
     checkReadDebugger := fun _ seg o nb =>
       if (0 <=? o) && (o + nb <=? seg_offMax seg) then seg_base seg + o else -1;
     checkWriteDebugger := fun _ seg o nb =>
       if (0 <=? o) && (o + nb <=? seg_offMax seg) then seg_base seg + o else -1;
     messageEnabled := fun bits m => Z.land bits m =? m |}.

(** An 80286 in real mode, running, with CS = 0x1000 and zeroed memory. *)
Definition cpu0 : X86CPU :=
  {| cpu_model := 80286;
     regEAX := 0x1234; regECX := 0; regEDX := 0; regEBX := 0;
     regEBP := 0; regESI := 0; regEDI := 0;
     regCR0 := 0; regCR1 := 0; regCR2 := 0; regCR3 := 0;
     regPS := 0x202;
     getSP := 0x100; getIP := 0x0; getPS := 0x202;
     segCS := realSeg 0x1000; segDS := realSeg 0x2000; segES := realSeg 0x2000;
     segSS := realSeg 0x3000; segFS := realSeg 0; segGS := realSeg 0;
     nIOPL := 0; nCPL := 0;
     probeAddr := fun _ => Some 0;
     isRunning := true |}.

(** A debugger on a 24-bit bus with no breakpoints, variables or
    history. *)
Definition dbg0 : Debugger :=
  {| cpu := cpu0; maskAddr := 0xffffff; segDebugger := realSeg 0;
     nSuppressBreaks := 0; bitsMessage := 0;
     breaks := {| aBreakExec := []; aBreakRead := []; aBreakWrite := [] |};
     busCalls := []; aVariables := ∅;
     history := {| aOpcodeHistory := []; iOpcodeHistory := 0;
                   aaOpcodeCounts := []; cOpcodes := 0 |};
     trace := {| traceEnabled := None; aTraceBuffer := []; iTraceBuffer := 0 |} |}.

(** A command dispatcher for the examples: [h] halts the CPU, [if 1]
    succeeds, any other [if] fails, every other command succeeds. *)
Definition haltCpu (c : X86CPU) : X86CPU :=
  {| cpu_model := cpu_model c;
     regEAX := regEAX c; regECX := regECX c; regEDX := regEDX c;
     regEBX := regEBX c; regEBP := regEBP c; regESI := regESI c;
     regEDI := regEDI c; regCR0 := regCR0 c; regCR1 := regCR1 c;
     regCR2 := regCR2 c; regCR3 := regCR3 c; regPS := regPS c;
     getSP := getSP c; getIP := getIP c; getPS := getPS c;
     segCS := segCS c; segDS := segDS c; segES := segES c; segSS := segSS c;
     segFS := segFS c; segGS := segGS c; nIOPL := nIOPL c; nCPL := nCPL c;
     probeAddr := probeAddr c; isRunning := false |}.

Definition doCommand (sCmd : string) (fQuiet : bool) (d : Debugger)
  : bool * Debugger :=
  if String.eqb sCmd "h" then (true, setCpu (haltCpu (cpu d)) d)
  else if String.eqb sCmd "if 1" then (true, d)
  else if JS.startsWith "if" sCmd then (false, d)
  else (true, d).

(** The sample CPU about to execute the instruction at CS:[ip]. *)
Definition atIP (ip : Z) : X86CPU :=
  {| cpu_model := cpu_model cpu0;
     regEAX := regEAX cpu0; regECX := regECX cpu0; regEDX := regEDX cpu0;
     regEBX := regEBX cpu0; regEBP := regEBP cpu0; regESI := regESI cpu0;
     regEDI := regEDI cpu0; regCR0 := regCR0 cpu0; regCR1 := regCR1 cpu0;
     regCR2 := regCR2 cpu0; regCR3 := regCR3 cpu0; regPS := regPS cpu0;
     getSP := getSP cpu0; getIP := ip; getPS := getPS cpu0;
     segCS := segCS cpu0; segDS := segDS cpu0; segES := segES cpu0;
     segSS := segSS cpu0; segFS := segFS cpu0; segGS := segGS cpu0;
     nIOPL := nIOPL cpu0; nCPL := nCPL cpu0;
     probeAddr := fun _ => Some 0x90; isRunning := true |}.

(** The [i]-th instruction of a run of NOPs from CS:0000 on. *)
Definition retiredAt (i : nat) : Retired :=
  {| r_cpu := atIP (Z.of_nat i); r_addr := 0x10000 + Z.of_nat i; r_state := 1 |}.

(** The sample debugger with its history allocated and the SHLB tracing
    flag switched on. *)
Definition tracing : Debugger :=
  setTrace {| traceEnabled := Some {[ "SHLB" := true ]};
              aTraceBuffer := []; iTraceBuffer := 0 |}
    (Hist.historyInit def ext dbg0).

(** The address 1000:0100 as a breakpoint command parses it. *)
Definition addrA : DbgAddr :=
  {| off := 0x100; sel := Some 0x1000; addr := None; type := ADDR_REAL;
     fData32 := false; fAddr32 := false; fTempBreak := false;
     sCmd := None; aCmds := None |}.

End Sample.

(** ** Notions used to state the properties *)

(** A character of a hexadecimal literal. *)
Definition isHexChar (c : ascii) : bool :=
  let n := nat_of_ascii c in
  (((48 <=? n) && (n <=? 57)) || ((97 <=? n) && (n <=? 102))
   || ((65 <=? n) && (n <=? 70)))%nat%bool.

(** The same, of a code unit. *)
Definition isHexUnit (n : N) : bool :=
  (((48 <=? n) && (n <=? 57)) || ((97 <=? n) && (n <=? 102))
   || ((65 <=? n) && (n <=? 70)))%N%bool.

Fixpoint allHex (s : string) : bool :=
  match s with
  | EmptyString => true
  | String c r => isHexChar c && allHex r
  end.

(** A valid hex digit string: one digit at least, hex digits only. *)
Definition isHexString (s : string) : bool :=
  (negb (String.eqb s "") && allHex s)%bool.

(** A character that starts one of the operator texts of the regular
    expression of [parseExpression]. *)
Definition isOpChar (c : ascii) : bool :=
  existsb (Ascii.eqb c)
    ["|"; "&"; "!"; "="; ">"; "<"; "-"; "+"; "%"; "/"; "*"]%char.

(** A character of a plain token: no operator character, no brace and no
    bracket (the caret is one). *)
Definition isPlainChar (c : ascii) : bool :=
  (negb (isOpChar c)
   && negb (existsb (Ascii.eqb c) ["{"; "}"; "["; "]"]%char))%bool.

Fixpoint isPlain (s : string) : bool :=
  match s with
  | EmptyString => true
  | String c r => isPlainChar c && isPlain r
  end.

(** The piece [tok] of a split expression resolves to the value [v]: it
    is not blank and [parseValue] yields [v] for it. *)
Definition resolves (lib : StrLib) (def : Defines) (c : X86CPU)
    (vars : gmap string Z) (tok : string) (v : Z) : Prop :=
  String.eqb (str_trim lib tok) "" = false /\
  Expr.parseValue lib def c vars (str_trim lib tok) = Expr.Number v.

(** [a op b] as the evaluator pushes it: the operator's result, then
    [|0]. *)
Definition applyOp (op : string) (a b : Z) : option Z :=
  JS.toInt32 <$> Expr.binOp op a b.

Definition stk (vals : list Z) (ops : list string) : Expr.Stacks :=
  {| Expr.aVals := vals; Expr.aOps := ops |}.

(** The three memory accessors, by width. *)
Inductive Width := Byte | Short | Long.

Definition widthBytes (w : Width) : Z :=
  match w with Byte => 1 | Short => 2 | Long => 4 end.

Definition sentinel (w : Width) : Z :=
  match w with Byte => 0xff | Short => 0xffff | Long => -1 end.

Definition accessor (def : Defines) (ext : Collaborators) (w : Width)
  : option DbgAddr -> Z -> Debugger -> Z * option DbgAddr * Debugger :=
  match w with
  | Byte => Addr.getByte def ext
  | Short => Addr.getShort def ext
  | Long => Addr.getLong def ext
  end.




(** The CPU calls [checkInstruction] for the instruction; [None] when the
    call reports a break (or runs out of fuel). *)
Definition retire (def : Defines) (ext : Collaborators)
    (doCommand : string -> bool -> Debugger -> bool * Debugger)
    (fuel : nat) (r : Retired) (d : Debugger) : option Debugger :=
  match Break.checkInstruction def ext doCommand fuel (r_addr r) (r_state r)
          (setCpu (r_cpu r) d) with
  | Some (false, d') => Some d'
  | _ => None
  end.

Fixpoint retireAll (def : Defines) (ext : Collaborators)
    (doCommand : string -> bool -> Debugger -> bool * Debugger)
    (fuel : nat) (rs : list Retired) (d : Debugger) : option Debugger :=
  match rs with
  | [] => Some d
  | r :: rs' =>
    match retire def ext doCommand fuel r d with
    | Some d' => retireAll def ext doCommand fuel rs' d'
    | None => None
    end
  end.

(** The instructions [rs] are retired from [d] on without a break, and
    the breakpoint half of [checkInstruction] (with the commands it may
    run) leaves the CPU, the history and the tracing state as they
    are. *)
Fixpoint undisturbed (def : Defines) (ext : Collaborators)
    (doCommand : string -> bool -> Debugger -> bool * Debugger)
    (fuel : nat) (rs : list Retired) (d : Debugger) : Prop :=
  match rs with
  | [] => True
  | r :: rs' =>
    exists d0,
      Break.breakPhase def ext doCommand fuel (r_addr r) (r_state r)
        (setCpu (r_cpu r) d) = Some (false, d0) /\
      cpu d0 = r_cpu r /\ history d0 = history d /\ trace d0 = trace d /\
      undisturbed def ext doCommand fuel rs'
        (Hist.recordInstruction def (r_addr r) (r_state r) d0)
  end.

(** No exec breakpoint is set and the INT3 and MAXDEBUG checks of
    [checkInstruction] are off. *)
Definition quiet (def : Defines) (ext : Collaborators) (d : Debugger) : Prop :=
  aBreakExec (breaks d) = [] /\
  messageEnabled ext (bitsMessage d)
    (JS.or (Messages_INT def) (Messages_HALT def)) = false /\
  MAXDEBUG def = false.

(** The instruction is recorded: [nState] is not negative and the opcode
    byte can be probed. *)
Definition recorded (r : Retired) : Prop :=
  0 <= r_state r /\ exists b, probeAddr (r_cpu r) (r_addr r) = Some b.

(** The slot [oa] of the history holds the address [checkInstruction]
    stores for the retired instruction [r]. *)
Definition holds (oa : option DbgAddr) (r : Retired) : Prop :=
  exists a, oa = Some a /\ off a = getIP (r_cpu r) /\
            sel a = Some (getCS (r_cpu r)) /\ addr a = None.


(** Two debugger states on the same machine: same CPU, same re-entrancy
    counter, same address mask. *)
Definition frame (e d : Debugger) : Prop :=
  cpu e = cpu d /\ nSuppressBreaks e = nSuppressBreaks d /\
  maskAddr e = maskAddr d.

(** ... and with the same contents of the scratch segment register. *)
Definition sim (e d : Debugger) : Prop :=
  frame e d /\ segDebugger e = segDebugger d.

(** The entries [L'] have been visited without a match for [lin]: they
    give no match when visited again, on the same machine, for an
    address with the selector and offset of [q]. *)
Definition settled (def : Defines) (ext : Collaborators) (k : BreakList)
    (q : DbgAddr) (lin : Z) (d : Debugger) (L' : list DbgAddr) : Prop :=
  forall x q' fR pre M,
    frame x d -> sel q' = sel q -> off q' = off q ->
    exists x',
      Break.findLoop def ext k q' lin fR false pre (L' ++ M)%list x =
      Break.findLoop def ext k q' lin fR false (pre ++ L')%list M x' /\
      frame x' x /\ breaks x' = breaks x.

(** ** Further functions of the debugger *)

(** *** Reading a string from memory *)

Module Mem.

Section WithMachine.

Context (def : Defines) (ext : Collaborators).

(** [String.fromCharCode(b)] for a character code below 256. *)
Definition fromCharCode (b : Z) : ascii := ascii_of_nat (Z.to_nat b).

(** The [while (s.length < cchMax)] loop of [getSZ]; [cnt] is
    [cchMax - s.length], which every iteration that continues lowers
    by one. *)
Fixpoint szLoop (cnt : nat) (s : string) (oa : option DbgAddr) (d : Debugger)
  : string * option DbgAddr * Debugger :=
  match cnt with
  | O => (s, oa, d)
  | S cnt' =>
    let '(b, oa1, d1) := Addr.getByte def ext oa 1 d in
    if ((b =? 0) || (b =? 0x24) || (127 <=? b))%bool then (s, oa1, d1)
    else
      let ch := if 32 <=? b then fromCharCode b else "."%char in
      szLoop cnt' (s ++ String ch "") oa1 d1
  end.

(** [getSZ(dbgAddr, cchMax)]: the string, the address object and the
    debugger afterwards; [cchMax = 0] stands for an omitted argument. *)
Definition getSZ (oa : option DbgAddr) (cchMax : Z) (d : Debugger)
  : string * option DbgAddr * Debugger :=
  let cchMax := if cchMax =? 0 then 256 else cchMax in
  szLoop (Z.to_nat cchMax) "" oa d.

End WithMachine.

End Mem.

(** *** Clearing breakpoints, temporary breakpoints *)

Module Bp.

Section WithMachine.

Context (def : Defines) (ext : Collaborators).

(** A [for] loop of [clearBreakpoints]: one [removeMemBreak] call for
    every entry of a memory breakpoint list. *)
Fixpoint removeMemBreaks (fWrite : bool) (l : list DbgAddr) (d : Debugger)
  : Debugger :=
  match l with
  | [] => d
  | b :: l' =>
    let '(lin, _, d1) := Addr.getAddr def ext b false 0 d in
    removeMemBreaks fWrite l'
      (setBusCalls (busCalls d1 ++ [RemoveMemBreak lin fWrite]) d1)
  end.

(** [clearBreakpoints()], the three lists being defined. *)
Definition clearBreakpoints (d : Debugger) : Debugger :=
  let d1 := setList Exec [] d in
  let d2 := removeMemBreaks false (getList Read d1) d1 in
  let d3 := setList Read [] d2 in
  let d4 := removeMemBreaks true (getList Write d3) d3 in
  let d5 := setList Write [] d4 in
  setSuppress 0 d5.

(** [setTempBreakpoint(dbgAddr)]: the result of the [addBreakpoint] call
    it makes (and does not return), the address object and the debugger
    afterwards. *)
Definition setTempBreakpoint (a : DbgAddr) (d : Debugger)
  : bool * DbgAddr * Debugger :=
  Break.addBreakpoint def ext Exec a true d.

(** [findBreakpoint(this.aBreakExec, dbgAddrBreak, true, true)] as
    [clearTempBreakpoint] calls it, for the entry [b] at index [i] of the
    exec list: the address sought is the list's own object, so the
    linear address [getAddr] caches in it is cached in the entry. *)
Definition removeTempAt (i : nat) (b : DbgAddr) (d : Debugger)
  : bool * Debugger :=
  let '(lin0, b', d1) := Addr.getAddr def ext b false 0 d in
  let d2 := setList Exec (<[i := b']> (getList Exec d1)) d1 in
  let lin := Break.mapBreakpoint def lin0 d2 in
  Break.findLoop def ext Exec b' lin true true [] (getList Exec d2) d2.

(** The [for] loop of [clearTempBreakpoint()], from index [i] on; every
    removal restarts it ([i = 0], then [i++]).  [None] is fuel
    exhausted. *)
Fixpoint clearTempLoop (fuel : nat) (i : nat) (d : Debugger) : option Debugger :=
  match getList Exec d !! i with
  | None => Some d
  | Some b =>
    match fuel with
    | O => None
    | S fuel' =>
      if fTempBreak b then
        let '(fFound, d') := removeTempAt i b d in
        if negb fFound then Some d' else clearTempLoop fuel' 0 d'
      else clearTempLoop fuel' (S i) d
    end
  end.

Context (doCommand : string -> bool -> Debugger -> bool * Debugger).

(** [clearTempBreakpoint(addr)]; [None] is an omitted address.  The
    field [nStep], which the first branch resets, is not part of the
    state. *)
Definition clearTempBreakpoint (fuel : nat) (addr : option Z) (d : Debugger)
  : option Debugger :=
  match addr with
  | Some lin =>
    snd <$> Break.checkBreakpoint def ext doCommand fuel lin 1 Exec true d
  | None => clearTempLoop fuel 0 d
  end.

End WithMachine.

End Bp.

(** *** Command lines *)

Module Cmd.

(** The two quote characters. *)
Definition dquote : ascii := "034"%char.
Definition squote : ascii := "'"%char.

Definition isQuote (ch : ascii) : bool :=
  (Ascii.eqb ch dquote || Ascii.eqb ch squote)%bool.

(** [sCmd.replace(/xx/g, "'")], [xx] being two double quotes in a row:
    every such pair, taken from the left, becomes one single quote. *)
Fixpoint replaceQuotes (s : string) : string :=
  match s with
  | EmptyString => EmptyString
  | String c1 s' =>
    match s' with
    | String c2 r =>
      if (Ascii.eqb c1 dquote && Ascii.eqb c2 dquote)%bool
      then String squote (replaceQuotes r)
      else String c1 (replaceQuotes s')
    | EmptyString => String c1 EmptyString
    end
  end.

Section WithLib.

Context (lib : StrLib).

(** The [for (i = 0; i <= sCmd.length; i++)] loop of [parseCommand] from
    index [i] on; [rest] holds the characters from [i] on, so that
    [charAt(i)] is its first character, or the empty string at the end.
    The result is what the loop pushes on [a]. *)
Fixpoint scan (sCmd : string) (chSep : ascii) (rest : string) (i iPrev : nat)
    (chQuote : option ascii) : list string :=
  match rest with
  | EmptyString => [str_trim lib (JS.substring iPrev i sCmd)]
  | String ch rest' =>
    if isQuote ch then
      let chQuote' :=
        match chQuote with
        | None => Some ch
        | Some q => if Ascii.eqb ch q then None else chQuote
        end in
      scan sCmd chSep rest' (S i) iPrev chQuote'
    else if (Ascii.eqb ch chSep
             && match chQuote with None => true | Some _ => false end)%bool then
      str_trim lib (JS.substring iPrev i sCmd)
        :: scan sCmd chSep rest' (S i) (S i) chQuote
    else scan sCmd chSep rest' (S i) iPrev chQuote
  end.

(** [parseCommand(sCmd, fSave, chSep)] with [fSave] false or omitted;
    [None] is an omitted argument, the separator is one character. *)
Definition parseCommand (sCmd : option string) (chSep : option ascii)
  : list string :=
  match sCmd with
  | None => []
  | Some s =>
    if String.eqb s "" then []
    else
      let s' := replaceQuotes s in
      scan s' (default ";"%char chSep) s' 0 0 None
  end.

(** The [for (i = 1; i < s0.length; i++)] loop of [shiftArgs]: the index
    at which it breaks; [rest] holds the characters from [i] on. *)
Fixpoint shiftAt (ch0 : ascii) (rest : string) (i : nat) : option nat :=
  match rest with
  | EmptyString => None
  | String ch rest' =>
    if (Ascii.eqb ch0 "?" || Ascii.eqb ch0 "r"
        || (nat_of_ascii ch <? nat_of_ascii "a")%nat
        || (nat_of_ascii "z" <? nat_of_ascii ch)%nat)%bool
    then Some i
    else shiftAt ch0 rest' (S i)
  end.

(** [shiftArgs(asArgs)]: the array afterwards. *)
Definition shiftArgs (asArgs : list string) : list string :=
  match asArgs with
  | [] => []
  | s0 :: args =>
    match s0 with
    | EmptyString => asArgs
    | String ch0 tail =>
      match shiftAt ch0 tail 1 with
      | Some i =>
        String.substring 0 i s0
          :: String.substring i (String.length s0 - i) s0 :: args
      | None => asArgs
      end
    end
  end.

End WithLib.

End Cmd.

(** ** Further notions used to state the properties *)

(** A signed 32-bit integer. *)
Definition int32 (z : Z) : Prop := - 2 ^ 31 <= z < 2 ^ 31.

(** The pieces of [t0 op1 t1 ... opn tn]. *)
Fixpoint chainTokens (t0 : string) (rest : list (string * string)) : list string :=
  match rest with
  | [] => [t0]
  | (op, t) :: r => t0 :: op :: chainTokens t r
  end.

(** [v0 op1 (v1 op2 (... opn vn))]. *)
Fixpoint rightFold (v0 : Z) (rest : list (string * Z)) : option Z :=
  match rest with
  | [] => Some v0
  | (op, v) :: r => x ← rightFold v r; applyOp op v0 x
  end.

(** No operator of the sequence is of strictly lower precedence than the
    one before it. *)
Fixpoint ascending (ops : list string) : bool :=
  match ops with
  | a :: r =>
    match r with
    | b :: _ =>
      negb (Expr.precLt (Expr.aBinOpPrecedence b) (Expr.aBinOpPrecedence a))
    | [] => true
    end && ascending r
  | [] => true
  end.

(** What [parseExpression] does once its loop is left with the error
    flag and the stacks [r]: the final [evalExpression] and the check
    that one value is left. *)
Definition finish (r : bool * Expr.Stacks) : option Z :=
  let '(fError, st) := r in
  let '(ok, st') := Expr.evalExpression st 0 in
  if (fError || negb ok || negb (length (Expr.aVals st') =? 1)%nat)%bool
  then None else head (Expr.aVals st').

(** The operator texts of the regular expression. *)
Definition opTexts : list string :=
  omap (fun a => match a with Expr.Lit t => Some t | Expr.Bol => None end)
    Expr.regExp.

(** Values at the even places, operator texts at the odd ones. *)
Inductive alternating : list string -> Prop :=
| alt_last v : alternating [v]
| alt_more v op r : In op opTexts -> alternating r -> alternating (v :: op :: r).

(** The pieces put together again. *)
Definition concatAll (l : list string) : string := fold_right append "" l.

(** The register indexes of [getRegValue], by width. *)
Definition byteRegs : list Z :=
  [Expr.REG_AL; Expr.REG_CL; Expr.REG_DL; Expr.REG_BL;
   Expr.REG_AH; Expr.REG_CH; Expr.REG_DH; Expr.REG_BH].

Definition wordRegs : list Z :=
  [Expr.REG_AX; Expr.REG_CX; Expr.REG_DX; Expr.REG_BX; Expr.REG_SP;
   Expr.REG_BP; Expr.REG_SI; Expr.REG_DI; Expr.REG_IP].

Definition longRegs : list Z :=
  [Expr.REG_EAX; Expr.REG_ECX; Expr.REG_EDX; Expr.REG_EBX; Expr.REG_ESP;
   Expr.REG_EBP; Expr.REG_ESI; Expr.REG_EDI; Expr.REG_CR1; Expr.REG_CR2;
   Expr.REG_CR3; Expr.REG_SEG + Expr.REG_FS; Expr.REG_SEG + Expr.REG_GS;
   Expr.REG_EIP].

(** The characters [getSZ] can produce: printable ASCII other than [$]. *)
Definition isSZChar (c : ascii) : bool :=
  let n := nat_of_ascii c in
  ((32 <=? n) && (n <=? 126) && negb (n =? 36))%nat%bool.

Fixpoint allSZ (s : string) : bool :=
  match s with
  | EmptyString => true
  | String c r => isSZChar c && allSZ r
  end.

(** The character codes of a string. *)
Fixpoint codes (s : string) : list Z :=
  match s with
  | EmptyString => []
  | String c r => Z.of_nat (nat_of_ascii c) :: codes r
  end.

(** The state of the trace buffer between calls of [traceLog]: not yet
    allocated, or allocated at [TRACE_LIMIT] entries with the cursor
    inside, or full with every tracing flag off. *)
Definition traceOk (t : Trace) : Prop :=
  match traceEnabled t with
  | None => True
  | Some flags =>
    (aTraceBuffer t = [] /\ iTraceBuffer t = 0%nat) \/
    (length (aTraceBuffer t) = TRACE_LIMIT /\
     ((iTraceBuffer t < TRACE_LIMIT)%nat \/
      (iTraceBuffer t = TRACE_LIMIT /\ forall p, flags !! p <> Some true)))
  end.

(** A sequence of [traceLog] calls, each with its property name and the
    line it formats. *)
Definition traceAll (def : Defines) (calls : list (string * string))
    (d : Debugger) : Debugger :=
  fold_left (fun d c => Hist.traceLog def c.1 c.2 d) calls d.

(** The sum of the opcode counts. *)
Definition countTotal (h : History) : Z :=
  fold_right (fun p acc => p.2 + acc) 0 (aaOpcodeCounts h).

(** An entry of a breakpoint list on a linear address, resolved, with no
    commands attached. *)
Definition linearEntry (def : Defines) (d : Debugger) (b : DbgAddr) : Prop :=
  sel b = None /\ aCmds b = None /\
  exists A, addr b = Some A /\ A <> ADDR_INVALID def /\
            Break.mapBreakpoint def A d <> ADDR_INVALID def.

(** The entry is one [checkBreakpoint(lin, 1, aBreak, fTemp)] stops at. *)
Definition hitsAt (def : Defines) (d : Debugger) (lin : Z) (fTemp : bool)
    (b : DbgAddr) : bool :=
  ((negb fTemp || fTempBreak b)
   && match addr b with
      | Some A => Break.mapBreakpoint def lin d =? Break.mapBreakpoint def A d
      | None => false
      end)%bool.

(** The entries of a memory breakpoint list as [addBreakpoint] leaves
    them: selector zapped, linear address resolved and valid. *)
Definition memEntry (def : Defines) (b : DbgAddr) : Prop :=
  sel b = None /\ exists A, addr b = Some A /\ A <> ADDR_INVALID def.

(** The linear addresses cached in the entries of a list. *)
Definition cachedAddrs (l : list DbgAddr) : list Z := omap addr l.

(** Two address objects that differ at most in the linear address they
    cache. *)
Definition sameEntry (a b : DbgAddr) : Prop := setLinear None a = setLinear None b.

(** Two debugger states that differ at most in list [k] and in the
    scratch segment register. *)
Definition sameBut (k : BreakList) (d' d : Debugger) : Prop :=
  cpu d' = cpu d /\ busCalls d' = busCalls d /\ history d' = history d /\
  trace d' = trace d /\ nSuppressBreaks d' = nSuppressBreaks d /\
  aVariables d' = aVariables d /\ maskAddr d' = maskAddr d /\
  bitsMessage d' = bitsMessage d /\
  forall k', k' <> k -> getList k' d' = getList k' d.

(** The breakpoint is not a temporary one. *)
Definition isPermanent (b : DbgAddr) : bool := negb (fTempBreak b).

(** [c] occurs in [s]. *)
Fixpoint hasChar (c : ascii) (s : string) : bool :=
  match s with
  | EmptyString => false
  | String x r => (Ascii.eqb x c || hasChar c r)%bool
  end.

(** A quote character, double or single, occurs in [s]. *)
Definition hasQuote (s : string) : bool :=
  (hasChar Cmd.dquote s || hasChar Cmd.squote s)%bool.

(** The pieces joined again, with the separator between them. *)
Fixpoint joinWith (sep : ascii) (l : list string) : string :=
  match l with
  | [] => ""
  | [p] => p
  | p :: r => p ++ String sep (joinWith sep r)
  end.

(** ** Further sample data *)

Module Demo.

(** The sample CPU with the bytes of [Hi] and a zero byte at the linear
    address 0x500. *)
Definition textCpu : X86CPU :=
  {| cpu_model := cpu_model Sample.cpu0;
     regEAX := regEAX Sample.cpu0; regECX := regECX Sample.cpu0;
     regEDX := regEDX Sample.cpu0; regEBX := regEBX Sample.cpu0;
     regEBP := regEBP Sample.cpu0; regESI := regESI Sample.cpu0;
     regEDI := regEDI Sample.cpu0; regCR0 := regCR0 Sample.cpu0;
     regCR1 := regCR1 Sample.cpu0; regCR2 := regCR2 Sample.cpu0;
     regCR3 := regCR3 Sample.cpu0; regPS := regPS Sample.cpu0;
     getSP := getSP Sample.cpu0; getIP := getIP Sample.cpu0;
     getPS := getPS Sample.cpu0;
     segCS := segCS Sample.cpu0; segDS := segDS Sample.cpu0;
     segES := segES Sample.cpu0; segSS := segSS Sample.cpu0;
     segFS := segFS Sample.cpu0; segGS := segGS Sample.cpu0;
     nIOPL := nIOPL Sample.cpu0; nCPL := nCPL Sample.cpu0;
     probeAddr := fun a =>
       if a =? 0x500 then Some 0x48
       else if a =? 0x501 then Some 0x69 else Some 0;
     isRunning := true |}.

Definition textDbg : Debugger := setCpu textCpu Sample.dbg0.

(** The linear address 0x500, resolved, and the same as a temporary
    breakpoint. *)
Definition lin500 : DbgAddr :=
  {| off := 0; sel := None; addr := Some 0x500; type := ADDR_LINEAR;
     fData32 := false; fAddr32 := false; fTempBreak := false;
     sCmd := None; aCmds := None |}.

Definition temp500 : DbgAddr := setTempBreak true lin500.

(** The linear address 0x600, resolved. *)
Definition lin600 : DbgAddr := setLinear (Some 0x600) lin500.

End Demo.

(* ================================================================= *)
(** * Properties *)

(** ** The evaluator *)

Section ExprFacts.

Context (lib : StrLib) (def : Defines) (c : X86CPU).
Context (subst : string -> string) (vars : gmap string Z).

Lemma upperUnit_hex x :
  isHexChar x = true -> forallb isHexUnit (JS.upperUnit (N_of_ascii x)) = true.
Proof.
  destruct x as [[] [] [] [] [] [] [] []]; vm_compute; congruence.
Qed.

Lemma toUpperCase_hex s :
  allHex s = true -> forallb isHexUnit (JS.toUpperCase s) = true.
Proof.
  unfold JS.toUpperCase.
  induction s as [|x r IH]; cbn [allHex JS.units flat_map]; [done|].
  rewrite andb_true_iff. intros [Hx Hr].
  rewrite forallb_app, (upperUnit_hex x Hx). by apply IH.
Qed.

Lemma sameUnits_eq a : forall b, JS.sameUnits a b = true <-> a = b.
Proof.
  induction a as [|x a IH]; intros [|y b]; cbn [JS.sameUnits]; try done.
  rewrite andb_true_iff, N.eqb_eq, IH. split; [by intros [-> ->] | by intros [= -> ->]].
Qed.

Lemma units_inj a : forall b, JS.units a = JS.units b -> a = b.
Proof.
  induction a as [|x a IH]; intros [|y b]; cbn [JS.units]; try done.
  intros [= Hx Hr]. f_equal; [|by apply IH].
  by rewrite <- (ascii_N_embedding x), <- (ascii_N_embedding y), Hx.
Qed.

Lemma indexOfFrom_absent (a : list (option string)) t i :
  (forall r, In (Some r) a -> forallb isHexUnit (JS.units r) = false) ->
  forallb isHexUnit t = true ->
  Expr.indexOfFrom a t i = -1.
Proof.
  revert i. induction a as [|[r|] a IH]; intros i Ha Ht;
    cbn [Expr.indexOfFrom]; [done| |].
  - destruct (JS.sameUnits (JS.units r) t) eqn:E.
    + apply sameUnits_eq in E. subst t.
      rewrite (Ha r) in Ht; [done | by left].
    + apply IH; [|done]. intros r' Hr'. apply Ha. by right.
  - apply IH; [|done]. intros r' Hr'. apply Ha. by right.
Qed.

Lemma REGS_not_hex r :
  In (Some r) Expr.REGS -> forallb isHexUnit (JS.units r) = false.
Proof.
  unfold Expr.REGS. cbn [In]. intros H.
  repeat (destruct H as [H|H]; [first [by inversion H | discriminate H]|]).
  destruct H.
Qed.

Lemma getRegIndex_hex s : allHex s = true -> Expr.getRegIndex s = -1.
Proof.
  intros H. unfold Expr.getRegIndex, Expr.usr_indexOf.
  apply indexOfFrom_absent; [apply REGS_not_hex | by apply toUpperCase_hex].
Qed.

(** Where [usr.indexOf] finds the target: at the first entry equal to
    it. *)
Lemma indexOfFrom_found (a : list (option string)) t : forall i,
  (0 <= i ->
   0 <= Expr.indexOfFrom a t i ->
   i <= Expr.indexOfFrom a t i /\
   exists r, a !! Z.to_nat (Expr.indexOfFrom a t i - i) = Some (Some r) /\
             JS.units r = t) /\
  (forall r, In (Some r) a -> JS.units r = t -> 0 <= i ->
     0 <= Expr.indexOfFrom a t i).
Proof.
  induction a as [|[r|] a IH]; intros i; cbn [Expr.indexOfFrom].
  - split; [lia | by intros r []].
  - destruct (JS.sameUnits (JS.units r) t) eqn:E.
    + apply sameUnits_eq in E. split.
      * intros Hi _. split; [lia|]. exists r. by rewrite Z.sub_diag.
      * by intros.
    + destruct (IH (i + 1)) as [F G]. split.
      * intros Hi H. destruct (F ltac:(lia) H) as (L & r' & Hr' & Er').
        split; [lia|]. exists r'. split; [|done].
        replace (Z.to_nat (Expr.indexOfFrom a t (i + 1) - i))
          with (S (Z.to_nat (Expr.indexOfFrom a t (i + 1) - (i + 1)))) by lia.
        exact Hr'.
      * intros r' [[= ->]|Hin] Er' Hi.
        -- apply sameUnits_eq in Er'. congruence.
        -- apply (G r'); [done | done | lia].
  - destruct (IH (i + 1)) as [F G]. split.
    + intros Hi H. destruct (F ltac:(lia) H) as (L & r' & Hr' & Er').
      split; [lia|]. exists r'. split; [|done].
      replace (Z.to_nat (Expr.indexOfFrom a t (i + 1) - i))
        with (S (Z.to_nat (Expr.indexOfFrom a t (i + 1) - (i + 1)))) by lia.
      exact Hr'.
    + intros r' [[=]|Hin] Er' Hi. apply (G r'); [done | done | lia].
Qed.

Lemma inherited_not_hex s : isHexString s = true -> Expr.inherited s = false.
Proof.
  unfold isHexString. rewrite andb_true_iff. intros [_ H].
  unfold Expr.inherited, Expr.objectMembers. cbn [existsb].
  repeat match goal with
  | |- (String.eqb s ?m || _)%bool = false =>
    destruct (String.eqb_spec s m) as [->|_]; [discriminate H|]; cbn [orb]
  end.
  reflexivity.
Qed.

(** C9.  A bare value is resolved as a register name first, then as a
    user variable, then as a numeric literal; hence a variable whose
    name is a valid hex digit string shadows the number the name spells:
    [parseValue] yields the variable's value, whatever [str.parseInt]
    would give, and does so as soon as [setVariable] has set it.
    Register first: a token that spells an entry of [REGS], in any
    letter case, has that entry's index and is given the register's
    value whatever the variables hold; no other token has an index.
    Variable second: a token that is no register and for which
    [aVariables] has a value (its own or, for the names of
    [Object.prototype], an inherited member) has that value.  Literal
    last: only a token that is no register and has no such value goes to
    [str.parseInt]. *)
Theorem variable_shadows_hex_literal (s : string) (v : Z)
    (Hhex : isHexString s = true)
    (Hvar : Expr.getVariable vars s = Expr.Number v) :
  Expr.parseValue lib def c vars s = Expr.Number v /\
  (forall vars0,
     Expr.parseValue lib def c (Expr.setVariable vars0 s v) s = Expr.Number v) /\
  (forall t vars', 0 <= Expr.getRegIndex t ->
     Expr.parseValue lib def c vars' t
     = Expr.toResult (Expr.getRegValue def c (Expr.getRegIndex t))) /\
  (forall t r, In (Some r) Expr.REGS -> JS.toUpperCase t = JS.units r ->
     0 <= Expr.getRegIndex t /\
     Expr.REGS !! Z.to_nat (Expr.getRegIndex t) = Some (Some r)) /\
  (forall t, 0 <= Expr.getRegIndex t ->
     exists r, Expr.REGS !! Z.to_nat (Expr.getRegIndex t) = Some (Some r) /\
               JS.toUpperCase t = JS.units r) /\
  (forall t, Expr.getRegIndex t < 0 ->
     Expr.getVariable vars t <> Expr.Undefined ->
     Expr.parseValue lib def c vars t = Expr.getVariable vars t) /\
  (forall t, Expr.getRegIndex t < 0 ->
     Expr.getVariable vars t = Expr.Undefined ->
     Expr.parseValue lib def c vars t = Expr.toResult (str_parseInt lib t)).
Proof.
  pose proof (inherited_not_hex s Hhex) as Hinh.
  unfold isHexString in Hhex. apply andb_true_iff in Hhex as [_ Hall].
  split_and!.
  - unfold Expr.parseValue. rewrite (getRegIndex_hex s Hall). cbn [Z.leb Z.compare].
    by rewrite Hvar.
  - intros vars0. unfold Expr.parseValue.
    rewrite (getRegIndex_hex s Hall). cbn [Z.leb Z.compare].
    unfold Expr.getVariable, Expr.setVariable.
    destruct (String.eqb_spec s "__proto__") as [->|_]; [discriminate Hinh|].
    by rewrite lookup_insert_eq.
  - intros t vars' Ht. unfold Expr.parseValue.
    by destruct (Z.leb_spec 0 (Expr.getRegIndex t)); [|lia].
  - intros t r Hin Et. unfold Expr.getRegIndex, Expr.usr_indexOf in *.
    destruct (indexOfFrom_found Expr.REGS (JS.toUpperCase t) 0) as [F G].
    pose proof (G r Hin (eq_sym Et) ltac:(lia)) as H0.
    split; [done|].
    destruct (F ltac:(lia) H0) as (_ & r' & Hr' & Er').
    rewrite Z.sub_0_r in Hr'. rewrite Hr'. do 2 f_equal.
    apply units_inj. congruence.
  - intros t Ht. unfold Expr.getRegIndex, Expr.usr_indexOf in *.
    destruct (indexOfFrom_found Expr.REGS (JS.toUpperCase t) 0) as [F _].
    destruct (F ltac:(lia) Ht) as (_ & r & Hr & Er).
    rewrite Z.sub_0_r in Hr. by exists r.
  - intros t Ht Hw. unfold Expr.parseValue.
    destruct (Z.leb_spec 0 (Expr.getRegIndex t)); [lia|].
    by destruct (Expr.getVariable vars t).
  - intros t Ht Hw. unfold Expr.parseValue.
    destruct (Z.leb_spec 0 (Expr.getRegIndex t)); [lia|]. by rewrite Hw.
Qed.

End ExprFacts.

Section EvaluationFacts.

Context (lib : StrLib) (def : Defines) (c : X86CPU).
Context (subst : string -> string) (vars : gmap string Z).

Lemma evalLoop_zero ops vals : Expr.evalLoop ops vals 0 = (true, stk vals ops).
Proof. destruct ops; reflexivity. Qed.

Lemma eval_one v2 v1 vs op ops :
  Expr.evalExpression (stk (v2 :: v1 :: vs) (op :: ops)) 1 =
  match Expr.binOp op v1 v2 with
  | Some r => (true, stk (JS.toInt32 r :: vs) ops)
  | None => (false, stk vs ops)
  end.
Proof.
  unfold Expr.evalExpression.
  cbn [stk Expr.aOps Expr.aVals Z.eqb Expr.evalLoop].
  destruct (Expr.binOp op v1 v2); [|reflexivity].
  change (1 - 1) with 0. apply evalLoop_zero.
Qed.

Lemma eval_one_short v op ops :
  Expr.evalExpression (stk [v] (op :: ops)) 1 = (false, stk [v] ops).
Proof. reflexivity. Qed.


Lemma evalLoop_negative ops : forall vals a b,
  a < 0 -> b < 0 -> Expr.evalLoop ops vals a = Expr.evalLoop ops vals b.
Proof.
  induction ops as [|op ops IH]; intros vals a b Ha Hb; cbn [Expr.evalLoop].
  - destruct (Z.eqb_spec a 0), (Z.eqb_spec b 0); done || lia.
  - destruct (Z.eqb_spec a 0), (Z.eqb_spec b 0); try lia.
    destruct vals as [|v2 [|v1 vals]]; try done.
    destruct (Expr.binOp op v1 v2); [|done]. apply IH; lia.
Qed.

Lemma parseTokens_finish l r :
  Expr.parseLoop lib def c vars l (stk [] []) = Some r ->
  Expr.parseTokens lib def c vars l = Expr.toResult (finish r).
Proof.
  intros H. unfold Expr.parseTokens, finish.
  change {| Expr.aVals := []; Expr.aOps := [] |} with (stk [] []).
  rewrite H. destruct r as [f st].
  by destruct (Expr.evalExpression st 0) as [ok st'], f, ok,
    (negb (length (Expr.aVals st') =? 1)%nat).
Qed.

Lemma parseLoop_last tok v vals ops :
  resolves lib def c vars tok v ->
  Expr.parseLoop lib def c vars [tok] (stk vals ops) =
  Some (false, stk (v :: vals) ops).
Proof. intros [Hne Hv]. simpl. rewrite Hne, Hv. reflexivity. Qed.

Lemma parseLoop_first tok v sOp rest vals :
  resolves lib def c vars tok v ->
  Expr.parseLoop lib def c vars (tok :: sOp :: rest) (stk vals []) =
  Expr.parseLoop lib def c vars rest (stk (v :: vals) [sOp]).
Proof. intros [Hne Hv]. simpl. rewrite Hne, Hv. reflexivity. Qed.


Lemma parseLoop_reduce tok v sOp rest vals top ops :
  resolves lib def c vars tok v ->
  Expr.precLt (Expr.aBinOpPrecedence sOp) (Expr.aBinOpPrecedence top) = true ->
  Expr.parseLoop lib def c vars (tok :: sOp :: rest) (stk vals (top :: ops)) =
  let st := snd (Expr.evalExpression (stk (v :: vals) (top :: ops)) 1) in
  Expr.parseLoop lib def c vars rest
    (stk (Expr.aVals st) (sOp :: Expr.aOps st)).
Proof. intros [Hne Hv] Hp. simpl. rewrite Hne, Hv, Hp. reflexivity. Qed.




Lemma isPlain_app a b : isPlain (a ++ b) = (isPlain a && isPlain b)%bool.
Proof.
  induction a as [|x a IH]; simpl; [done|]. by rewrite IH, andb_assoc.
Qed.

Lemma suffix_head s q x :
  String.get q s = Some x ->
  exists r, String.substring q (String.length s - q) s = String x r.
Proof.
  revert q. induction s as [|y s IH]; intros q H; [by destruct q|].
  destruct q as [|q]; simpl in *.
  - inversion H; subst. eauto.
  - apply IH in H. exact H.
Qed.

Lemma get_plain s q x :
  isPlain s = true -> String.get q s = Some x -> isPlainChar x = true.
Proof.
  revert q. induction s as [|y s IH]; intros q Hp H; [by destruct q|].
  simpl in Hp. apply andb_true_iff in Hp as [Hy Hs].
  destruct q as [|q]; simpl in H; [by inversion H; subst | eauto].
Qed.

Lemma get_lt s q :
  (q < String.length s)%nat -> exists x, String.get q s = Some x.
Proof.
  revert q. induction s as [|y s IH]; intros q H; simpl in *; [lia|].
  destruct q; [eauto|]. apply IH. lia.
Qed.

Lemma matchAt_plain s q x r :
  String.substring q (String.length s - q) s = String x r ->
  isOpChar x = false ->
  Expr.matchAt Expr.regExp s q = if (q =? 0)%nat then Some q else None.
Proof.
  intros Hs Hx. unfold Expr.regExp. cbn [Expr.matchAt]. rewrite Hs.
  cbn [String.prefix].
  repeat match goal with
  | |- context [ascii_dec ?y x] =>
    destruct (ascii_dec y x) as [E|_];
      [rewrite <- E in Hx; vm_compute in Hx; discriminate Hx|]
  end.
  reflexivity.
Qed.

Lemma splitLoop_plain s fuel q :
  isPlain s = true -> (String.length s - q < fuel)%nat ->
  Expr.splitLoop fuel s 0 q = [JS.substring 0 (String.length s) s].
Proof.
  intros Hp. revert q. induction fuel as [|fuel IH]; intros q Hf; [lia|].
  cbn [Expr.splitLoop].
  destruct (String.length s <=? q)%nat eqn:Hq; [reflexivity|].
  apply Nat.leb_gt in Hq.
  destruct (get_lt s q Hq) as [x Hx].
  destruct (suffix_head s q x Hx) as [r Hr].
  pose proof (get_plain s q x Hp Hx) as Hpc.
  unfold isPlainChar in Hpc. apply andb_true_iff in Hpc as [Hop _].
  apply negb_true_iff in Hop.
  rewrite (matchAt_plain s q x r Hr Hop).
  destruct (q =? 0)%nat eqn:Hq0.
  - apply Nat.eqb_eq in Hq0. subst q. cbn [Nat.eqb]. apply IH. lia.
  - apply IH. lia.
Qed.

Lemma substring_all s : String.substring 0 (String.length s) s = s.
Proof. induction s as [|x s IH]; simpl; [done|]. by rewrite IH. Qed.

Lemma split_plain s : isPlain s = true -> s <> "" -> Expr.split s = [s].
Proof.
  intros Hp Hne. unfold Expr.split.
  destruct (String.length s =? 0)%nat eqn:E.
  - apply Nat.eqb_eq in E. destruct s; [done | discriminate E].
  - rewrite (splitLoop_plain s _ 0 Hp) by lia.
    unfold JS.substring. by rewrite Nat.sub_0_r, substring_all.
Qed.

Lemma hasPair_plain o cl seen s :
  isPlain s = true ->
  (forall x, isPlainChar x = true ->
     Ascii.eqb x o = false /\ Ascii.eqb x cl = false) ->
  Expr.hasPair o cl seen s = false.
Proof.
  intros Hp Hoc. revert seen. induction s as [|x s IH]; intros seen; [done|].
  simpl in Hp. apply andb_true_iff in Hp as [Hx Hs].
  destruct (Hoc x Hx) as [Ho Hc]. simpl.
  rewrite Ho, Hc, andb_false_r, orb_false_r. by apply IH.
Qed.

Lemma hasReference_plain s : isPlain s = true -> Expr.hasReference s = false.
Proof.
  intros Hp. unfold Expr.hasReference.
  rewrite !hasPair_plain; try done.
  all: intros x Hx; unfold isPlainChar in Hx;
    apply andb_true_iff in Hx as [_ Hx];
    apply negb_true_iff in Hx; simpl in Hx;
    repeat (apply orb_false_iff in Hx as [? Hx]); done.
Qed.

Lemma parseExpression_plain s :
  isPlain s = true -> s <> "" ->
  Expr.parseExpression lib def c subst vars s =
  if String.eqb (str_trim lib s) "" then Expr.Undefined
  else Expr.parseValue lib def c vars (str_trim lib s).
Proof.
  intros Hp Hne. unfold Expr.parseExpression, Expr.parseReference.
  apply String.eqb_neq in Hne. rewrite Hne.
  apply String.eqb_neq in Hne.
  rewrite (hasReference_plain s Hp), (split_plain s Hp Hne).
  unfold Expr.parseTokens. cbn [Expr.parseLoop].
  destruct (String.eqb (str_trim lib s) ""); [reflexivity|].
  destruct (Expr.parseValue lib def c vars (str_trim lib s)); reflexivity.
Qed.

(** C2 (what the code does).  The caret of the regular expression is not
    escaped, so it is the start-of-input assertion and the character [^]
    never splits an expression: for plain tokens [a] and [b], the text
    [a^b] stays one piece and is handed whole to [parseValue]; no XOR is
    evaluated, although [evalExpression] has a case for it. *)
Theorem caret_is_not_tokenised (a b : string)
    (Ha : isPlain a = true) (Hb : isPlain b = true) :
  Expr.split (a ++ "^" ++ b) = [a ++ "^" ++ b] /\
  Expr.parseExpression lib def c subst vars (a ++ "^" ++ b) =
    (if String.eqb (str_trim lib (a ++ "^" ++ b)) "" then Expr.Undefined
     else Expr.parseValue lib def c vars (str_trim lib (a ++ "^" ++ b))).
Proof.
  assert (Hp : isPlain (a ++ "^" ++ b) = true).
  { rewrite !isPlain_app, Ha, Hb. reflexivity. }
  assert (Hne : a ++ "^" ++ b <> "").
  { destruct a; discriminate. }
  split; [by apply split_plain | by apply parseExpression_plain].
Qed.

End EvaluationFacts.

(** On the sample machine: once [let a = 5], the token [a] is 5, not
    10; [ax] is the register AX even when a variable has that name, and
    so is the sharp s SS, since it upper-cases to SS; [toString] is the
    member every object inherits, though no number could be read from
    it. *)
Lemma variable_shadows_hex_literal_witness :
  Expr.parseValue Sample.lib Sample.def Sample.cpu0
    (Expr.setVariable ∅ "a" 5) "a" = Expr.Number 5 /\
  Expr.parseValue Sample.lib Sample.def Sample.cpu0 ∅ "a" = Expr.Number 10 /\
  Expr.parseValue Sample.lib Sample.def Sample.cpu0
    (Expr.setVariable ∅ "ax" 5) "ax" = Expr.Number 0x1234 /\
  Expr.getRegIndex (String "223" "") = Expr.REG_SEG + Expr.REG_SS /\
  Expr.parseValue Sample.lib Sample.def Sample.cpu0
    (Expr.setVariable ∅ "a" 5) "toString" = Expr.Member "toString" /\
  Sample.parseInt "toString" = None.
Proof.
  assert (Hvar : Expr.getVariable (Expr.setVariable ∅ "a" 5) "a" = Expr.Number 5).
  { unfold Expr.getVariable, Expr.setVariable. cbn [String.eqb Ascii.eqb Bool.eqb].
    by rewrite lookup_insert_eq. }
  destruct (variable_shadows_hex_literal Sample.lib Sample.def Sample.cpu0
              (Expr.setVariable ∅ "a" 5) "a" 5 eq_refl Hvar)
    as (P1 & _ & P3 & _ & _ & P6 & _).
  split_and!; [exact P1 | reflexivity | | reflexivity | | reflexivity].
  - rewrite (P3 "ax"); [reflexivity | by vm_compute].
  - rewrite (P6 "toString"); [| by vm_compute |].
    + unfold Expr.getVariable, Expr.setVariable.
      cbn [String.eqb Ascii.eqb Bool.eqb].
      rewrite lookup_insert_ne by done. by rewrite lookup_empty.
    + unfold Expr.getVariable, Expr.setVariable.
      cbn [String.eqb Ascii.eqb Bool.eqb].
      rewrite lookup_insert_ne by done. by rewrite lookup_empty.
Defined.


(** On the sample machine ["1^2"] is an error, where XOR gives 3. *)
Lemma caret_is_not_tokenised_witness :
  Expr.split "1^2" = ["1^2"] /\
  Expr.parseExpression Sample.lib Sample.def Sample.cpu0 id ∅ "1^2"
    = Expr.Undefined /\
  applyOp "^" 1 2 = Some 3.
Proof.
  destruct (caret_is_not_tokenised Sample.lib Sample.def Sample.cpu0 id ∅
              "1" "2" eq_refl eq_refl) as [S P].
  split; [exact S|]. split; [exact P | reflexivity].
Defined.

(** C10 (what the code does).  [evalExpression] returns false on a
    division or a remainder by zero, and an expression [s1 / s2] or
    [s1 % s2] whose right operand is 0 is undefined: there the reduction
    is made by the final [evalExpression] call, whose result is tested.
    In ["6/0-1|2"] the division by zero is detected when [-] arrives,
    by a call of [evalExpression] whose result is dropped; the next
    reduction fails for want of values and pops the [-], and the
    expression evaluates to [1|2 = 3]. *)
Theorem division_by_zero_is_lost (lib : StrLib) (def : Defines) (c : X86CPU)
    (subst : string -> string) (vars : gmap string Z)
    (H6 : resolves lib def c vars "6" 6) (H0 : resolves lib def c vars "0" 0)
    (H1 : resolves lib def c vars "1" 1) (H2 : resolves lib def c vars "2" 2) :
  (forall op s1 s2 x, op = "/" \/ op = "%" ->
     resolves lib def c vars s1 x -> resolves lib def c vars s2 0 ->
     fst (Expr.evalExpression (stk [0; x] [op]) 0) = false /\
     Expr.parseTokens lib def c vars [s1; op; s2] = Expr.Undefined) /\
  Expr.evalExpression (stk [0; 6] ["/"]) 1 = (false, stk [] []) /\
  Expr.parseExpression lib def c subst vars "6/0-1|2" = Expr.Number 3.
Proof.
  split.
  { intros op s1 s2 x Hop Hx Hz. split; [by destruct Hop as [->| ->]|].
    unfold Expr.parseTokens.
    change {| Expr.aVals := []; Expr.aOps := [] |} with (stk [] []).
    rewrite (parseLoop_first _ _ _ _ _ _ _ _ _ Hx).
    rewrite (parseLoop_last _ _ _ _ _ _ _ _ Hz).
    by destruct Hop as [->| ->]. }
  split; [reflexivity|].
  change (Expr.parseExpression lib def c subst vars "6/0-1|2")
    with (Expr.parseTokens lib def c vars ["6"; "/"; "0"; "-"; "1"; "|"; "2"]).
  unfold Expr.parseTokens.
  change {| Expr.aVals := []; Expr.aOps := [] |} with (stk [] []).
  rewrite (parseLoop_first _ _ _ _ _ _ _ _ _ H6).
  rewrite (parseLoop_reduce lib def c vars "0" 0 "-" _ _ "/" _ H0 eq_refl), eval_one.
  cbn [Expr.binOp String.eqb Ascii.eqb Bool.eqb Z.eqb snd stk Expr.aVals Expr.aOps].
  change {| Expr.aVals := []; Expr.aOps := ["-"] |} with (stk [] ["-"]).
  rewrite (parseLoop_reduce lib def c vars "1" 1 "|" _ _ "-" _ H1 eq_refl), eval_one_short.
  cbn [snd stk Expr.aVals Expr.aOps].
  change {| Expr.aVals := [1]; Expr.aOps := ["|"] |} with (stk [1] ["|"]).
  rewrite (parseLoop_last _ _ _ _ _ _ _ _ H2). reflexivity.
Qed.

(** On the sample machine: ["6/0"] is undefined, ["6/0-1|2"] is 3. *)
Lemma division_by_zero_is_lost_witness :
  Expr.parseExpression Sample.lib Sample.def Sample.cpu0 id ∅ "6/0"
    = Expr.Undefined /\
  Expr.parseExpression Sample.lib Sample.def Sample.cpu0 id ∅ "6/0-1|2"
    = Expr.Number 3.
Proof.
  assert (R : forall s v, Sample.parseInt s = Some v -> Sample.trim s = s ->
                s <> "" -> Expr.getRegIndex s = -1 ->
                Expr.inherited s = false ->
                resolves Sample.lib Sample.def Sample.cpu0 ∅ s v).
  { intros s v Hp Ht Hs Hr Hi. split; simpl; rewrite Ht.
    - by apply String.eqb_neq.
    - unfold Expr.parseValue, Expr.getVariable.
      rewrite Hr, lookup_empty, Hi. simpl. by rewrite Hp. }
  destruct (division_by_zero_is_lost Sample.lib Sample.def Sample.cpu0 id ∅)
    as (Z0 & _ & L); try (apply R; done).
  split; [|exact L].
  change (Expr.parseTokens Sample.lib Sample.def Sample.cpu0 ∅ ["6"; "/"; "0"]
          = Expr.Undefined).
  apply (Z0 "/" "6" "0" 6); [by left | apply R; done | apply R; done].
Defined.

(** ** The address model *)

Section AddrFacts.

Context (def : Defines) (ext : Collaborators).

Lemma getAddr_keeps a fWrite nb d :
  let '(lin, a', _) := Addr.getAddr def ext a fWrite nb d in
  off a' = off a /\ sel a' = sel a /\ type a' = type a /\
  fTempBreak a' = fTempBreak a /\ aCmds a' = aCmds a /\
  (a' = a \/ a' = setLinear (Some lin) a).
Proof.
  unfold Addr.getAddr. destruct (addr a) as [lin|]; [by auto 10|].
  destruct (Addr.getSegment def ext (sel a) (type a) d) as [[seg|] d'];
    simpl; auto 10.
Qed.

(** C7.  When the address does not resolve (for the number of bytes the
    accessor asks for), the byte accessor yields 0xFF, the 16-bit
    accessor 0xFFFF and the 32-bit accessor -1; the accessors are total
    functions (nothing is thrown), and the address is left where it was:
    [incAddr] is not called, offset and selector are unchanged, and at
    most the failed resolution is cached in the object. *)
Theorem accessor_sentinel (w : Width) (oa : option DbgAddr) (inc : Z)
    (d : Debugger)
    (Hinv : fst (fst (Addr.getAddrOpt def ext oa false (widthBytes w) d))
            = ADDR_INVALID def) :
  accessor def ext w oa inc d =
    (sentinel w,
     snd (fst (Addr.getAddrOpt def ext oa false (widthBytes w) d)),
     snd (Addr.getAddrOpt def ext oa false (widthBytes w) d)) /\
  match oa, snd (fst (accessor def ext w oa inc d)) with
  | Some a, Some a' =>
    off a' = off a /\ sel a' = sel a /\
    (a' = a \/ a' = setLinear (Some (ADDR_INVALID def)) a)
  | None, None => True
  | _, _ => False
  end.
Proof.
  assert (E : accessor def ext w oa inc d =
    (sentinel w,
     snd (fst (Addr.getAddrOpt def ext oa false (widthBytes w) d)),
     snd (Addr.getAddrOpt def ext oa false (widthBytes w) d))).
  { destruct w; unfold accessor, Addr.getByte, Addr.getShort, Addr.getLong;
      cbn [widthBytes] in *;
      destruct (Addr.getAddrOpt def ext oa false _ d) as [[lin oa1] d1];
      cbn [fst snd] in *; subst lin; rewrite Z.eqb_refl; reflexivity. }
  split; [exact E|].
  destruct oa as [a|]; rewrite E; cbn [fst snd]; unfold Addr.getAddrOpt in *;
    [|done].
  pose proof (getAddr_keeps a false (widthBytes w) d) as K.
  destruct (Addr.getAddr def ext a false (widthBytes w) d) as [[lin a'] d'].
  cbn [fst snd] in *. subst lin.
  destruct K as (Ho & Hs & _ & _ & _ & Ha). auto.
Qed.

(** What [incAddr] does to a segmented address. *)
Lemma incAddr_segmented a inc d s oseg d' :
  sel a = Some s ->
  Addr.getSegment def ext (Some s) (type a) d = (oseg, d') ->
  let n := if inc =? 0 then 1 else inc in
  Addr.incAddr def ext a inc d =
  match oseg with
  | Some seg =>
    if seg_offMax seg <=? JS.toUint32 (JS.and (off a + n) (seg_maskAddr seg))
    then
      (setLinear None
         (setOff 0 (setOff (off a + n)
                      match addr a with
                      | Some lin => setLinear (Some (lin + n)) a
                      | None => a
                      end)), d')
    else
      (setOff (off a + n)
         match addr a with
         | Some lin => setLinear (Some (lin + n)) a
         | None => a
         end, d')
  | None =>
    (setOff (off a + n)
       match addr a with
       | Some lin => setLinear (Some (lin + n)) a
       | None => a
       end, d')
  end.
Proof.
  intros Hsel Hseg n. unfold Addr.incAddr. fold n.
  set (a1 := match addr a with
             | Some lin => setLinear (Some (lin + n)) a
             | None => a
             end).
  assert (Hs1 : sel a1 = Some s) by (subst a1; destruct (addr a); exact Hsel).
  assert (Ht1 : type a1 = type a) by (subst a1; by destruct (addr a)).
  assert (Ho1 : off a1 = off a) by (subst a1; by destruct (addr a)).
  rewrite Hs1. unfold Addr.checkLimit. cbn [sel setOff type off].
  rewrite Hs1, Ht1, Hseg, Ho1.
  destruct oseg as [seg|]; [|reflexivity].
  destruct (seg_offMax seg <=? _); reflexivity.
Qed.

(** C3 (amended).  For a segmented address whose segment is available,
    [incAddr] clears the cached linear address and resets the offset to 0
    exactly when the advanced offset, masked with the segment's address
    mask, is at or beyond the segment's [offMax] (limit + 1); otherwise
    the offset is advanced by the increment, and so is a cached linear
    address.  When no segment is available nothing is invalidated. *)
Theorem incAddr_limit (a : DbgAddr) (inc : Z) (d : Debugger) (s : Z)
    (oseg : option X86Seg) (d' : Debugger)
    (Hsel : sel a = Some s)
    (Hseg : Addr.getSegment def ext (Some s) (type a) d = (oseg, d')) :
  let n := if inc =? 0 then 1 else inc in
  let a' := fst (Addr.incAddr def ext a inc d) in
  let invalidated :=
    match oseg with
    | Some seg =>
      seg_offMax seg <=? JS.toUint32 (JS.and (off a + n) (seg_maskAddr seg))
    | None => false
    end in
  sel a' = sel a /\
  if invalidated then off a' = 0 /\ addr a' = None
  else off a' = off a + n /\ addr a' = (fun lin => lin + n) <$> addr a.
Proof.
  intros n a' invalidated. subst a'.
  rewrite (incAddr_segmented a inc d s oseg d' Hsel Hseg). fold n.
  subst invalidated. destruct oseg as [seg|].
  - destruct (seg_offMax seg <=? _); cbn [fst]; destruct (addr a) eqn:Ea;
      cbn; rewrite ?Ea; auto.
  - cbn [fst]. destruct (addr a) eqn:Ea; cbn; rewrite ?Ea; auto.
Qed.

End AddrFacts.

(** On the sample machine, 1000:FFFF is the last byte of its segment: a
    2- or 4-byte read there does not resolve, [getShort] and [getLong]
    return their sentinels and the offset stays 0xFFFF, while the byte
    itself can be read (it is 0).  At 1000:10000 the byte accessor
    returns its sentinel as well. *)
Lemma accessor_sentinel_witness :
  let a := {| off := 0xffff; sel := Some 0x1000; addr := None;
              type := ADDR_REAL; fData32 := false; fAddr32 := false;
              fTempBreak := false; sCmd := None; aCmds := None |} in
  let b := setOff 0x10000 a in
  fst (fst (Addr.getShort Sample.def Sample.ext (Some a) 2 Sample.dbg0)) = 0xffff /\
  off <$> snd (fst (Addr.getShort Sample.def Sample.ext (Some a) 2 Sample.dbg0))
    = Some 0xffff /\
  fst (fst (Addr.getLong Sample.def Sample.ext (Some a) 4 Sample.dbg0)) = -1 /\
  fst (fst (Addr.getByte Sample.def Sample.ext (Some b) 1 Sample.dbg0)) = 0xff /\
  fst (fst (Addr.getByte Sample.def Sample.ext (Some a) 1 Sample.dbg0)) = 0.
Proof.
  intros a b. split_and!.
  - pose proof (accessor_sentinel Sample.def Sample.ext Short (Some a) 2
                  Sample.dbg0 eq_refl) as [E _].
    cbn [accessor] in E. rewrite E. reflexivity.
  - pose proof (accessor_sentinel Sample.def Sample.ext Short (Some a) 2
                  Sample.dbg0 eq_refl) as [E _].
    cbn [accessor] in E. rewrite E. reflexivity.
  - pose proof (accessor_sentinel Sample.def Sample.ext Long (Some a) 4
                  Sample.dbg0 eq_refl) as [E _].
    cbn [accessor] in E. rewrite E. reflexivity.
  - pose proof (accessor_sentinel Sample.def Sample.ext Byte (Some b) 1
                  Sample.dbg0 eq_refl) as [E _].
    cbn [accessor] in E. rewrite E. reflexivity.
  - reflexivity.
Defined.

(** C3 (counterexample).  Real mode, CS = 0x1000 with limit 0xFFFF: the
    address 1000:FFFF, resolved to 0x1FFFF, is incremented by 1.  The
    offset becomes 0x10000, past the limit, and the address stays
    resolved, at 0x20000. *)
Lemma incAddr_past_limit_stays_resolved :
  let a := {| off := 0xffff; sel := Some 0x1000; addr := Some 0x1ffff;
              type := ADDR_REAL; fData32 := false; fAddr32 := false;
              fTempBreak := false; sCmd := None; aCmds := None |} in
  let a' := fst (Addr.incAddr Sample.def Sample.ext a 1 Sample.dbg0) in
  fst (Addr.getSegment Sample.def Sample.ext (sel a) (type a) Sample.dbg0)
    = Some (segCS Sample.cpu0) /\
  seg_limit (segCS Sample.cpu0) = 0xffff /\
  off a' = 0x10000 /\ addr a' = Some 0x20000 /\
  ~ (addr a' = None /\ off a' = 0).
Proof.
  vm_compute. repeat split; intros [H _]; discriminate H.
Qed.

(** The amended statement on the same machine: 1000:FFFE advances to
    1000:FFFF, and 1000:FFFF advanced by 1 is kept because the masked
    offset is 0. *)
Lemma incAddr_limit_witness :
  let a := {| off := 0xfffe; sel := Some 0x1000; addr := Some 0x1fffe;
              type := ADDR_REAL; fData32 := false; fAddr32 := false;
              fTempBreak := false; sCmd := None; aCmds := None |} in
  let a' := fst (Addr.incAddr Sample.def Sample.ext a 1 Sample.dbg0) in
  sel a' = Some 0x1000 /\ off a' = 0xffff /\ addr a' = Some 0x1ffff.
Proof.
  intros a a'.
  pose proof (incAddr_limit Sample.def Sample.ext a 1 Sample.dbg0 0x1000
                (Some (segCS Sample.cpu0)) Sample.dbg0 eq_refl eq_refl) as H.
  cbv zeta in H. destruct H as [Hs H].
  split; [exact Hs|]. exact H.
Defined.

(** ** The breakpoint engine *)

Lemma toInt32_small x : - 2 ^ 31 <= x < 2 ^ 31 -> JS.toInt32 x = x.
Proof. intros H. unfold JS.toInt32. rewrite Z.mod_small; lia. Qed.

Lemma toInt32_big x : 2 ^ 31 <= x < 2 ^ 32 -> JS.toInt32 x = x - 2 ^ 32.
Proof.
  intros H. unfold JS.toInt32.
  replace (x + 2 ^ 31) with (x - 2 ^ 31 + 1 * 2 ^ 32) by lia.
  rewrite Z.mod_add by lia. rewrite Z.mod_small; lia.
Qed.

Lemma land_high m r :
  0 <= r < 2 ^ 16 -> Z.land (m * 2 ^ 16 + r) (m * 2 ^ 16) = m * 2 ^ 16.
Proof.
  intros Hr. apply Z.bits_inj'. intros n Hn. rewrite Z.land_spec.
  destruct (Z.ltb_spec n 16).
  - rewrite (Z.mul_pow2_bits_low m 16 n) by lia. apply andb_false_r.
  - assert (E : Z.testbit (m * 2 ^ 16 + r) n = Z.testbit (m * 2 ^ 16) n).
    { replace n with ((n - 16) + 16) by lia.
      rewrite <- !Z.div_pow2_bits by lia.
      rewrite Z.div_add_l, Z.div_small, Z.add_0_r, Z.div_mul by lia.
      reflexivity. }
    rewrite E. apply andb_diag.
Qed.

Lemma land_fffff x : Z.land x 0xfffff = x mod 2 ^ 20.
Proof. change 0xfffff with (Z.ones 20). apply Z.land_ones. lia. Qed.

Ltac norm_pow :=
  repeat match goal with
  | |- context [2 ^ ?n] =>
    let v := eval vm_compute in (2 ^ n) in change (2 ^ n) with v
  | H : context [2 ^ ?n] |- _ =>
    let v := eval vm_compute in (2 ^ n) in change (2 ^ n) with v in H
  end.

Section BreakFacts.

Context (def : Defines) (ext : Collaborators).
Context (doCommand : string -> bool -> Debugger -> bool * Debugger).

Lemma mapBreakpoint_top k d lin :
  20 <= k <= 32 -> maskAddr d = 2 ^ k - 1 ->
  2 ^ k - 0x10000 <= lin < 2 ^ k -> lin <> ADDR_INVALID def ->
  Break.mapBreakpoint def lin d = 0xF0000 + lin mod 0x10000.
Proof.
  intros Hk Hm Hl Hi. unfold Break.mapBreakpoint.
  destruct (Z.eqb_spec lin (ADDR_INVALID def)) as [|_]; [done|].
  cbn [negb]. rewrite Hm.
  assert (Hc : k = 20 \/ k = 21 \/ k = 22 \/ k = 23 \/ k = 24 \/ k = 25 \/
               k = 26 \/ k = 27 \/ k = 28 \/ k = 29 \/ k = 30 \/ k = 31 \/
               k = 32) by lia.
  set (r := lin mod 0x10000).
  assert (Hr : 0 <= r < 2 ^ 16) by (apply Z.mod_pos_bound; lia).
  assert (Hlin : lin = 2 ^ k - 0x10000 + r).
  { subst r. pose proof (Z.div_mod lin 0x10000 ltac:(lia)) as E.
    assert (P : 2 ^ k = 2 ^ (k - 16) * 65536).
    { replace k with ((k - 16) + 16) at 1 by lia.
      rewrite Z.pow_add_r by lia. reflexivity. }
    assert (Q : lin / 65536 = 2 ^ (k - 16) - 1).
    { symmetry.
      apply Z.div_unique with (r := lin - (2 ^ (k - 16) - 1) * 65536); lia. }
    rewrite Q in E. lia. }
  clearbody r. subst lin. clear Hl Hi Hk Hm.
  repeat (destruct Hc as [Hc|Hc]; [subst k|]); [..|subst k].
  all: norm_pow.
  all: match goal with
       | |- context [JS.and ?a (JS.not 65535)] =>
         let m := eval vm_compute in (JS.and a (JS.not 65535)) in
         change (JS.and a (JS.not 65535)) with m
       end.
  all: unfold JS.and.
  all: match goal with
       | |- context [JS.toInt32 (?a + ?x)] =>
         first [ rewrite (toInt32_small (a + x)) by (norm_pow; lia)
               | rewrite (toInt32_big (a + x)) by (norm_pow; lia) ]
       end.
  all: repeat match goal with
       | |- context [JS.toInt32 ?c] =>
         let m := eval vm_compute in (JS.toInt32 c) in
         change (JS.toInt32 c) with m
       end.
  all: match goal with
       | Hx : 0 <= ?x < _ |- context [Z.land ?y ?M =? ?M] =>
         let m := eval vm_compute in (M / 65536) in
         replace y with (m * 2 ^ 16 + x) by (norm_pow; lia);
         change M with (m * 2 ^ 16) at 1 2;
         rewrite (land_high m x ltac:(norm_pow; lia)), Z.eqb_refl
       end.
  all: rewrite land_fffff; norm_pow.
  all: Z.div_mod_to_equations; lia.
Qed.

Lemma mapBreakpoint_mask lin d d' :
  maskAddr d' = maskAddr d -> Break.mapBreakpoint def lin d' = Break.mapBreakpoint def lin d.
Proof. intros H. unfold Break.mapBreakpoint. by rewrite H. Qed.

Lemma mapBreakpoint_reset_vector k d :
  20 <= k <= 32 -> maskAddr d = 2 ^ k - 1 -> 0x000FFFF0 <> ADDR_INVALID def ->
  Break.mapBreakpoint def 0x000FFFF0 d = 0x000FFFF0.
Proof.
  intros Hk Hm Hi. unfold Break.mapBreakpoint.
  destruct (Z.eqb_spec 0x000FFFF0 (ADDR_INVALID def)) as [|_]; [done|].
  cbn [negb]. rewrite Hm.
  assert (Hc : k = 20 \/ k = 21 \/ k = 22 \/ k = 23 \/ k = 24 \/ k = 25 \/
               k = 26 \/ k = 27 \/ k = 28 \/ k = 29 \/ k = 30 \/ k = 31 \/
               k = 32) by lia.
  clear Hk Hm.
  repeat (destruct Hc as [Hc|Hc]; [subst k; reflexivity|]).
  subst k; reflexivity.
Qed.

Lemma checkBreakpoint_alias k d bp rest fuel :
  20 <= k <= 32 -> maskAddr d = 2 ^ k - 1 ->
  nSuppressBreaks d = 0 -> aBreakExec (breaks d) = bp :: rest ->
  sel bp = None -> addr bp = Some (2 ^ k - 0x10) ->
  fTempBreak bp = false -> aCmds bp = None ->
  0x000FFFF0 <> ADDR_INVALID def -> 2 ^ k - 0x10 <> ADDR_INVALID def ->
  fst <$> Break.checkBreakpoint def ext doCommand (S fuel) 0x000FFFF0 1 Exec false d
    = Some true.
Proof.
  intros Hk Hm Hs Hl Hsel Haddr Ht Hc Hi1 Hi2.
  unfold Break.checkBreakpoint. rewrite Hs. cbn [Z.eqb].
  set (d0 := setSuppress (0 + 1) d).
  assert (Hm0 : maskAddr d0 = 2 ^ k - 1) by exact Hm.
  rewrite (mapBreakpoint_reset_vector k d0 Hk Hm0 Hi1).
  cbn [Break.entryLoop].
  destruct (messageEnabled ext _ _ && _)%bool; [reflexivity|].
  assert (Hl0 : getList Exec d0 = bp :: rest) by exact Hl.
  rewrite Hl0. cbn [lookup list_lookup andb].
  rewrite Hsel. unfold Addr.getAddr. rewrite Haddr.
  cbn [list_insert insert].
  set (d2 := setList Exec _ d0).
  assert (Hm2 : maskAddr d2 = 2 ^ k - 1) by exact Hm.
  rewrite (mapBreakpoint_top k d2 (2 ^ k - 0x10) Hk Hm2) by (try done; lia).
  assert (E : (2 ^ k - 16) mod 65536 = 65520).
  { assert (P : 2 ^ k = 2 ^ (k - 16) * 65536).
    { replace k with ((k - 16) + 16) at 1 by lia.
      rewrite Z.pow_add_r by lia. reflexivity. }
    rewrite P. symmetry.
    apply Z.mod_unique_pos with (q := 2 ^ (k - 16) - 1); lia. }
  rewrite E. cbn [Break.byteLoop Z.add Z.eqb Pos.eqb Break.matchBody].
  unfold Break.matchBody. rewrite Ht, Hc. destruct fuel; reflexivity.
Qed.








Lemma setList_same k l d : getList k d = l -> setList k l d = d.
Proof.
  destruct d as [? ? ? ? ? [ex rd wr] ? ? ? ?]. destruct k; cbn; by intros ->.
Qed.



End BreakFacts.


(** ** History and tracing *)

Section HistFacts.

Context (def : Defines) (ext : Collaborators).
Context (doCommand : string -> bool -> Debugger -> bool * Debugger).

Lemma setSuppress_undo d :
  setSuppress (nSuppressBreaks (setSuppress (nSuppressBreaks d + 1) d) - 1)
    (setSuppress (nSuppressBreaks d + 1) d) = d.
Proof. destruct d. unfold setSuppress. cbn. f_equal. lia. Qed.

Lemma checkBreakpoint_quiet fuel lin nb fTemp d :
  quiet def ext d ->
  Break.checkBreakpoint def ext doCommand fuel lin nb Exec fTemp d
  = Some (false, d).
Proof.
  intros (Hl & Hm & _). unfold Break.checkBreakpoint.
  destruct (nSuppressBreaks d =? 0).
  - change (bitsMessage (setSuppress (nSuppressBreaks d + 1) d))
      with (bitsMessage d).
    rewrite Hm. cbn [andb].
    assert (E : getList Exec (setSuppress (nSuppressBreaks d + 1) d) = [])
      by exact Hl.
    destruct fuel; cbn [Break.entryLoop]; rewrite E; cbn [lookup list_lookup];
      by rewrite setSuppress_undo.
  - by rewrite setSuppress_undo.
Qed.

Lemma breakPhase_quiet fuel lin nState d :
  quiet def ext d ->
  Break.breakPhase def ext doCommand fuel lin nState d = Some (false, d).
Proof.
  intros Hq. unfold Break.breakPhase.
  destruct (0 <? nState); [|done].
  rewrite (checkBreakpoint_quiet _ _ _ _ _ Hq).
  destruct Hq as (_ & _ & ->). done.
Qed.

Lemma recordInstruction_quiet lin nState d :
  quiet def ext d -> quiet def ext (Hist.recordInstruction def lin nState d).
Proof.
  intros Hq. unfold Hist.recordInstruction.
  destruct (_ && _)%bool; [|done]. by destruct (probeAddr (cpu d) lin).
Qed.

Lemma quiet_undisturbed fuel rs : forall d,
  quiet def ext d -> undisturbed def ext doCommand fuel rs d.
Proof.
  induction rs as [|r rs IH]; intros d Hq; [done|].
  cbn [undisturbed]. exists (setCpu (r_cpu r) d).
  assert (Hq' : quiet def ext (setCpu (r_cpu r) d)) by exact Hq.
  split_and!; try done; [by apply breakPhase_quiet|].
  by apply IH, recordInstruction_quiet.
Qed.

(** What one recorded instruction does to the history. *)
Lemma retire_step fuel r rs d :
  undisturbed def ext doCommand fuel (r :: rs) d -> recorded r ->
  aaOpcodeCounts (history d) <> [] ->
  (iOpcodeHistory (history d) < length (aOpcodeHistory (history d)))%nat ->
  exists d',
    retire def ext doCommand fuel r d = Some d' /\
    undisturbed def ext doCommand fuel rs d' /\
    trace d' = trace d /\
    length (aOpcodeHistory (history d')) = length (aOpcodeHistory (history d)) /\
    aaOpcodeCounts (history d') <> [] /\
    iOpcodeHistory (history d') =
      (if (S (iOpcodeHistory (history d))
           =? length (aOpcodeHistory (history d)))%nat
       then 0%nat else S (iOpcodeHistory (history d))) /\
    (forall j, j <> iOpcodeHistory (history d) ->
       aOpcodeHistory (history d') !! j = aOpcodeHistory (history d) !! j) /\
    holds (aOpcodeHistory (history d') !! iOpcodeHistory (history d)) r.
Proof.
  intros (d0 & Hb & Hcpu & Hh & Ht & Hu) (Hn & b & Hb') Hc Hi.
  unfold retire, Break.checkInstruction. rewrite Hb.
  eexists. split; [reflexivity|]. split; [exact Hu|].
  unfold Hist.recordInstruction. rewrite Hh, Hcpu.
  destruct (Z.leb_spec 0 (r_state r)); [|lia].
  destruct (aaOpcodeCounts (history d)) as [|c0 cs] eqn:Ec; [done|].
  cbn [length Nat.eqb negb andb]. rewrite Hb'.
  destruct (lookup_lt_is_Some_2 _ _ Hi) as [a0 Ha0]. rewrite Ha0.
  cbn [history setHistory trace aOpcodeHistory iOpcodeHistory aaOpcodeCounts].
  split; [exact Ht|].
  split; [apply length_insert|].
  split.
  { destruct ((c0 :: cs) !! Z.to_nat b) as [[i n]|]; [|done].
    intros E. apply (f_equal length) in E. rewrite length_insert in E. done. }
  split; [by rewrite Nat.add_1_r|].
  split; [intros j Hj; by rewrite list_lookup_insert_ne|].
  eexists. split; [by apply list_lookup_insert_eq|]. done.
Qed.

(** ... and a run of them that stays within the ring. *)
Lemma retire_many fuel rs rs2 : forall d,
  undisturbed def ext doCommand fuel (rs ++ rs2) d -> Forall recorded rs ->
  aaOpcodeCounts (history d) <> [] ->
  (iOpcodeHistory (history d) + length rs
   <= length (aOpcodeHistory (history d)))%nat ->
  exists d',
    retireAll def ext doCommand fuel rs d = Some d' /\
    undisturbed def ext doCommand fuel rs2 d' /\
    trace d' = trace d /\
    length (aOpcodeHistory (history d')) = length (aOpcodeHistory (history d)) /\
    aaOpcodeCounts (history d') <> [] /\
    ((iOpcodeHistory (history d) + length rs
      < length (aOpcodeHistory (history d)))%nat ->
     iOpcodeHistory (history d')
     = (iOpcodeHistory (history d) + length rs)%nat) /\
    ((iOpcodeHistory (history d) + length rs
      = length (aOpcodeHistory (history d)))%nat ->
     rs <> [] -> iOpcodeHistory (history d') = 0%nat) /\
    (forall j, (j < iOpcodeHistory (history d))%nat ->
       aOpcodeHistory (history d') !! j = aOpcodeHistory (history d) !! j) /\
    (forall j r, rs !! j = Some r ->
       holds (aOpcodeHistory (history d')
                !! (iOpcodeHistory (history d) + j)%nat) r).
Proof.
  induction rs as [|r rs IH]; intros d Hu Hr Hc Hi.
  - exists d. cbn [retireAll length].
    split_and!; try done; intros; try lia; done.
  - cbn [length] in Hi. inversion Hr as [|? ? Hr1 Hr2]; subst.
    destruct (retire_step fuel r (rs ++ rs2) d Hu Hr1 Hc)
      as (d1 & E1 & Hu1 & Ht1 & Hl1 & Hc1 & Hi1 & Hk1 & Hh1); [lia|].
    cbn [retireAll]. rewrite E1.
    destruct (Nat.eqb_spec (S (iOpcodeHistory (history d)))
                (length (aOpcodeHistory (history d)))) as [Hw|Hw].
    + destruct rs as [|r2 rs]; [|cbn [length] in Hi; lia].
      exists d1. cbn [retireAll length].
      split_and!; try done.
      * intros ?. lia.
      * intros j Hj. apply Hk1. lia.
      * intros [|j] r' Hj; [|done]. inversion Hj; subst.
        by rewrite Nat.add_0_r.
    + destruct (IH d1 Hu1 Hr2 Hc1)
        as (d2 & E2 & Hu2 & Ht2 & Hl2 & Hc2 & Hi2 & Hz2 & Hk2 & Hh2).
      { rewrite Hi1, Hl1. lia. }
      rewrite ?Hi1, ?Hl1 in Hi2, Hz2, Hk2, Hh2.
      exists d2. cbn [length]. split_and!; try done; try congruence.
      * intros ?. rewrite Hi2; lia.
      * intros ? _. destruct rs as [|r2 rs].
        -- cbn [length] in *. lia.
        -- apply Hz2; [cbn [length] in *; lia | done].
      * intros j Hj. rewrite Hk2 by lia. apply Hk1. lia.
      * intros [|j] r' Hj.
        -- inversion Hj; subst. rewrite Nat.add_0_r, Hk2 by lia. done.
        -- specialize (Hh2 j r' Hj).
           replace (iOpcodeHistory (history d) + S j)%nat
             with (S (iOpcodeHistory (history d)) + j)%nat by lia. done.
Qed.

Lemma historyInit_fresh d :
  Hist.checksEnabled def ext false d = true ->
  aOpcodeHistory (history d) = [] -> aaOpcodeCounts (history d) = [] ->
  history (Hist.historyInit def ext d) =
  {| aOpcodeHistory :=
       repeat (Addr.newAddr def 0 None None 0 None None d) (HISTORY_LIMIT def);
     iOpcodeHistory := 0;
     aaOpcodeCounts := map (fun i => (Z.of_nat i, 0)) (seq 0 256);
     cOpcodes := cOpcodes (history d) |}.
Proof.
  intros Hc Hs Ha. unfold Hist.historyInit. rewrite Hc. cbn [negb].
  rewrite Hs. cbn [length Nat.eqb aaOpcodeCounts]. rewrite Ha. reflexivity.
Qed.

Lemma traceLog_fills prop s e flags :
  DEBUG def = true -> traceEnabled (trace e) = Some flags ->
  flags !! prop = Some true ->
  length (aTraceBuffer (trace e)) = TRACE_LIMIT ->
  S (iTraceBuffer (trace e)) = TRACE_LIMIT ->
  trace (Hist.traceLog def prop s e) =
  {| traceEnabled := Some ((fun _ : bool => false) <$> flags);
     aTraceBuffer :=
       <[iTraceBuffer (trace e) := Some s]> (aTraceBuffer (trace e));
     iTraceBuffer := TRACE_LIMIT |}.
Proof.
  intros Hd Hf Hp Hl Hi. unfold Hist.traceLog, Hist.traceFlag.
  rewrite Hd, Hf, Hp. rewrite Hl.
  destruct (Nat.eqb_spec TRACE_LIMIT 0) as [E|_]; [lia|].
  unfold arraySet. rewrite Hl.
  destruct (Nat.ltb_spec (iTraceBuffer (trace e)) TRACE_LIMIT); [|lia].
  rewrite length_insert, Hl.
  destruct (Nat.leb_spec TRACE_LIMIT (S (iTraceBuffer (trace e)))); [|lia].
  cbn [trace setTrace]. by rewrite Hi.
Qed.

(** C1 (amended).  Instructions are retired without a break, the
    breakpoint half of [checkInstruction] leaving history and tracing
    state alone.  Once the history ring has been filled to its capacity
    (as many instructions recorded as the ring has slots, the cursor
    starting at 0), the cursor is back at 0, and the next retired
    instruction is written over slot 0; the tracing flags are as they
    were, throughout.  The buffer that turns every tracing flag off when
    it fills, instead of wrapping, is the trace buffer of [traceLog]. *)
Theorem history_wraps_at_capacity (fuel : nat) (d : Debugger)
    (rs : list Retired) (r : Retired)
    (Hrun : undisturbed def ext doCommand fuel (rs ++ [r]) d)
    (Hi : iOpcodeHistory (history d) = 0%nat)
    (Hc : aaOpcodeCounts (history d) <> [])
    (Hne : rs <> [])
    (Hlen : length rs = length (aOpcodeHistory (history d)))
    (Hrec : Forall recorded (rs ++ [r])) :
  (exists d1 d2,
     retireAll def ext doCommand fuel rs d = Some d1 /\
     retire def ext doCommand fuel r d1 = Some d2 /\
     (forall j rj, rs !! j = Some rj ->
        holds (aOpcodeHistory (history d1) !! j) rj) /\
     iOpcodeHistory (history d1) = 0%nat /\
     holds (aOpcodeHistory (history d2) !! 0%nat) r /\
     trace d1 = trace d /\ trace d2 = trace d) /\
  (forall e prop s flags,
     DEBUG def = true -> traceEnabled (trace e) = Some flags ->
     flags !! prop = Some true ->
     length (aTraceBuffer (trace e)) = TRACE_LIMIT ->
     S (iTraceBuffer (trace e)) = TRACE_LIMIT ->
     trace (Hist.traceLog def prop s e) =
     {| traceEnabled := Some ((fun _ : bool => false) <$> flags);
        aTraceBuffer :=
          <[iTraceBuffer (trace e) := Some s]> (aTraceBuffer (trace e));
        iTraceBuffer := TRACE_LIMIT |}).
Proof.
  split; [|intros; by apply traceLog_fills].
  apply Forall_app in Hrec as [Hrs Hr]. inversion Hr as [|? ? Hr1 _]; subst.
  destruct (retire_many fuel rs [r] d Hrun Hrs Hc)
    as (d1 & E1 & Hu1 & Ht1 & Hl1 & Hc1 & _ & Hz1 & _ & Hh1);
    [rewrite Hi; lia|].
  rewrite Hi in Hz1, Hh1.
  assert (Hi1 : iOpcodeHistory (history d1) = 0%nat)
    by (apply Hz1; [lia|done]).
  destruct (retire_step fuel r [] d1 Hu1 Hr1 Hc1)
    as (d2 & E2 & _ & Ht2 & _ & _ & _ & _ & Hh2).
  { rewrite Hi1, Hl1, <- Hlen. destruct rs; [done | cbn [length]; lia]. }
  rewrite Hi1 in Hh2.
  exists d1, d2. split_and!; try done. congruence.
Qed.

End HistFacts.

Lemma tracing_quiet : quiet Sample.def Sample.ext Sample.tracing.
Proof. split_and!; reflexivity. Qed.

Lemma tracing_history :
  history Sample.tracing =
  {| aOpcodeHistory :=
       repeat (Addr.newAddr Sample.def 0 None None 0 None None Sample.dbg0)
         (HISTORY_LIMIT Sample.def);
     iOpcodeHistory := 0;
     aaOpcodeCounts := map (fun i => (Z.of_nat i, 0)) (seq 0 256);
     cOpcodes := 0 |}.
Proof.
  change (history Sample.tracing)
    with (history (Hist.historyInit Sample.def Sample.ext Sample.dbg0)).
  by rewrite historyInit_fresh.
Qed.

Lemma limit_pos : (0 < HISTORY_LIMIT Sample.def)%nat.
Proof. unfold HISTORY_LIMIT. cbn [DEBUG Sample.def]. lia. Qed.

Lemma retiredAt_recorded i : recorded (Sample.retiredAt i).
Proof. split; [cbn; lia | by exists 0x90]. Qed.

(** C1 (counterexample).  The sample debugger, history allocated (100000
    slots) and the SHLB tracing flag on, retires 100000 instructions at
    CS:0000, CS:0001, ...: the cursor is back at 0 and slot 0 holds offset
    0.  The next instruction, at offset 100000, is written over slot 0,
    and the tracing flag is still on. *)
Lemma history_full_overwrites_slot_0 :
  (d1 ← retireAll Sample.def Sample.ext Sample.doCommand 0
          (map Sample.retiredAt (seq 0 (HISTORY_LIMIT Sample.def)))
          Sample.tracing;
   d2 ← retire Sample.def Sample.ext Sample.doCommand 0
          (Sample.retiredAt (HISTORY_LIMIT Sample.def)) d1;
   Some (iOpcodeHistory (history d1),
         off <$> aOpcodeHistory (history d1) !! 0%nat,
         off <$> aOpcodeHistory (history d2) !! 0%nat,
         traceEnabled (trace d2)))
  = Some (0%nat, Some 0, Some 100000, Some {[ "SHLB" := true ]}).
Proof.
  pose proof limit_pos as Hpos.
  set (C := HISTORY_LIMIT Sample.def) in *.
  set (rs := map Sample.retiredAt (seq 0 C)).
  assert (Hlen : length rs = C)
    by (subst rs; by rewrite length_map, length_seq).
  assert (Hslots : length (aOpcodeHistory (history Sample.tracing)) = C).
  { rewrite tracing_history. cbn [aOpcodeHistory]. apply repeat_length. }
  assert (Hrs : Forall recorded rs).
  { subst rs. apply Forall_map, Forall_forall.
    intros; apply retiredAt_recorded. }
  assert (Hc : aaOpcodeCounts (history Sample.tracing) <> []).
  { by rewrite tracing_history. }
  assert (Hi : iOpcodeHistory (history Sample.tracing) = 0%nat).
  { by rewrite tracing_history. }
  destruct (retire_many Sample.def Sample.ext Sample.doCommand 0 rs
              [Sample.retiredAt C] Sample.tracing
              (quiet_undisturbed _ _ _ _ _ _ tracing_quiet) Hrs Hc)
    as (d1 & E1 & Hu1 & Ht1 & Hl1 & Hc1 & _ & Hz1 & _ & Hh1);
    [rewrite Hi; lia|].
  rewrite Hi in Hz1, Hh1.
  assert (Hi1 : iOpcodeHistory (history d1) = 0%nat).
  { apply Hz1; [lia|]. intros E. rewrite E in Hlen. cbn in Hlen. lia. }
  destruct (retire_step Sample.def Sample.ext Sample.doCommand 0
              (Sample.retiredAt C) [] d1 Hu1 (retiredAt_recorded C) Hc1)
    as (d2 & E2 & _ & Ht2 & _ & _ & _ & _ & Hh2); [lia|].
  rewrite Hi1 in Hh2.
  rewrite E1. cbn [mbind option_bind]. rewrite E2. cbn [mbind option_bind].
  assert (H0 : rs !! 0%nat = Some (Sample.retiredAt 0)).
  { subst rs. rewrite list_lookup_fmap, lookup_seq_lt by lia. done. }
  destruct (Hh1 0%nat _ H0) as (a1 & Ea1 & Ho1 & _).
  destruct Hh2 as (a2 & Ea2 & Ho2 & _).
  cbn [Nat.add] in Ea1. rewrite Ea1, Ea2, Hi1, Ht2, Ht1.
  cbn [fmap option_fmap option_map].
  rewrite Ho1, Ho2. cbn [Sample.retiredAt r_cpu getIP Sample.atIP].
  subst C. unfold HISTORY_LIMIT. cbn [DEBUG Sample.def].
  rewrite Z2Nat.id by lia. reflexivity.
Qed.

(** A ring of two slots and an exec breakpoint elsewhere (at 0x20000,
    never reached): the third instruction lands in slot 0. *)
Lemma history_wraps_at_capacity_witness :
  let bp := {| off := 0; sel := None; addr := Some 0x20000;
               type := ADDR_PHYSICAL; fData32 := false; fAddr32 := false;
               fTempBreak := false; sCmd := None; aCmds := None |} in
  let d := setList Exec [bp]
             (setHistory
                {| aOpcodeHistory := repeat Addr.emptyAddr 2;
                   iOpcodeHistory := 0;
                   aaOpcodeCounts := map (fun i => (Z.of_nat i, 0)) (seq 0 256);
                   cOpcodes := 0 |} Sample.tracing) in
  exists d1 d2,
    retireAll Sample.def Sample.ext Sample.doCommand 1
      [Sample.retiredAt 0; Sample.retiredAt 1] d = Some d1 /\
    retire Sample.def Sample.ext Sample.doCommand 1 (Sample.retiredAt 2) d1
      = Some d2 /\
    iOpcodeHistory (history d1) = 0%nat /\
    holds (aOpcodeHistory (history d2) !! 0%nat) (Sample.retiredAt 2) /\
    trace d2 = trace d.
Proof.
  intros bp d.
  destruct (history_wraps_at_capacity Sample.def Sample.ext Sample.doCommand
              1 d [Sample.retiredAt 0; Sample.retiredAt 1] (Sample.retiredAt 2))
    as [(d1 & d2 & E1 & E2 & _ & Hi & Hh & _ & Ht) _].
  - cbn [app undisturbed]. eexists. split; [vm_compute; reflexivity|].
    split_and!; try reflexivity.
    eexists. split; [vm_compute; reflexivity|].
    split_and!; try reflexivity.
    eexists. split; [vm_compute; reflexivity|].
    split_and!; reflexivity.
  - reflexivity.
  - discriminate.
  - discriminate.
  - reflexivity.
  - repeat constructor; try (cbn; lia); by exists 0x90.
  - exists d1, d2. split_and!; done.
Defined.

(** ** The breakpoint lists *)

Section FindFacts.

Context (def : Defines) (ext : Collaborators).

Lemma frame_refl d : frame d d.
Proof. by split_and!. Qed.

Lemma frame_sym e d : frame e d -> frame d e.
Proof. intros (? & ? & ?). by split_and!. Qed.

Lemma frame_trans e d f : frame e d -> frame d f -> frame e f.
Proof. intros (? & ? & ?) (? & ? & ?). split_and!; congruence. Qed.

Lemma sim_frame e d : sim e d -> frame e d.
Proof. by intros [? _]. Qed.

(** [getSegment] reads the machine, the counter and the scratch register,
    and writes the scratch register only. *)
Lemma getSegment_sim s ty e d :
  sim e d ->
  fst (Addr.getSegment def ext s ty e) = fst (Addr.getSegment def ext s ty d) /\
  sim (snd (Addr.getSegment def ext s ty e)) (snd (Addr.getSegment def ext s ty d)) /\
  breaks (snd (Addr.getSegment def ext s ty e)) = breaks e /\
  frame (snd (Addr.getSegment def ext s ty e)) e.
Proof.
  intros [(Hc & Hn & Hm) Hs]. unfold Addr.getSegment, Addr.getCurrentType,
    Addr.getCurrentMode. rewrite Hc, Hn, Hs.
  repeat match goal with
  | |- context [if ?b then _ else _] => destruct b
  end; cbn [fst snd]; split_and!; try done; split_and!; done.
Qed.

Lemma getSegment_none s ty e d :
  frame e d -> fst (Addr.getSegment def ext s ty d) = None ->
  Addr.getSegment def ext s ty e = (None, e).
Proof.
  intros (Hc & Hn & Hm). unfold Addr.getSegment, Addr.getCurrentType,
    Addr.getCurrentMode. rewrite Hc, Hn.
  repeat match goal with
  | |- context [if ?b then _ else _] => destruct b
  end; cbn [fst snd]; done.
Qed.


Lemma getAddr_sim b fWrite nb e d :
  sim e d ->
  fst (Addr.getAddr def ext b fWrite nb e) = fst (Addr.getAddr def ext b fWrite nb d) /\
  sim (snd (Addr.getAddr def ext b fWrite nb e)) (snd (Addr.getAddr def ext b fWrite nb d)) /\
  breaks (snd (Addr.getAddr def ext b fWrite nb e)) = breaks e /\
  frame (snd (Addr.getAddr def ext b fWrite nb e)) e.
Proof.
  intros Hs. unfold Addr.getAddr.
  destruct (addr b); [cbn [fst snd]; split_and!; try done; apply frame_refl|].
  destruct (getSegment_sim (sel b) (type b) e d Hs) as (E1 & E2 & E3 & E4).
  destruct (Addr.getSegment def ext (sel b) (type b) e) as [os1 e1].
  destruct (Addr.getSegment def ext (sel b) (type b) d) as [os2 d1].
  cbn [fst snd] in *. subst os2.
  destruct os1; cbn [fst snd]; split_and!; try done.
  destruct E2 as [(-> & _) _]. done.
Qed.

Lemma getAddr_frame b fWrite nb d :
  frame (snd (Addr.getAddr def ext b fWrite nb d)) d /\
  breaks (snd (Addr.getAddr def ext b fWrite nb d)) = breaks d.
Proof.
  destruct (getAddr_sim b fWrite nb d d) as (_ & _ & B & F);
    [by split; [apply frame_refl|] | by split].
Qed.

(** Once resolved, an address object resolves to the same value again,
    with nothing left to cache. *)
Lemma getAddr_stable b fWrite nb d e :
  frame e d ->
  let r := Addr.getAddr def ext b fWrite nb d in
  Addr.getAddr def ext (snd (fst r)) fWrite nb e = (fst (fst r), snd (fst r), e).
Proof.
  intros Hf r. subst r. unfold Addr.getAddr at 2 3 4.
  destruct (addr b) as [lin|] eqn:Ea.
  - cbn [fst snd]. unfold Addr.getAddr. by rewrite Ea.
  - destruct (Addr.getSegment def ext (sel b) (type b) d) as [os d1] eqn:Es.
    destruct os as [seg|]; cbn [fst snd].
    + reflexivity.
    + unfold Addr.getAddr. rewrite Ea.
      rewrite (getSegment_none (sel b) (type b) e d Hf); [done|].
      by rewrite Es.
Qed.

Lemma mapBreakpoint_frame lin e d :
  frame e d -> Break.mapBreakpoint def lin e = Break.mapBreakpoint def lin d.
Proof. intros (_ & _ & Hm). unfold Break.mapBreakpoint. by rewrite Hm. Qed.

Lemma matchEntry_frame q lin b d :
  let r := Break.matchEntry def ext q lin b d in
  frame (snd r) d /\ breaks (snd r) = breaks d /\
  sel (snd (fst r)) = sel b /\ off (snd (fst r)) = off b.
Proof.
  unfold Break.matchEntry. destruct (negb _); [|by split_and!; try apply frame_refl].
  pose proof (getAddr_frame b false 0 d) as [F B].
  pose proof (getAddr_keeps def ext b false 0 d) as K.
  destruct (Addr.getAddr def ext b false 0 d) as [[l b'] d'].
  cbn [fst snd] in *. destruct K as (? & ? & _). by split_and!.
Qed.

Lemma matchEntry_sim q lin b e d :
  sim e d ->
  fst (Break.matchEntry def ext q lin b e) = fst (Break.matchEntry def ext q lin b d) /\
  sim (snd (Break.matchEntry def ext q lin b e)) (snd (Break.matchEntry def ext q lin b d)).
Proof.
  intros Hs. unfold Break.matchEntry. destruct (negb _); [|done].
  destruct (getAddr_sim b false 0 e d Hs) as (E & S & _ & _).
  destruct (Addr.getAddr def ext b false 0 e) as [[l1 b1] e1].
  destruct (Addr.getAddr def ext b false 0 d) as [[l2 b2] d1].
  cbn [fst snd] in *. inversion E; subst. split; [|done].
  by rewrite (mapBreakpoint_frame l2 e1 d1 (sim_frame _ _ S)).
Qed.

Lemma matchEntry_stable q q' lin b d e :
  frame e d -> sel q' = sel q -> off q' = off q ->
  let r := Break.matchEntry def ext q lin b d in
  Break.matchEntry def ext q' lin (snd (fst r)) e = (fst (fst r), snd (fst r), e).
Proof.
  intros Hf Hs Ho r. subst r. unfold Break.matchEntry.
  destruct (negb _).
  - pose proof (getAddr_stable b false 0 d e Hf) as S. cbv zeta in S.
    pose proof (getAddr_frame b false 0 d) as [F _].
    destruct (Addr.getAddr def ext b false 0 d) as [[l b'] d'].
    cbn [fst snd] in *. rewrite S.
    by rewrite (mapBreakpoint_frame l e d' (frame_trans _ _ _ Hf (frame_sym _ _ F))).
  - cbn [fst snd]. by rewrite Hs, Ho.
Qed.

Lemma historyInit_frame d :
  frame (Hist.historyInit def ext d) d /\
  breaks (Hist.historyInit def ext d) = breaks d.
Proof.
  unfold Hist.historyInit. destruct (negb _); split; try done; apply frame_refl.
Qed.

Lemma setList_frame k l d : frame (setList k l d) d.
Proof. by split_and!. Qed.

Lemma getList_setList k l d : getList k (setList k l d) = l.
Proof. by destruct k. Qed.

Lemma findLoop_no_match k q lin L : forall fR0 pre0 d,
  fst (Break.findLoop def ext k q lin fR0 false pre0 L d) = false ->
  forall e, sim e d ->
  exists L' e',
    frame e' e /\ breaks e' = breaks e /\ settled def ext k q lin d L' /\
    forall fR pre M,
      Break.findLoop def ext k q lin fR false pre (L ++ M) e =
      Break.findLoop def ext k q lin fR false (pre ++ L') M e'.
Proof.
  induction L as [|b L IH]; intros fR0 pre0 d H e Hs.
  - exists [], e. split_and!.
    + apply frame_refl.
    + done.
    + intros x q' fR pre M Hx _ _. exists x. rewrite app_nil_r.
      by split_and!.
    + intros. by rewrite app_nil_r.
  - cbn [Break.findLoop] in H.
    destruct (matchEntry_sim q lin b e d Hs) as [E S].
    pose proof (matchEntry_frame q lin b d) as (Fd & _).
    pose proof (matchEntry_frame q lin b e) as (Fe & Be & _).
    pose proof (fun q' x Hx Hs' Ho' => matchEntry_stable q q' lin b d x Hx Hs' Ho') as St.
    cbv zeta in Fd, Fe, Be, St.
    destruct (Break.matchEntry def ext q lin b d) as [[h b'] d1].
    destruct (Break.matchEntry def ext q lin b e) as [[h2 b2] e1] eqn:Ee.
    cbn [fst snd] in *. inversion E; subst h2 b2. clear E.
    destruct h; cbn [negb orb andb] in H.
    { by destruct fR0. }
    destruct (IH fR0 _ d1 H e1 S) as (L' & e' & F' & B' & Hset & Happ).
    exists (b' :: L'), e'. split_and!.
    + by eapply frame_trans.
    + congruence.
    + intros x q' fR pre M Hx Hs' Ho'. cbn [app Break.findLoop].
      rewrite (St q' x Hx Hs' Ho'). cbn [negb orb andb].
      destruct (Hset x q' fR (pre ++ [b'])%list M) as (x' & Ex & Fx & Bx);
        try done.
      { eapply frame_trans; [exact Hx | by apply frame_sym]. }
      exists x'. rewrite Ex, <- app_assoc. done.
    + intros fR pre M. cbn [app Break.findLoop]. rewrite Ee.
      cbn [negb orb andb]. rewrite Happ, <- app_assoc. done.
Qed.


Lemma findLoop_frame k q lin fR fT l : forall pre d,
  frame (snd (Break.findLoop def ext k q lin fR fT pre l d)) d.
Proof.
  induction l as [|b l IH]; intros pre d; cbn [Break.findLoop].
  - cbn [snd]. apply setList_frame.
  - pose proof (matchEntry_frame q lin b d) as (F & _). cbv zeta in F.
    destruct (Break.matchEntry def ext q lin b d) as [[h b'] d1].
    cbn [fst snd] in F.
    destruct (h && _)%bool.
    + destruct fR; cbn [snd].
      * eapply frame_trans; [apply historyInit_frame|].
        destruct (negb (isExec k)); by destruct k.
      * eapply frame_trans; [apply setList_frame | done].
    + eapply frame_trans; [apply IH | done].
Qed.

Lemma selEq_refl s : selEq s s = true.
Proof. destruct s; [apply Z.eqb_refl | done]. Qed.

(** An address object as [getAddr] leaves it matches itself. *)
Lemma self_match a d0 lin0 a1 dA d y :
  Addr.getAddr def ext a false 0 d0 = (lin0, a1, dA) ->
  frame d d0 -> frame y d ->
  fst (fst (Break.matchEntry def ext a1 (Break.mapBreakpoint def lin0 d) a1 y))
  = true.
Proof.
  intros EA Fd Fy. unfold Break.matchEntry. destruct (negb _).
  - pose proof (getAddr_stable a false 0 d0 y (frame_trans _ _ _ Fy Fd)) as S.
    cbv zeta in S. rewrite EA in S. cbn [fst snd] in S. rewrite S. cbn [fst].
    rewrite (mapBreakpoint_frame _ y d Fy). apply Z.eqb_refl.
  - cbn [fst]. by rewrite selEq_refl, Z.eqb_refl.
Qed.

Lemma findLoop_last_match k q lin b fR L : forall pre x d,
  frame x d ->
  (forall y, frame y d -> fst (fst (Break.matchEntry def ext q lin b y)) = true) ->
  fst (Break.findLoop def ext k q lin fR false pre (L ++ [b]) x) = true.
Proof.
  induction L as [|c L IH]; intros pre x d Fx Hb; cbn [app Break.findLoop].
  - specialize (Hb x Fx).
    destruct (Break.matchEntry def ext q lin b x) as [[h b'] x1].
    cbn [fst] in Hb. subst h. cbn [negb orb andb]. by destruct fR.
  - pose proof (matchEntry_frame q lin c x) as (F & _). cbv zeta in F.
    destruct (Break.matchEntry def ext q lin c x) as [[h c'] x1].
    cbn [fst snd] in F. destruct h; cbn [negb orb andb].
    + by destruct fR.
    + apply (IH _ x1 d); [by eapply frame_trans | done].
Qed.

Lemma addBreakpoint_exec a d lin0 a1 dA :
  Addr.getAddr def ext a false 0 d = (lin0, a1, dA) ->
  exists d1 L0,
    Break.addBreakpoint def ext Exec a false d = (true, a1, d1) /\
    frame d1 d /\ getList Exec d1 = (L0 ++ [a1])%list.
Proof.
  intros EA. unfold Break.addBreakpoint, Break.findBreakpoint.
  cbn [negb isExec].
  pose proof (getAddr_frame a false 0 d) as [FA _]. rewrite EA in *.
  cbn [fst snd] in *.
  pose proof (findLoop_frame Exec a1 (Break.mapBreakpoint def lin0 dA) true false
                (getList Exec dA) [] dA) as FF.
  destruct (Break.findLoop def ext Exec a1 _ true false [] (getList Exec dA) dA)
    as [f dF]. cbn [snd] in FF.
  eexists. exists (getList Exec dF). split; [reflexivity|]. split.
  - eapply frame_trans; [apply historyInit_frame|].
    eapply frame_trans; [apply setList_frame|]. by eapply frame_trans.
  - unfold getList at 1. rewrite (proj2 (historyInit_frame _)). reflexivity.
Qed.

Lemma findBreakpoint_resolved a d0 lin0 a1 dA d fR :
  Addr.getAddr def ext a false 0 d0 = (lin0, a1, dA) ->
  frame d d0 ->
  Break.findBreakpoint def ext Exec a1 fR false d =
  (fst (Break.findLoop def ext Exec a1 (Break.mapBreakpoint def lin0 d) fR false []
          (getList Exec d) d),
   a1,
   snd (Break.findLoop def ext Exec a1 (Break.mapBreakpoint def lin0 d) fR false []
          (getList Exec d) d)).
Proof.
  intros EA F. unfold Break.findBreakpoint.
  pose proof (getAddr_stable a false 0 d0 d F) as S. cbv zeta in S.
  rewrite EA in S. cbn [fst snd] in S. rewrite S.
  by destruct (Break.findLoop def ext Exec a1 _ fR false [] (getList Exec d) d).
Qed.

(** C4 (amended).  After [addBreakpoint] on the exec list the list ends
    with the address, and [findBreakpoint] for it reports found.  When no
    other entry of the list matches the address (a search of the list
    without its last entry finds nothing), [findBreakpoint] with
    [fRemove] reports found, and a further [findBreakpoint] reports not
    found. *)
Theorem breakpoint_round_trip (a : DbgAddr) (d : Debugger) :
  let r := Break.addBreakpoint def ext Exec a false d in
  let a1 := snd (fst r) in
  let d1 := snd r in
  fst (fst r) = true /\
  (exists L0, getList Exec d1 = (L0 ++ [a1])%list) /\
  fst (fst (Break.findBreakpoint def ext Exec a1 false false d1)) = true /\
  (forall L0,
     getList Exec d1 = (L0 ++ [a1])%list ->
     fst (fst (Break.findBreakpoint def ext Exec a1 false false
                 (setList Exec L0 d1))) = false ->
     let r2 := Break.findBreakpoint def ext Exec a1 true false d1 in
     fst (fst r2) = true /\
     fst (fst (Break.findBreakpoint def ext Exec (snd (fst r2)) false false
                 (snd r2))) = false).
Proof.
  intros r a1 d1.
  destruct (Addr.getAddr def ext a false 0 d) as [[lin0 a1'] dA] eqn:EA.
  destruct (addBreakpoint_exec a d lin0 a1' dA EA) as (d1' & L0 & E & F1 & HL).
  subst r a1 d1. rewrite E. cbn [fst snd]. clear E.
  split; [done|]. split; [by exists L0|].
  assert (SM : forall x y, frame x d -> frame y x ->
            fst (fst (Break.matchEntry def ext a1'
                        (Break.mapBreakpoint def lin0 x) a1' y)) = true).
  { intros x y Fx Fy. by apply (self_match a d lin0 a1' dA x y). }
  split.
  - rewrite (findBreakpoint_resolved a d lin0 a1' dA d1' false EA F1). cbn [fst].
    rewrite HL. apply (findLoop_last_match _ _ _ _ _ _ _ _ d1');
      [apply frame_refl | intros y Fy; by apply SM].
  - intros L0' HL' H.
    assert (L0' = L0) as ->.
    { rewrite HL in HL'. by apply app_inj_tail in HL' as [-> _]. }
    assert (F2 : frame (setList Exec L0 d1') d).
    { eapply frame_trans; [apply setList_frame | done]. }
    rewrite (findBreakpoint_resolved a d lin0 a1' dA _ false EA F2) in H. cbn [fst] in H.
    rewrite getList_setList in H.
    rewrite (mapBreakpoint_frame _ _ d1' (setList_frame _ _ _)) in H.
    assert (Sd : sim d1' (setList Exec L0 d1')).
    { by split; [apply frame_sym, setList_frame|]. }
    destruct (findLoop_no_match _ _ _ _ _ _ _ H d1' Sd)
      as (L' & e' & Fe & Be & Hset & Happ).
    rewrite (findBreakpoint_resolved a d lin0 a1' dA d1' true EA F1). cbn [fst snd].
    rewrite HL, Happ. cbn [app Break.findLoop].
    pose proof (SM d1' e' F1 Fe) as Hm.
    pose proof (matchEntry_frame a1' (Break.mapBreakpoint def lin0 d1') a1' e')
      as (Fm & _). cbv zeta in Fm.
    destruct (Break.matchEntry def ext a1' _ a1' e') as [[h b'] e1].
    cbn [fst snd] in Hm, Fm. subst h. cbn [negb orb andb isExec fst snd].
    split; [done|].
    set (d2 := Hist.historyInit def ext (setList Exec (L' ++ []) e1)).
    assert (Fd2 : frame d2 d1').
    { subst d2. eapply frame_trans; [apply historyInit_frame|].
      eapply frame_trans; [apply setList_frame|].
      by eapply frame_trans. }
    rewrite (findBreakpoint_resolved a d lin0 a1' dA d2 false EA (frame_trans _ _ _ Fd2 F1)).
    cbn [fst].
    assert (HL2 : getList Exec d2 = L').
    { subst d2. unfold getList. rewrite (proj2 (historyInit_frame _)).
      cbn. apply app_nil_r. }
    rewrite HL2, (mapBreakpoint_frame _ d2 d1' Fd2).
    assert (Fs : frame d2 (setList Exec L0 d1')).
    { eapply frame_trans; [exact Fd2 | apply frame_sym, setList_frame]. }
    destruct (Hset d2 a1' false [] [] Fs eq_refl eq_refl) as (x' & Ex & _).
    rewrite app_nil_r in Ex. rewrite Ex. reflexivity.
Qed.

End FindFacts.

(** C4 (counterexample).  A permanent breakpoint at 1000:0100 and a
    temporary one at the same address are in the exec list (the
    temporary one left by a run that stopped elsewhere).  Adding
    1000:0100 replaces the permanent entry; the removing search then
    takes out the temporary entry, which comes first, and the address is
    still found afterwards. *)
Lemma stale_temporary_breakpoint_is_found :
  let dP := snd (Break.addBreakpoint Sample.def Sample.ext Exec Sample.addrA false Sample.dbg0) in
  let dT := snd (Break.addBreakpoint Sample.def Sample.ext Exec Sample.addrA true dP) in
  let r := Break.addBreakpoint Sample.def Sample.ext Exec Sample.addrA false dT in
  let r2 := Break.findBreakpoint Sample.def Sample.ext Exec (snd (fst r)) true false (snd r) in
  fst (fst r) = true /\
  fst (fst (Break.findBreakpoint Sample.def Sample.ext Exec (snd (fst r)) false false (snd r))) = true /\
  fst (fst r2) = true /\
  fst (fst (Break.findBreakpoint Sample.def Sample.ext Exec (snd (fst r2)) false false (snd r2))) = true.
Proof. vm_compute. by split_and!. Qed.

(** With no other breakpoint in the list, the round trip holds. *)
Lemma breakpoint_round_trip_witness :
  let r := Break.addBreakpoint Sample.def Sample.ext Exec Sample.addrA false Sample.dbg0 in
  let r2 := Break.findBreakpoint Sample.def Sample.ext Exec (snd (fst r)) true false (snd r) in
  fst (fst (Break.findBreakpoint Sample.def Sample.ext Exec (snd (fst r)) false false (snd r))) = true /\
  fst (fst r2) = true /\
  fst (fst (Break.findBreakpoint Sample.def Sample.ext Exec (snd (fst r2)) false false (snd r2))) = false.
Proof.
  intros r r2.
  destruct (breakpoint_round_trip Sample.def Sample.ext Sample.addrA Sample.dbg0)
    as (_ & _ & H1 & H2).
  split; [exact H1|].
  apply (H2 []); by vm_compute.
Defined.

(** ** Strings *)

Lemma append_cons x a b : String x a ++ b = String x (a ++ b).
Proof. reflexivity. Qed.

Lemma append_nil_r a : a ++ "" = a.
Proof. induction a as [|x a IH]; [done|]. by rewrite append_cons, IH. Qed.

Lemma append_assoc a b c : (a ++ b) ++ c = a ++ (b ++ c).
Proof. induction a as [|x a IH]; [done|]. by rewrite !append_cons, IH. Qed.

Lemma length_append a b :
  String.length (a ++ b) = (String.length a + String.length b)%nat.
Proof. induction a as [|x a IH]; [done|]. rewrite append_cons. cbn. by rewrite IH. Qed.

(** ** More on the expression evaluator *)

Lemma toInt32_int32 z : int32 (JS.toInt32 z).
Proof.
  unfold int32, JS.toInt32.
  pose proof (Z.mod_pos_bound (z + 2 ^ 31) (2 ^ 32) ltac:(lia)). lia.
Qed.

Lemma evalLoop_full ops : forall vals c st',
  c < 0 -> Expr.evalLoop ops vals c = (true, st') ->
  Expr.aOps st' = [] /\
  (length (Expr.aVals st') + length ops = length vals)%nat /\
  (ops <> [] -> exists v rest, Expr.aVals st' = v :: rest /\ int32 v).
Proof.
  induction ops as [|op ops IH]; intros vals c st' Hc H.
  - cbn [Expr.evalLoop] in H. destruct (c =? 0); inversion H; subst; cbn;
      split_and!; done || lia.
  - cbn [Expr.evalLoop] in H. destruct (Z.eqb_spec c 0); [lia|].
    destruct vals as [|v2 [|v1 vals]]; try discriminate H.
    destruct (Expr.binOp op v1 v2) as [r|]; [|discriminate H].
    destruct (IH _ (c - 1) _ ltac:(lia) H) as (E & L & V).
    split_and!; [done | cbn [length] in *; lia |].
    intros _. destruct ops as [|op' ops].
    + cbn [Expr.evalLoop] in H. destruct (c - 1 =? 0); inversion H; subst;
        cbn; eexists _, _; (split; [done|]); apply toInt32_int32.
    + by apply V.
Qed.

Lemma evalLoop_short ops : forall vals c,
  c < 0 -> ops <> [] -> (length vals <= length ops)%nat ->
  fst (Expr.evalLoop ops vals c) = false.
Proof.
  induction ops as [|op ops IH]; intros vals c Hc Hne Hl; [done|].
  cbn [Expr.evalLoop]. destruct (Z.eqb_spec c 0); [lia|].
  destruct vals as [|v2 [|v1 vals]]; try done.
  destruct (Expr.binOp op v1 v2) as [r|]; [|done].
  apply IH; [lia | | cbn [length] in *; lia].
  intros ->. cbn [length] in Hl. lia.
Qed.

(** X1 (evalExpression).  Called to evaluate everything ([cOps]
    omitted), [evalExpression] succeeds only with the operator stack
    emptied, having taken one value off the value stack for every
    operator; when there was an operator at all, the value left on top
    is a 32-bit integer.  It fails whenever there are operators and no
    more values than operators. *)
Theorem evalExpression_stack_discipline (st : Expr.Stacks) :
  (forall st', Expr.evalExpression st 0 = (true, st') ->
     Expr.aOps st' = [] /\
     (length (Expr.aVals st') + length (Expr.aOps st)
      = length (Expr.aVals st))%nat /\
     (Expr.aOps st <> [] ->
      exists v rest, Expr.aVals st' = v :: rest /\ int32 v)) /\
  (Expr.aOps st <> [] ->
   (length (Expr.aVals st) <= length (Expr.aOps st))%nat ->
   fst (Expr.evalExpression st 0) = false).
Proof.
  split.
  - intros st' H. by apply (evalLoop_full _ _ (-1)).
  - intros Hne Hl. by apply evalLoop_short.
Qed.

Section ChainFacts.

Context (lib : StrLib) (def : Defines) (c : X86CPU) (vars : gmap string Z).

Lemma finish_step op ops x v vals :
  finish (false, stk (x :: v :: vals) (op :: ops)) =
  y ← applyOp op v x; finish (false, stk (y :: vals) ops).
Proof.
  unfold finish, applyOp, Expr.evalExpression.
  cbn [stk Expr.aOps Expr.aVals Z.eqb Expr.evalLoop].
  destruct (Expr.binOp op v x) as [r|]; cbn; [|done].
  by rewrite (evalLoop_negative ops _ (-2) (-1)).
Qed.

Lemma chain_groups_right rest : forall t0 v0 vals ops,
  resolves lib def c vars t0 v0 ->
  Forall (fun e => resolves lib def c vars (e.2.1) (e.2.2)) rest ->
  ascending (match ops with top :: _ => [top] | [] => [] end ++ map fst rest)%list = true ->
  exists r,
    Expr.parseLoop lib def c vars
      (chainTokens t0 (map (fun e => (e.1, e.2.1)) rest)) (stk vals ops)
    = Some r /\
    finish r =
    x ← rightFold v0 (map (fun e => (e.1, e.2.2)) rest);
    finish (false, stk (x :: vals) ops).
Proof.
  induction rest as [|[op [t v]] rest IH]; intros t0 v0 vals ops H0 Hr Ha.
  - cbn [map chainTokens rightFold].
    destruct H0 as [Hne Hv]. cbn [Expr.parseLoop]. rewrite Hne, Hv.
    by eexists.
  - cbn [map chainTokens rightFold fst snd].
    inversion Hr as [|? ? Ht Hr']; subst. cbn [fst snd] in Ht.
    assert (E : Expr.parseLoop lib def c vars
                  (t0 :: op :: chainTokens t (map (fun e => (e.1, e.2.1)) rest))
                  (stk vals ops) =
                Expr.parseLoop lib def c vars
                  (chainTokens t (map (fun e => (e.1, e.2.1)) rest))
                  (stk (v0 :: vals) (op :: ops))).
    { destruct H0 as [Hne Hv]. cbn [Expr.parseLoop]. rewrite Hne, Hv.
      cbn [stk Expr.aOps Expr.aVals].
      destruct ops as [|top ops]; [done|].
      cbn [app map fst ascending] in Ha.
      apply andb_true_iff in Ha as [Ha _]. apply negb_true_iff in Ha.
      by rewrite Ha. }
    rewrite E.
    destruct (IH t v (v0 :: vals) (op :: ops) Ht Hr') as (r & Er & Fr).
    + destruct ops as [|top ops]; cbn [app map fst ascending] in Ha |- *.
      * done.
      * by apply andb_true_iff in Ha as [_ Ha].
    + exists r. split; [done|]. rewrite Fr.
      destruct (rightFold v _) as [x|]; cbn [mbind option_bind]; [|done].
      by rewrite finish_step.
Qed.

(** X2 (parseExpression, evalExpression).  A chain
    [t0 op1 t1 ... opn tn] in which no operator is of lower precedence
    than the one before it is evaluated from the right, as
    [v0 op1 (v1 op2 (... opn vn))], every intermediate result being
    truncated to 32 bits: an operator is applied early only when one of
    strictly lower precedence follows it, so operators of equal
    precedence group to the right. *)
Theorem ascending_chain_groups_right (t0 : string) (v0 : Z)
    (rest : list (string * (string * Z)))
    (H0 : resolves lib def c vars t0 v0)
    (Hrest : Forall (fun e => resolves lib def c vars (e.2.1) (e.2.2)) rest)
    (Hasc : ascending (map fst rest) = true) :
  Expr.parseTokens lib def c vars
    (chainTokens t0 (map (fun e => (e.1, e.2.1)) rest)) =
  Expr.toResult (rightFold v0 (map (fun e => (e.1, e.2.2)) rest)).
Proof.
  destruct (chain_groups_right rest t0 v0 [] [] H0 Hrest Hasc) as (r & Er & Fr).
  rewrite (parseTokens_finish lib def c vars _ _ Er), Fr.
  destruct (rightFold v0 _); done.
Qed.

End ChainFacts.

Lemma append_nil_l a : "" ++ a = a.
Proof. reflexivity. Qed.

Lemma sub_app s : forall p n m,
  (p + n + m <= String.length s)%nat ->
  String.substring p n s ++ String.substring (p + n) m s
  = String.substring p (n + m) s.
Proof.
  induction s as [|x s IH]; intros p n m H.
  - cbn in H. assert (p = 0 /\ n = 0 /\ m = 0)%nat as (-> & -> & ->) by lia. done.
  - cbn [String.length] in H. destruct p as [|p].
    + destruct n as [|n]; cbn [Nat.add String.substring].
      * done.
      * rewrite append_cons. f_equal. apply (IH 0%nat n m). lia.
    + cbn [Nat.add String.substring]. apply IH. lia.
Qed.

Lemma prefix_sub0 t : forall u,
  String.prefix t u = true ->
  String.substring 0 (String.length t) u = t /\
  (String.length t <= String.length u)%nat.
Proof.
  induction t as [|a t IH]; intros u H; cbn [String.length].
  - split; [by destruct u | lia].
  - destruct u as [|b u]; cbn [String.prefix] in H; [done|].
    destruct (ascii_dec a b) as [->|]; [|done].
    destruct (IH u H) as [E L]. cbn [String.substring String.length].
    split; [by rewrite E | lia].
Qed.

Lemma suffix_sub s : forall q n,
  (q <= String.length s)%nat ->
  String.substring 0 n (String.substring q (String.length s - q) s)
  = String.substring q n s /\
  String.length (String.substring q (String.length s - q) s)
  = (String.length s - q)%nat.
Proof.
  induction s as [|x s IH]; intros q n H.
  - cbn in H. assert (q = 0)%nat as -> by lia. by destruct n.
  - destruct q as [|q].
    + rewrite Nat.sub_0_r, substring_all. done.
    + cbn [String.length Nat.sub String.substring]. apply IH.
      cbn [String.length] in H. lia.
Qed.

Lemma matchAt_sound alts s q e :
  (q <= String.length s)%nat ->
  Expr.matchAt alts s q = Some e ->
  (e = q /\ q = 0%nat) \/
  exists t, In (Expr.Lit t) alts /\ e = (q + String.length t)%nat /\
            String.substring q (String.length t) s = t /\
            (e <= String.length s)%nat.
Proof.
  intros Hq. induction alts as [|[t|] alts IH]; intros H; cbn [Expr.matchAt] in H.
  - done.
  - destruct (String.prefix t _) eqn:Hp.
    + inversion H; subst. right. exists t.
      destruct (prefix_sub0 _ _ Hp) as [E L].
      destruct (suffix_sub s q (String.length t) Hq) as [E1 E2].
      rewrite E1 in E. rewrite E2 in L.
      split_and!; [by left | done | done | lia].
    + destruct (IH H) as [?|(t' & ? & ?)]; [by left|].
      right. exists t'. split; [by right | done].
  - destruct (q =? 0)%nat eqn:E0.
    + inversion H; subst. apply Nat.eqb_eq in E0. by left.
    + destruct (IH H) as [?|(t' & ? & ?)]; [by left|].
      right. exists t'. split; [by right | done].
Qed.

Lemma lit_opTexts t :
  In (Expr.Lit t) Expr.regExp -> In t opTexts /\ (0 < String.length t)%nat.
Proof.
  unfold Expr.regExp. cbn [In]. intros H.
  repeat (destruct H as [H|H];
          [first [ inversion H; subst; split; [vm_compute; tauto | cbn; lia]
                 | discriminate H ]|]).
  destruct H.
Qed.

Lemma splitLoop_spec s fuel : forall p q,
  (p <= q)%nat -> (q <= String.length s)%nat ->
  (String.length s - q < fuel)%nat ->
  alternating (Expr.splitLoop fuel s p q) /\
  concatAll (Expr.splitLoop fuel s p q)
  = String.substring p (String.length s - p) s.
Proof.
  induction fuel as [|fuel IH]; intros p q Hpq Hq Hf; [lia|].
  cbn [Expr.splitLoop]. unfold JS.substring.
  destruct (String.length s <=? q)%nat eqn:Hl.
  { split; [constructor|]. unfold concatAll. cbn [fold_right].
    apply append_nil_r. }
  apply Nat.leb_gt in Hl.
  destruct (Expr.matchAt Expr.regExp s q) as [e|] eqn:Hm; [|apply IH; lia].
  destruct (matchAt_sound _ _ _ _ Hq Hm) as [[-> ->]|(t & Ht & -> & Hs & He)].
  - assert (p = 0)%nat as -> by lia. cbn [Nat.eqb]. apply IH; lia.
  - destruct (lit_opTexts t Ht) as [Hin Hpos].
    destruct (Nat.eqb_spec (q + String.length t) p) as [|_]; [lia|].
    destruct (IH (q + String.length t)%nat (q + String.length t)%nat)
      as [A C]; try lia.
    split.
    + constructor; [|done].
      replace (q + String.length t - q)%nat with (String.length t) by lia.
      by rewrite Hs.
    + unfold concatAll in *. cbn [fold_right]. rewrite C.
      replace (q + String.length t - q)%nat with (String.length t) by lia.
      rewrite (sub_app s q) by lia.
      replace q with (p + (q - p))%nat at 2 by lia.
      rewrite (sub_app s p) by lia. f_equal. lia.
Qed.

(** X3 (parseExpression).  The split of a non-empty expression loses
    no character: the pieces are values and operator texts in turn,
    beginning and ending with a value (which may be empty), and their
    concatenation is the expression. *)
Theorem split_keeps_every_character (s : string) (Hne : s <> "") :
  alternating (Expr.split s) /\ concatAll (Expr.split s) = s.
Proof.
  unfold Expr.split. destruct (String.length s =? 0)%nat eqn:E.
  { apply Nat.eqb_eq in E. by destruct s. }
  destruct (splitLoop_spec s (S (String.length s)) 0 0) as [A C]; try lia.
  split; [done|]. by rewrite C, Nat.sub_0_r, substring_all.
Qed.

(** ** Register values *)

Lemma and_ff x : JS.and x 0xff = JS.toInt32 x mod 256.
Proof.
  unfold JS.and. change (JS.toInt32 255) with (Z.ones 8).
  by rewrite Z.land_ones.
Qed.

Lemma and_ffff x : JS.and x 0xffff = JS.toInt32 x mod 65536.
Proof.
  unfold JS.and. change (JS.toInt32 65535) with (Z.ones 16).
  by rewrite Z.land_ones.
Qed.

Lemma shr_8 x : JS.toInt32 (JS.shr x 8) = JS.toInt32 x / 256.
Proof.
  unfold JS.shr. change (JS.toUint32 8 mod 32) with 8.
  rewrite Z.shiftr_div_pow2 by lia.
  pose proof (toInt32_int32 x) as H. unfold int32 in H.
  apply toInt32_small. change (2 ^ 8) with 256.
  Z.div_mod_to_equations. lia.
Qed.

(** X4 (getRegValue).  The 8-bit registers read as values below 2^8
    and the 16-bit registers (the instruction pointer included) as
    values below 2^16; AX, CX, DX and BX are made of their two halves,
    high byte times 256 plus low byte.  On a CPU older than the 80386
    the 32-bit registers, the control registers CR1 to CR3, FS and GS
    have no value. *)
Theorem register_views (def : Defines) (c : X86CPU) :
  Forall (fun i => exists v, Expr.getRegValue def c i = Some v /\ 0 <= v < 2 ^ 8)
    byteRegs /\
  Forall (fun i => exists v, Expr.getRegValue def c i = Some v /\ 0 <= v < 2 ^ 16)
    wordRegs /\
  Forall (fun k =>
            exists lo hi x,
              Expr.getRegValue def c (Expr.REG_AL + k) = Some lo /\
              Expr.getRegValue def c (Expr.REG_AH + k) = Some hi /\
              Expr.getRegValue def c (Expr.REG_AX + k) = Some x /\
              x = hi * 256 + lo) [0; 1; 2; 3] /\
  (cpu_model c < MODEL_80386 def ->
   Forall (fun i => Expr.getRegValue def c i = None) longRegs).
Proof.
  split_and!.
  - repeat constructor; eexists; (split; [reflexivity|]);
      rewrite and_ff; apply Z.mod_pos_bound; lia.
  - repeat constructor; eexists; (split; [reflexivity|]);
      rewrite and_ffff; apply Z.mod_pos_bound; lia.
  - repeat constructor; eexists _, _, _; (split_and!; [reflexivity..|]);
      rewrite !and_ff, and_ffff, shr_8; Z.div_mod_to_equations; lia.
  - intros Hm.
    assert (E : (I386 def && (MODEL_80386 def <=? cpu_model c))%bool = false).
    { destruct (Z.leb_spec (MODEL_80386 def) (cpu_model c)); [lia|].
      apply andb_false_r. }
    repeat constructor; unfold Expr.getRegValue;
      cbn -[Z.leb Z.eqb]; rewrite E;
      destruct (cpu_model c =? MODEL_80286 def); reflexivity.
Qed.

Lemma allSZ_app a b : allSZ (a ++ b) = (allSZ a && allSZ b)%bool.
Proof.
  induction a as [|x a IH]; [done|]. rewrite append_cons. cbn [allSZ].
  by rewrite IH, andb_assoc.
Qed.

(** ** Reading memory *)

Section AddrMore.

Context (def : Defines) (ext : Collaborators).

Lemma getSegment_null s ty d d' :
  Addr.getSegment def ext s ty d = (None, d') -> d' = d.
Proof.
  unfold Addr.getSegment.
  repeat match goal with
  | |- context [if ?b then _ else _] => destruct b
  end; intros H; inversion H; done.
Qed.

(** X5 (getAddr).  A resolution is cached in the address object: once
    [getAddr] has been called, a further call -- for whatever access kind
    and size -- returns the same linear address and changes nothing. *)
Theorem getAddr_caches (a : DbgAddr) (fWrite fWrite' : bool) (nb nb' : Z)
    (d : Debugger) :
  let '(lin, a', d') := Addr.getAddr def ext a fWrite nb d in
  Addr.getAddr def ext a' fWrite' nb' d' = (lin, a', d').
Proof.
  unfold Addr.getAddr at 1. destruct (addr a) as [lin|] eqn:Ea.
  - unfold Addr.getAddr. by rewrite Ea.
  - destruct (Addr.getSegment def ext (sel a) (type a) d) as [[seg|] d'] eqn:Es.
    + reflexivity.
    + pose proof (getSegment_null _ _ _ _ Es) as ->.
      unfold Addr.getAddr. by rewrite Ea, Es.
Qed.

Lemma fromCharCode_SZ b :
  32 <= b < 127 -> b <> 36 -> isSZChar (Mem.fromCharCode b) = true.
Proof.
  intros Hb H36. unfold isSZChar, Mem.fromCharCode.
  rewrite nat_ascii_embedding by lia.
  repeat (apply andb_true_intro; split).
  - apply Nat.leb_le. lia.
  - apply Nat.leb_le. lia.
  - apply negb_true_iff, Nat.eqb_neq. lia.
Qed.

Lemma szLoop_bounds cnt : forall s oa d,
  allSZ s = true ->
  let r := Mem.szLoop def ext cnt s oa d in
  allSZ r.1.1 = true /\
  (String.length r.1.1 <= String.length s + cnt)%nat.
Proof.
  induction cnt as [|cnt IH]; intros s oa d Hs; cbn [Mem.szLoop].
  - cbn. split; [done | lia].
  - destruct (Addr.getByte def ext oa 1 d) as [[b oa1] d1].
    destruct (Z.eqb_spec b 0); [cbn; split; [done|lia]|].
    destruct (Z.eqb_spec b 0x24); [cbn; split; [done|lia]|].
    destruct (Z.leb_spec 127 b); [cbn; split; [done|lia]|].
    cbn [orb].
    set (ch := if 32 <=? b then _ else _).
    assert (Hch : isSZChar ch = true).
    { subst ch. destruct (Z.leb_spec 32 b); [|done].
      apply fromCharCode_SZ; lia. }
    destruct (IH (s ++ String ch "") oa1 d1) as [A L].
    { rewrite allSZ_app, Hs. cbn. by rewrite Hch. }
    split; [done|]. rewrite length_append in L. cbn in L. lia.
Qed.

(** X6 (getSZ).  The string [getSZ] returns is never longer than [cchMax]
    (256 when omitted) and holds only printable ASCII characters other
    than [$]; at an address that does not resolve it is empty, and the
    address is not advanced. *)
Theorem getSZ_bounds (oa : option DbgAddr) (cchMax : Z) (d : Debugger) :
  let r := Mem.getSZ def ext oa cchMax d in
  (Z.of_nat (String.length r.1.1) <= Z.max 0 (if cchMax =? 0 then 256 else cchMax)) /\
  allSZ r.1.1 = true /\
  (fst (fst (Addr.getAddrOpt def ext oa false 1 d)) = ADDR_INVALID def ->
   0 < (if cchMax =? 0 then 256 else cchMax) ->
   r = ("", snd (fst (Addr.getAddrOpt def ext oa false 1 d)),
        snd (Addr.getAddrOpt def ext oa false 1 d))).
Proof.
  intros r. subst r. unfold Mem.getSZ.
  set (n := if cchMax =? 0 then 256 else cchMax).
  destruct (szLoop_bounds (Z.to_nat n) "" oa d eq_refl) as [A L].
  split_and!; [cbn in L; lia | done |].
  intros Hinv Hn. destruct (Z.to_nat n) as [|k] eqn:Ek; [lia|].
  cbn [Mem.szLoop].
  unfold Addr.getByte.
  destruct (Addr.getAddrOpt def ext oa false 1 d) as [[lin oa1] d1].
  cbn [fst snd] in *. subst lin. by rewrite Z.eqb_refl.
Qed.

Lemma getByte_linear a lin inc d :
  sel a = None -> addr a = Some lin -> lin <> ADDR_INVALID def -> inc <> 0 ->
  Addr.getByte def ext (Some a) inc d =
  (JS.toInt32 (Addr.probe d lin), Some (setLinear (Some (lin + inc)) a), d).
Proof.
  intros Hs Ha Hl Hi. unfold Addr.getByte, Addr.getAddrOpt, Addr.getAddr.
  rewrite Ha. destruct (Z.eqb_spec lin (ADDR_INVALID def)); [done|].
  destruct (Z.eqb_spec inc 0); [done|]. cbn [negb].
  unfold Addr.incAddrOpt, Addr.incAddr. rewrite Ha.
  destruct (Z.eqb_spec inc 0); [done|]. cbn [sel setLinear]. rewrite Hs.
  unfold JS.or. change (JS.toInt32 0) with 0. by rewrite Z.lor_0_r.
Qed.

Lemma allSZ_code c : isSZChar c = true ->
  32 <= Z.of_nat (nat_of_ascii c) < 127 /\ Z.of_nat (nat_of_ascii c) <> 36.
Proof.
  unfold isSZChar. rewrite !andb_true_iff, negb_true_iff.
  intros [[H1 H2] H3]. apply Nat.leb_le in H1, H2. apply Nat.eqb_neq in H3. lia.
Qed.

Lemma szLoop_reads s : forall cnt acc a lin d,
  sel a = None -> addr a = Some lin -> allSZ s = true ->
  (String.length s < cnt)%nat ->
  (forall i, 0 <= i <= Z.of_nat (String.length s) ->
     lin + i <> ADDR_INVALID def) ->
  (forall i c, codes s !! i = Some c ->
     probeAddr (cpu d) (lin + Z.of_nat i) = Some c) ->
  probeAddr (cpu d) (lin + Z.of_nat (String.length s)) = Some 0 ->
  Mem.szLoop def ext cnt acc (Some a) d =
  (acc ++ s,
   Some (setLinear (Some (lin + Z.of_nat (String.length s) + 1)) a), d).
Proof.
  induction s as [|c s IH]; intros cnt acc a lin d Hs Ha Hall Hc Hinv Hmem H0.
  - destruct cnt as [|cnt]; [cbn in Hc; lia|]. cbn [Mem.szLoop].
    assert (Hl : lin <> ADDR_INVALID def).
    { replace lin with (lin + 0) by lia. apply Hinv. cbn. lia. }
    rewrite (getByte_linear a lin 1 d Hs Ha) by done.
    cbn [String.length] in *. unfold Addr.probe.
    replace (lin + Z.of_nat 0) with lin in H0 by lia. rewrite H0.
    change (JS.toInt32 0) with 0. cbn [Z.eqb orb].
    rewrite append_nil_r.
    by replace (lin + Z.of_nat 0 + 1) with (lin + 1) by lia.
  - destruct cnt as [|cnt]; [cbn in Hc; lia|]. cbn [Mem.szLoop].
    assert (Hl : lin <> ADDR_INVALID def).
    { replace lin with (lin + 0) by lia. apply Hinv. cbn [String.length]. lia. }
    rewrite (getByte_linear a lin 1 d Hs Ha) by done.
    cbn [allSZ] in Hall. apply andb_true_iff in Hall as [Hch Hall].
    destruct (allSZ_code c Hch) as [Hr H36].
    pose proof (Hmem 0%nat _ eq_refl) as Hp.
    replace (lin + Z.of_nat 0) with lin in Hp by lia.
    unfold Addr.probe. rewrite Hp.
    rewrite toInt32_small by lia.
    destruct (Z.eqb_spec (Z.of_nat (nat_of_ascii c)) 0); [lia|].
    destruct (Z.eqb_spec (Z.of_nat (nat_of_ascii c)) 0x24); [lia|].
    destruct (Z.leb_spec 127 (Z.of_nat (nat_of_ascii c))); [lia|].
    destruct (Z.leb_spec 32 (Z.of_nat (nat_of_ascii c))); [|lia].
    cbn [orb]. unfold Mem.fromCharCode. rewrite Nat2Z.id, ascii_nat_embedding.
    rewrite (IH cnt _ (setLinear (Some (lin + 1)) a) (lin + 1) d); try done.
    + rewrite append_assoc, append_cons. cbn [String.length].
      replace (lin + 1 + Z.of_nat (String.length s) + 1)
        with (lin + Z.of_nat (S (String.length s)) + 1) by lia.
      reflexivity.
    + cbn [String.length] in Hc. lia.
    + intros i Hi. replace (lin + 1 + i) with (lin + (i + 1)) by lia.
      apply Hinv. cbn [String.length]. lia.
    + intros i x Hx. replace (lin + 1 + Z.of_nat i) with (lin + Z.of_nat (S i)) by lia.
      by apply Hmem.
    + replace (lin + 1 + Z.of_nat (String.length s)) with (lin + Z.of_nat (S (String.length s))) by lia.
      exact H0.
Qed.

(** X7 (getSZ).  Reading a string: when the bytes at a linear address are
    the characters of [s] (printable, no [$]) followed by a zero byte, and
    [s] is shorter than [cchMax], [getSZ] returns [s] and leaves the
    address just past the terminating zero. *)
Theorem getSZ_reads_string (a : DbgAddr) (lin : Z) (s : string) (cchMax : Z)
    (d : Debugger)
    (Hsel : sel a = None) (Haddr : addr a = Some lin)
    (Hall : allSZ s = true)
    (Hlen : Z.of_nat (String.length s) < (if cchMax =? 0 then 256 else cchMax))
    (Hinv : forall i, 0 <= i <= Z.of_nat (String.length s) ->
              lin + i <> ADDR_INVALID def)
    (Hmem : forall i c, codes s !! i = Some c ->
              probeAddr (cpu d) (lin + Z.of_nat i) = Some c)
    (Hzero : probeAddr (cpu d) (lin + Z.of_nat (String.length s)) = Some 0) :
  Mem.getSZ def ext (Some a) cchMax d =
  (s, Some (setLinear (Some (lin + Z.of_nat (String.length s) + 1)) a), d).
Proof.
  unfold Mem.getSZ.
  rewrite (szLoop_reads s _ "" a lin d); try done. lia.
Qed.

Lemma toInt32_idem x : JS.toInt32 (JS.toInt32 x) = JS.toInt32 x.
Proof.
  apply toInt32_small.
  unfold JS.toInt32.
  pose proof (Z.mod_pos_bound (x + 2 ^ 31) (2 ^ 32) ltac:(lia)). lia.
Qed.

Lemma lor_byte_shift lo hi :
  0 <= lo < 256 -> 0 <= hi -> Z.lor lo (Z.shiftl hi 8) = lo + 256 * hi.
Proof.
  intros Hlo Hhi. rewrite Z.shiftl_mul_pow2 by lia.
  replace (lo + 256 * hi) with (lo + hi * 2 ^ 8) by lia.
  symmetry. apply Z.add_nocarry_lor.
  apply Z.bits_inj'. intros n Hn. rewrite Z.land_spec, Z.bits_0.
  destruct (Z.ltb_spec n 8).
  - rewrite (Z.mul_pow2_bits_low hi 8 n) by lia. apply andb_false_r.
  - destruct (Z.eqb_spec lo 0) as [->|]; [by rewrite Z.bits_0|].
    rewrite (Z.bits_above_log2 lo n); [done | lia |].
    assert (Z.log2 lo < 8) by (apply Z.log2_lt_pow2; lia). lia.
Qed.

Lemma getShort_linear a lin inc d :
  sel a = None -> addr a = Some lin -> lin <> ADDR_INVALID def -> inc <> 0 ->
  Addr.getShort def ext (Some a) inc d =
  (JS.or (Addr.probe d lin) (JS.shl (Addr.probe d (lin + 1)) 8),
   Some (setLinear (Some (lin + inc)) a), d).
Proof.
  intros Hs Ha Hl Hi. unfold Addr.getShort, Addr.getAddrOpt, Addr.getAddr.
  rewrite Ha. destruct (Z.eqb_spec lin (ADDR_INVALID def)); [done|].
  destruct (Z.eqb_spec inc 0); [done|]. cbn [negb].
  unfold Addr.incAddrOpt, Addr.incAddr. rewrite Ha.
  destruct (Z.eqb_spec inc 0); [done|]. cbn [sel setLinear]. by rewrite Hs.
Qed.

(** X8 (getShort, getByte).  At a linear address, the 16-bit accessor
    reads what two byte reads deliver, low byte first, and advances the
    address as they do; when the two memory bytes are in 0..255, the
    value is [lo + 256 * hi]. *)
Theorem getShort_little_endian (a : DbgAddr) (lin : Z) (d : Debugger)
    (Hsel : sel a = None) (Haddr : addr a = Some lin)
    (Hl0 : lin <> ADDR_INVALID def) (Hl1 : lin + 1 <> ADDR_INVALID def) :
  let '(lo, a1, d1) := Addr.getByte def ext (Some a) 1 d in
  let '(hi, a2, d2) := Addr.getByte def ext a1 1 d1 in
  Addr.getShort def ext (Some a) 2 d = (JS.or lo (JS.shl hi 8), a2, d2) /\
  (0 <= Addr.probe d lin < 256 -> 0 <= Addr.probe d (lin + 1) < 256 ->
   fst (fst (Addr.getShort def ext (Some a) 2 d)) = lo + 256 * hi /\
   0 <= lo + 256 * hi < 65536).
Proof.
  rewrite (getByte_linear a lin 1 d Hsel Haddr Hl0) by done.
  rewrite (getByte_linear (setLinear (Some (lin + 1)) a) (lin + 1) 1 d)
    by done.
  rewrite (getShort_linear a lin 2 d Hsel Haddr Hl0) by done.
  split.
  - unfold JS.or, JS.shl. rewrite !toInt32_idem.
    replace (lin + 1 + 1) with (lin + 2) by lia. reflexivity.
  - intros H0 H1. cbn [fst].
    unfold JS.or, JS.shl. change (JS.toUint32 8 mod 32) with 8.
    rewrite !toInt32_idem.
    rewrite (toInt32_small (Addr.probe d lin)) by lia.
    rewrite (toInt32_small (Addr.probe d (lin + 1))) by lia.
    assert (E : Z.shiftl (Addr.probe d (lin + 1)) 8 = 256 * Addr.probe d (lin + 1)).
    { rewrite Z.shiftl_mul_pow2 by lia. lia. }
    rewrite (toInt32_small (Z.shiftl _ 8)) by (rewrite E; lia).
    rewrite lor_byte_shift by lia. lia.
Qed.

End AddrMore.

(** ** Trace buffer and instruction history *)

Section HistMore.

Context (def : Defines) (ext : Collaborators).

Lemma trace_limit_big : (1 < TRACE_LIMIT)%nat.
Proof. unfold TRACE_LIMIT. lia. Qed.

Lemma traceLog_other prop s d :
  cpu (Hist.traceLog def prop s d) = cpu d /\
  breaks (Hist.traceLog def prop s d) = breaks d /\
  history (Hist.traceLog def prop s d) = history d.
Proof.
  unfold Hist.traceLog. destruct (DEBUG def); [|done].
  destruct (traceEnabled (trace d)) as [flags|]; [|done].
  by destruct (Hist.traceFlag flags prop).
Qed.

Lemma traceLog_ok prop s d :
  Expr.inherited prop = false ->
  traceOk (trace d) -> traceOk (trace (Hist.traceLog def prop s d)) /\
  ((exists flags, traceEnabled (trace d) = Some flags) ->
   iTraceBuffer (trace d) = TRACE_LIMIT -> Hist.traceLog def prop s d = d).
Proof.
  pose proof trace_limit_big as Hbig.
  intros Hn Hok. unfold Hist.traceLog, Hist.traceFlag, traceOk in *.
  destruct (DEBUG def); [|split; [done|by intros]].
  destruct (traceEnabled (trace d)) as [flags|] eqn:Ef;
    [|split; [by rewrite Ef | by intros]].
  rewrite Hn.
  destruct (flags !! prop) as [[|]|] eqn:Ep;
    [|split; [rewrite Ef; exact Hok | by intros]..].
  destruct Hok as [[Hb Hi]|[Hl [Hi|[Hi Hall]]]].
  - rewrite Hb, Hi. cbn [length Nat.eqb].
    unfold arraySet. rewrite repeat_length.
    destruct (Nat.ltb_spec 0 TRACE_LIMIT); [|lia].
    rewrite length_insert, repeat_length.
    destruct (Nat.leb_spec TRACE_LIMIT 1); [lia|].
    cbn [trace setTrace traceEnabled aTraceBuffer iTraceBuffer].
    split; [|intros _ E; lia].
    right. rewrite length_insert, repeat_length. split; [done|]. left. lia.
  - rewrite Hl. destruct (Nat.eqb_spec TRACE_LIMIT 0); [lia|].
    unfold arraySet. rewrite Hl.
    destruct (Nat.ltb_spec (iTraceBuffer (trace d)) TRACE_LIMIT); [|lia].
    rewrite length_insert, Hl.
    cbn [trace setTrace traceEnabled aTraceBuffer iTraceBuffer].
    split; [|intros _ E; lia].
    right. rewrite length_insert. split; [done|].
    destruct (Nat.leb_spec TRACE_LIMIT (S (iTraceBuffer (trace d)))).
    + right. split; [lia|]. intros p. rewrite lookup_fmap.
      by destruct (flags !! p).
    + left. lia.
  - by destruct (Hall prop).
Qed.

(** X9 (traceLog).  Over any sequence of [traceLog] calls for property
    names other than those of [Object.prototype] (the callers pass names
    of [Debugger.TRACE]), the trace buffer is never written past
    [TRACE_LIMIT] entries: the buffer has no more than [TRACE_LIMIT]
    entries and the cursor does not pass the limit; once the cursor is
    at the limit, every further call leaves the debugger as it is.
    [traceInit] gives a state to start from.  The restriction on the
    names is needed: for a name of [Object.prototype] that is no flag,
    [this.traceEnabled[prop]] is the inherited member, the call logs, and
    at a full buffer it moves the cursor past the limit. *)
Theorem traceLog_never_overflows (calls : list (string * string))
    (d : Debugger) (Hok : traceOk (trace d))
    (Hnames : Forall (fun c => Expr.inherited c.1 = false) calls) :
  let d' := traceAll def calls d in
  traceOk (trace d') /\
  (traceEnabled (trace d) <> None ->
   (length (aTraceBuffer (trace d')) <= TRACE_LIMIT)%nat /\
   (iTraceBuffer (trace d') <= TRACE_LIMIT)%nat /\
   (iTraceBuffer (trace d) = TRACE_LIMIT -> d' = d)) /\
  traceOk (trace (Hist.traceInit def d)) /\
  (forall prop s flags,
     DEBUG def = true -> traceEnabled (trace d) = Some flags ->
     flags !! prop = None -> Expr.inherited prop = true ->
     length (aTraceBuffer (trace d)) = TRACE_LIMIT ->
     iTraceBuffer (trace d) = TRACE_LIMIT ->
     iTraceBuffer (trace (Hist.traceLog def prop s d)) = S TRACE_LIMIT /\
     length (aTraceBuffer (trace (Hist.traceLog def prop s d))) = S TRACE_LIMIT).
Proof.
  pose proof trace_limit_big as Hbig.
  split_and!.
  - revert d Hok. induction Hnames as [|c calls Hc Hcs IH]; intros d Hok; [done|].
    cbn [traceAll fold_left]. apply IH. by apply traceLog_ok.
  - revert d Hok. induction Hnames as [|c calls Hc Hcs IH]; intros d Hok He.
    + cbn [traceAll fold_left]. unfold traceOk in Hok.
      destruct (traceEnabled (trace d)); [|done].
      destruct Hok as [[-> ->]|[-> [?|[-> _]]]]; cbn [length]; split_and!; lia || done.
    + cbn [traceAll fold_left].
      destruct (traceLog_ok c.1 c.2 d Hc Hok) as [Hok' Hfull].
      assert (He' : traceEnabled (trace (Hist.traceLog def c.1 c.2 d)) <> None).
      { unfold Hist.traceLog. destruct (DEBUG def); [|done].
        destruct (traceEnabled (trace d)) as [flags|] eqn:Ef; [|done].
        destruct (Hist.traceFlag flags c.1); [done | by rewrite Ef]. }
      destruct (IH _ Hok' He') as (A & B & C). split_and!; [done..|].
      intros Hi.
      assert (E : Hist.traceLog def c.1 c.2 d = d).
      { apply Hfull; [|done]. destruct (traceEnabled (trace d)); [eauto|done]. }
      rewrite E in C. rewrite E. by apply C.
  - unfold Hist.traceInit, traceOk. destruct (DEBUG def); cbn.
    + by left.
    + unfold traceOk in Hok. destruct (traceEnabled (trace d)); [|done].
      exact Hok.
  - intros prop s flags Hd Hf Hp Hin Hl Hi.
    unfold Hist.traceLog, Hist.traceFlag. rewrite Hd, Hf, Hp, Hin, Hl, Hi.
    destruct (Nat.eqb_spec TRACE_LIMIT 0) as [E|_]; [lia|].
    unfold arraySet. rewrite Hl.
    destruct (Nat.ltb_spec TRACE_LIMIT TRACE_LIMIT); [lia|].
    cbn [trace setTrace iTraceBuffer aTraceBuffer].
    split; [done|].
    rewrite length_app, Hl, Nat.sub_diag. cbn. lia.
Qed.

Lemma history_limit_pos : (0 < HISTORY_LIMIT def)%nat.
Proof. unfold HISTORY_LIMIT. destruct (DEBUG def); lia. Qed.

Lemma checksEnabled_setHistory f h d :
  Hist.checksEnabled def ext f (setHistory h d) = Hist.checksEnabled def ext f d.
Proof. reflexivity. Qed.

(** X10 (historyInit).  [historyInit] allocates the two history arrays
    exactly when instruction checks are enabled and frees them otherwise;
    arrays that exist are kept, with the cursor where it was; calling it
    a second time changes nothing. *)
Theorem historyInit_idempotent (d : Debugger) :
  let d' := Hist.historyInit def ext d in
  Hist.historyInit def ext d' = d' /\
  (Hist.checksEnabled def ext false d = false ->
   aOpcodeHistory (history d') = [] /\ aaOpcodeCounts (history d') = [] /\
   iOpcodeHistory (history d') = 0%nat) /\
  (Hist.checksEnabled def ext false d = true ->
   aOpcodeHistory (history d') <> [] /\
   length (aaOpcodeCounts (history d')) =
     (if (length (aaOpcodeCounts (history d)) =? 0)%nat then 256%nat
      else length (aaOpcodeCounts (history d))) /\
   (aOpcodeHistory (history d) = [] ->
    length (aOpcodeHistory (history d')) = HISTORY_LIMIT def /\
    iOpcodeHistory (history d') = 0%nat) /\
   (aOpcodeHistory (history d) <> [] ->
    aOpcodeHistory (history d') = aOpcodeHistory (history d) /\
    iOpcodeHistory (history d') = iOpcodeHistory (history d))) /\
  breaks d' = breaks d /\ cpu d' = cpu d /\ trace d' = trace d /\
  cOpcodes (history d') = cOpcodes (history d).
Proof.
  pose proof history_limit_pos as Hpos.
  intros d'. subst d'. unfold Hist.historyInit.
  destruct (Hist.checksEnabled def ext false d) eqn:Hc; cbn [negb].
  - set (h1 := if (length (aOpcodeHistory (history d)) =? 0)%nat then _ else _).
    set (h2 := if (length (aaOpcodeCounts h1) =? 0)%nat then _ else _).
    assert (A1 : aOpcodeHistory h2 = aOpcodeHistory h1)
      by (subst h2; by destruct (length (aaOpcodeCounts h1) =? 0)%nat).
    assert (I1 : iOpcodeHistory h2 = iOpcodeHistory h1)
      by (subst h2; by destruct (length (aaOpcodeCounts h1) =? 0)%nat).
    assert (C1 : aaOpcodeCounts h1 = aaOpcodeCounts (history d))
      by (subst h1; by destruct (length (aOpcodeHistory (history d)) =? 0)%nat).
    assert (O1 : cOpcodes h2 = cOpcodes (history d)).
    { subst h2. destruct (length (aaOpcodeCounts h1) =? 0)%nat; cbn [cOpcodes];
        subst h1; by destruct (length (aOpcodeHistory (history d)) =? 0)%nat. }
    assert (N1 : length (aOpcodeHistory h1) <> 0%nat).
    { subst h1. destruct (Nat.eqb_spec (length (aOpcodeHistory (history d))) 0);
        [cbn [aOpcodeHistory]; rewrite repeat_length; lia | done]. }
    assert (N2 : length (aaOpcodeCounts h2) =
                 if (length (aaOpcodeCounts (history d)) =? 0)%nat then 256%nat
                 else length (aaOpcodeCounts (history d))).
    { subst h2. rewrite C1.
      destruct (Nat.eqb_spec (length (aaOpcodeCounts (history d))) 0);
        [cbn [aaOpcodeCounts]; by rewrite length_map, length_seq | by rewrite C1]. }
    split_and!; try done.
    + rewrite checksEnabled_setHistory, Hc. cbn [negb history setHistory].
      apply Nat.eqb_neq in N1. rewrite A1, N1.
      assert (N3 : length (aaOpcodeCounts h2) <> 0%nat).
      { rewrite N2. by destruct (Nat.eqb_spec (length (aaOpcodeCounts (history d))) 0). }
      apply Nat.eqb_neq in N3. rewrite N3. by destruct d.
    + intros _. cbn [history setHistory]. split_and!.
      * rewrite A1. by destruct (aOpcodeHistory h1).
      * exact N2.
      * intros E. rewrite A1, I1. subst h1. rewrite E. cbn [length Nat.eqb aOpcodeHistory iOpcodeHistory].
        by rewrite repeat_length.
      * intros E. rewrite A1, I1. subst h1.
        destruct (Nat.eqb_spec (length (aOpcodeHistory (history d))) 0) as [E0|]; [|done].
        by destruct (aOpcodeHistory (history d)).
  - split_and!; try done.
    rewrite checksEnabled_setHistory, Hc. cbn [negb history setHistory cOpcodes].
    by destruct d.
Qed.

Lemma countTotal_bump (l : list (Z * Z)) : forall k i n,
  l !! k = Some (i, n) ->
  fold_right (fun p acc => p.2 + acc) 0 (<[k := (i, n + 1)]> l)
  = fold_right (fun p acc => p.2 + acc) 0 l + 1.
Proof.
  induction l as [|x l IH]; intros k i n H; [done|].
  destruct k as [|k].
  - cbn in H. inversion H; subst. cbn. lia.
  - change (l !! k = Some (i, n)) in H.
    change (x.2 + fold_right (fun p acc => p.2 + acc) 0 (<[k := (i, n + 1)]> l)
            = x.2 + fold_right (fun p acc => p.2 + acc) 0 l + 1).
    rewrite (IH k i n H). lia.
Qed.

(** X11 (checkInstruction).  Recording an instruction keeps the history
    ring in shape: the ring and the table of opcode counts keep their
    sizes, a cursor inside the ring stays inside, and breakpoints, CPU
    and trace state are not touched.  A step ([nState < 0]) records
    nothing; otherwise, once the arrays exist, [cOpcodes] grows by one,
    and so does the total of the opcode counts when the opcode byte read
    is one the table has an entry for. *)
Theorem recordInstruction_keeps_ring (lin nState : Z) (d : Debugger) :
  let d' := Hist.recordInstruction def lin nState d in
  length (aOpcodeHistory (history d')) = length (aOpcodeHistory (history d)) /\
  length (aaOpcodeCounts (history d')) = length (aaOpcodeCounts (history d)) /\
  ((iOpcodeHistory (history d) < length (aOpcodeHistory (history d)))%nat ->
   (iOpcodeHistory (history d') < length (aOpcodeHistory (history d')))%nat) /\
  breaks d' = breaks d /\ cpu d' = cpu d /\ trace d' = trace d /\
  (nState < 0 -> d' = d) /\
  (0 <= nState -> aaOpcodeCounts (history d) <> [] ->
   cOpcodes (history d') = cOpcodes (history d) + 1 /\
   forall b, probeAddr (cpu d) lin = Some b ->
     (0 <= b < Z.of_nat (length (aaOpcodeCounts (history d)))) ->
     countTotal (history d') = countTotal (history d) + 1).
Proof.
  intros d'. subst d'. unfold Hist.recordInstruction.
  destruct (Z.leb_spec 0 nState); cbn [andb];
    [|split_and!; try done; intros; lia].
  destruct (Nat.eqb_spec (length (aaOpcodeCounts (history d))) 0) as [E|E];
    cbn [negb].
  { split_and!; try done.
    intros _ Hne. by destruct (aaOpcodeCounts (history d)). }
  destruct (probeAddr (cpu d) lin) as [b|] eqn:Hp;
    cbn [history setHistory aOpcodeHistory aaOpcodeCounts iOpcodeHistory cOpcodes].
  - split_and!; try done.
    + destruct (aOpcodeHistory (history d) !! _); [apply length_insert | done].
    + destruct (aaOpcodeCounts (history d) !! _) as [[i n]|];
        [apply length_insert | done].
    + intros Hi.
      assert (L : length (match aOpcodeHistory (history d) !! iOpcodeHistory (history d) with
                          | Some a => <[iOpcodeHistory (history d) :=
                                Addr.setAddr def a (getIP (cpu d)) (Some (getCS (cpu d)))
                                  None 0 None None d]> (aOpcodeHistory (history d))
                          | None => aOpcodeHistory (history d) end)
                  = length (aOpcodeHistory (history d))).
      { destruct (aOpcodeHistory (history d) !! _); [apply length_insert | done]. }
      rewrite L.
      destruct (Nat.eqb_spec (iOpcodeHistory (history d) + 1)
                  (length (aOpcodeHistory (history d)))); lia.
    + intros; lia.
    + intros _ _. split; [done|]. intros b' Hb' Hr. inversion Hb'; subst b'.
      unfold countTotal. cbn [aaOpcodeCounts].
      destruct (lookup_lt_is_Some_2 (aaOpcodeCounts (history d)) (Z.to_nat b))
        as [[i n] Hin]; [lia|].
      rewrite Hin. by apply countTotal_bump.
  - split_and!; try done; intros; lia.
Qed.

End HistMore.

(** ** Checking breakpoints *)

Section BreakMore.

Context (def : Defines) (ext : Collaborators).
Context (doCommand : string -> bool -> Debugger -> bool * Debugger).

(** X12 (checkBreakpoint, getSegment).  While breakpoint checks are
    suppressed (a check is already under way), [checkBreakpoint] reports
    no hit and leaves the debugger as it is, whatever the lists hold; and
    [getSegment] then declines to load a protected-mode descriptor for a
    selector that is in no segment register. *)
Theorem suppressed_checks_do_nothing (fuel : nat) (lin : Z) (nb : nat)
    (k : BreakList) (fTemp : bool) (d : Debugger)
    (Hs : nSuppressBreaks d <> 0) :
  Break.checkBreakpoint def ext doCommand fuel lin nb k fTemp d = Some (false, d) /\
  (forall s,
     Addr.getCurrentType def d = ADDR_PROT ->
     Addr.selIs s (getCS (cpu d)) = false -> Addr.selIs s (getDS (cpu d)) = false ->
     Addr.selIs s (getES (cpu d)) = false -> Addr.selIs s (getSS (cpu d)) = false ->
     Addr.selIs s (getFS (cpu d)) = false -> Addr.selIs s (getGS (cpu d)) = false ->
     Addr.getSegment def ext s 0 d = (None, d)).
Proof.
  split.
  - unfold Break.checkBreakpoint.
    destruct (Z.eqb_spec (nSuppressBreaks d) 0); [done|].
    by rewrite setSuppress_undo.
  - intros s Ht H1 H2 H3 H4 H5 H6. unfold Addr.getSegment.
    rewrite Ht, H1, H2, H3, H4, H5, H6. cbn [Z.eqb ADDR_PROT Pos.eqb].
    rewrite !andb_false_r.
    destruct (Z.eqb_spec (nSuppressBreaks d) 0); [done|]. reflexivity.
Qed.

Lemma historyInit_setSuppress n d :
  Hist.historyInit def ext (setSuppress n d)
  = setSuppress n (Hist.historyInit def ext d).
Proof.
  unfold Hist.historyInit.
  change (Hist.checksEnabled def ext false (setSuppress n d))
    with (Hist.checksEnabled def ext false d).
  destruct (Hist.checksEnabled def ext false d); cbn [negb]; [|reflexivity].
  change (history (setSuppress n d)) with (history d).
  destruct (length (aOpcodeHistory (history d)) =? 0)%nat;
    cbn [aaOpcodeCounts];
    destruct (length (aaOpcodeCounts (history d)) =? 0)%nat; reflexivity.
Qed.

Lemma getAddr_linear b A d fW nb :
  addr b = Some A -> Addr.getAddr def ext b fW nb d = (A, b, d).
Proof. intros H. unfold Addr.getAddr. by rewrite H. Qed.

(** The removing search for a temporary linear entry [b] passes the
    entries [pre], none of which is a temporary entry at its address. *)
Lemma findLoop_skip a linA pre : forall done l d,
  Forall (fun x => exists A, addr x = Some A /\
            (fTempBreak x && (linA =? Break.mapBreakpoint def A d))%bool = false) pre ->
  linA <> ADDR_INVALID def ->
  Break.findLoop def ext Exec a linA true true done (pre ++ l)%list d =
  Break.findLoop def ext Exec a linA true true (done ++ pre)%list l d.
Proof.
  induction pre as [|x pre IH]; intros done l d Hp Hl.
  - by rewrite app_nil_r.
  - inversion Hp as [|? ? (A & HA & Hx) Hp']; subst.
    cbn [app Break.findLoop]. unfold Break.matchEntry.
    destruct (Z.eqb_spec linA (ADDR_INVALID def)); [done|]. cbn [negb].
    rewrite (getAddr_linear x A d _ _ HA).
    rewrite andb_comm, orb_false_l, Hx.
    rewrite IH; [|done..]. by rewrite <- app_assoc.
Qed.

Lemma entry_pass lin fTemp d0 i b fuel :
  getList Exec d0 !! i = Some b -> linearEntry def d0 b ->
  hitsAt def d0 lin fTemp b = false ->
  Break.entryLoop def ext doCommand (S fuel) Exec (Break.mapBreakpoint def lin d0)
    1 i false fTemp d0 =
  Break.entryLoop def ext doCommand fuel Exec (Break.mapBreakpoint def lin d0)
    1 (S i) false fTemp d0.
Proof.
  intros Hi (Hsel & Hcmd & A & HA & _) Hh. cbn [Break.entryLoop]. rewrite Hi.
  destruct (fTemp && negb (fTempBreak b))%bool eqn:Hskip; [done|].
  rewrite Hsel, (getAddr_linear b A d0 _ _ HA).
  rewrite (list_insert_id _ _ _ Hi), (setList_same Exec _ d0 eq_refl).
  cbn [Break.byteLoop]. rewrite Z.add_0_r.
  unfold hitsAt in Hh. rewrite HA in Hh.
  assert (E : (negb fTemp || fTempBreak b)%bool = true).
  { destruct fTemp, (fTempBreak b); done. }
  rewrite E in Hh. cbn [andb] in Hh. by rewrite Hh.
Qed.

Lemma entry_hit lin fTemp d0 pre b post fuel :
  getList Exec d0 = (pre ++ b :: post)%list ->
  Forall (linearEntry def d0) (pre ++ b :: post)%list ->
  Forall (fun x => hitsAt def d0 lin fTemp x = false) pre ->
  hitsAt def d0 lin fTemp b = true ->
  Break.entryLoop def ext doCommand (S fuel) Exec (Break.mapBreakpoint def lin d0)
    1 (length pre) false fTemp d0 =
  Some (true,
        if fTempBreak b
        then Hist.historyInit def ext (setList Exec (pre ++ post) d0)
        else d0).
Proof.
  intros HL Hlin Hpre Hh.
  assert (Hi : getList Exec d0 !! length pre = Some b).
  { rewrite HL. by rewrite list_lookup_middle. }
  pose proof Hlin as Hlin'. apply Forall_app in Hlin' as [Hlp Hlb].
  inversion Hlb as [|? ? (Hsel & Hcmd & A & HA & HAi & HAm) _]; subst.
  unfold hitsAt in Hh. rewrite HA in Hh.
  apply andb_true_iff in Hh as [He Hm]. apply Z.eqb_eq in Hm.
  cbn [Break.entryLoop]. rewrite Hi.
  assert (Hskip : (fTemp && negb (fTempBreak b))%bool = false).
  { destruct fTemp, (fTempBreak b); done. }
  rewrite Hskip, Hsel, (getAddr_linear b A d0 _ _ HA).
  rewrite (list_insert_id _ _ _ Hi), (setList_same Exec _ d0 eq_refl).
  cbn [Break.byteLoop]. rewrite Z.add_0_r, Hm, Z.eqb_refl.
  unfold Break.matchBody. rewrite Hcmd.
  destruct (fTempBreak b) eqn:Ht.
  - unfold Break.findBreakpoint. rewrite (getAddr_linear b A d0 _ _ HA), HL.
    rewrite (findLoop_skip b _ pre [] (b :: post) d0); [|..|done].
    + cbn [app Break.findLoop]. unfold Break.matchEntry.
      destruct (Z.eqb_spec (Break.mapBreakpoint def A d0) (ADDR_INVALID def));
        [done|]. cbn [negb].
      rewrite (getAddr_linear b A d0 _ _ HA), Z.eqb_refl, Ht. cbn.
      by destruct fuel.
    + apply Forall_forall. intros x Hx.
      rewrite Forall_forall in Hpre, Hlp.
      destruct (Hlp x Hx) as (_ & _ & Ax & HAx & _). exists Ax. split; [done|].
      specialize (Hpre x Hx). unfold hitsAt in Hpre. rewrite HAx, Hm in Hpre.
      destruct (fTempBreak x); [|done]. by rewrite orb_true_r in Hpre.
  - by destruct fuel.
Qed.

(** [checkBreakpoint] on an exec list of resolved linear breakpoints
    without commands. *)
Lemma checkBreakpoint_linear (fuel : nat) (lin : Z) (fTemp : bool)
    (d : Debugger)
    (Hs : nSuppressBreaks d = 0)
    (Hm : messageEnabled ext (bitsMessage d)
            (JS.or (Messages_INT def) (Messages_HALT def)) = false)
    (Hlin : Forall (linearEntry def d) (getList Exec d))
    (Hfuel : (length (getList Exec d) <= fuel)%nat) :
  (Forall (fun b => hitsAt def d lin fTemp b = false) (getList Exec d) ->
   Break.checkBreakpoint def ext doCommand fuel lin 1 Exec fTemp d
   = Some (false, d)) /\
  (forall pre b post,
     getList Exec d = (pre ++ b :: post)%list ->
     Forall (fun x => hitsAt def d lin fTemp x = false) pre ->
     hitsAt def d lin fTemp b = true ->
     Break.checkBreakpoint def ext doCommand fuel lin 1 Exec fTemp d
     = Some (true,
             if fTempBreak b
             then Hist.historyInit def ext (setList Exec (pre ++ post) d)
             else d)).
Proof.
  set (d0 := setSuppress (nSuppressBreaks d + 1) d).
  assert (Hlin0 : Forall (linearEntry def d0) (getList Exec d0)) by exact Hlin.
  assert (Hpass : forall mid pre rest f,
            getList Exec d0 = (pre ++ mid ++ rest)%list ->
            Forall (fun b => hitsAt def d0 lin fTemp b = false) mid ->
            Break.entryLoop def ext doCommand (length mid + f) Exec
              (Break.mapBreakpoint def lin d0) 1 (length pre) false fTemp d0
            = Break.entryLoop def ext doCommand f Exec
                (Break.mapBreakpoint def lin d0) 1 (length (pre ++ mid)) false
                fTemp d0).
  { induction mid as [|x mid IH]; intros pre rest f HL Hn.
    - by rewrite app_nil_r.
    - inversion Hn as [|? ? Hx Hn']; subst.
      cbn [length Nat.add]. rewrite entry_pass with (b := x); try done.
      + replace (pre ++ x :: mid)%list with ((pre ++ [x]) ++ mid)%list
          by (by rewrite <- app_assoc).
        replace (S (length pre)) with (length (pre ++ [x]))
          by (rewrite length_app; cbn; lia).
        apply (IH _ rest); [by rewrite <- !app_assoc | done].
      + rewrite HL. cbn [app]. by rewrite list_lookup_middle.
      + rewrite Forall_forall in Hlin0. apply Hlin0. rewrite HL.
        apply elem_of_app. right. by left. }
  split.
  - intros Hn. unfold Break.checkBreakpoint. rewrite Hs at 1. cbn [Z.eqb].
    fold d0. change (bitsMessage d0) with (bitsMessage d). rewrite Hm.
    cbn [andb].
    replace fuel with (length (getList Exec d0) + (fuel - length (getList Exec d0)))%nat
      by (change (getList Exec d0) with (getList Exec d); lia).
    rewrite (Hpass (getList Exec d0) [] [] _); [|by rewrite app_nil_r | done].
    cbn [app].
    assert (E : getList Exec d0 !! length (getList Exec d0) = None)
      by (by apply lookup_ge_None_2).
    destruct (fuel - _)%nat; cbn [Break.entryLoop]; rewrite E;
      subst d0; by rewrite setSuppress_undo.
  - intros pre b post HL Hn Hb.
    unfold Break.checkBreakpoint. rewrite Hs at 1. cbn [Z.eqb].
    fold d0. change (bitsMessage d0) with (bitsMessage d). rewrite Hm.
    cbn [andb].
    assert (Hf : (length pre < fuel)%nat).
    { rewrite HL, length_app in Hfuel. cbn in Hfuel. lia. }
    replace fuel with (length pre + S (fuel - length pre - 1))%nat by lia.
    rewrite (Hpass pre [] (b :: post) _); [|done..].
    cbn [app].
    rewrite (entry_hit lin fTemp d0 pre b post); [| |by rewrite <- HL|..]; try done.
    destruct (fTempBreak b).
    + subst d0.
      change (setList Exec (pre ++ post) (setSuppress (nSuppressBreaks d + 1) d))
        with (setSuppress (nSuppressBreaks d + 1) (setList Exec (pre ++ post) d)).
      rewrite historyInit_setSuppress.
      set (X := Hist.historyInit def ext (setList Exec (pre ++ post) d)).
      assert (HX : nSuppressBreaks X = 0).
      { subst X. destruct (historyInit_frame def ext (setList Exec (pre ++ post) d))
          as [(_ & E & _) _]. by rewrite E. }
      cbn [nSuppressBreaks setSuppress]. rewrite Hs.
      destruct X. cbn in HX. subst. reflexivity.
    + subst d0. by rewrite setSuppress_undo.
Qed.

(** X13 (checkBreakpoint, findBreakpoint).  On an exec list of resolved
    linear breakpoints without commands, [checkBreakpoint] is a search
    for the first entry at the (mapped) address executed -- among the
    temporary entries only, when [fTempBreak] is set.  Finding none, it
    reports no hit and changes nothing; finding a permanent entry, it
    reports a hit and changes nothing; finding a temporary entry, it
    reports a hit and removes that entry: a temporary breakpoint is hit
    once. *)
Theorem checkBreakpoint_linear_list (fuel : nat) (lin : Z) (fTemp : bool)
    (d : Debugger)
    (Hs : nSuppressBreaks d = 0)
    (Hm : messageEnabled ext (bitsMessage d)
            (JS.or (Messages_INT def) (Messages_HALT def)) = false)
    (Hlin : Forall (linearEntry def d) (getList Exec d))
    (Hfuel : (length (getList Exec d) <= fuel)%nat) :
  (Forall (fun b => hitsAt def d lin fTemp b = false) (getList Exec d) ->
   Break.checkBreakpoint def ext doCommand fuel lin 1 Exec fTemp d
   = Some (false, d)) /\
  (forall pre b post,
     getList Exec d = (pre ++ b :: post)%list ->
     Forall (fun x => hitsAt def d lin fTemp x = false) pre ->
     hitsAt def d lin fTemp b = true ->
     Break.checkBreakpoint def ext doCommand fuel lin 1 Exec fTemp d
     = Some (true,
             if fTempBreak b
             then Hist.historyInit def ext (setList Exec (pre ++ post) d)
             else d)).
Proof. exact (checkBreakpoint_linear fuel lin fTemp d Hs Hm Hlin Hfuel). Qed.

Lemma historyInit_cases d :
  exists h, Hist.historyInit def ext d = setHistory h d.
Proof. unfold Hist.historyInit. destruct (negb _); by eexists. Qed.

Lemma hitsAt_temp d lin fTemp b :
  hitsAt def d lin false b = false -> hitsAt def d lin fTemp b = false.
Proof.
  unfold hitsAt. cbn [negb orb andb]. intros ->. apply andb_false_r.
Qed.

(** X14 (setTempBreakpoint, checkBreakpoint).  A temporary breakpoint is
    hit once: set with [setTempBreakpoint] at a linear address where the
    exec list (of resolved linear breakpoints without commands) has no
    breakpoint, it is appended to the list, selector zapped and marked
    temporary; the check of the instruction at that address then reports
    a hit and takes it out of the list again, leaving the debugger as
    [historyInit] leaves the one before the breakpoint was set; a further
    check at the address reports no hit. *)
Theorem temporary_breakpoint_is_hit_once (fuel : nat) (A : Z) (fTemp : bool)
    (a : DbgAddr) (d : Debugger)
    (Hs : nSuppressBreaks d = 0)
    (Hm : messageEnabled ext (bitsMessage d)
            (JS.or (Messages_INT def) (Messages_HALT def)) = false)
    (Hlin : Forall (linearEntry def d) (getList Exec d))
    (Ha : addr a = Some A /\ aCmds a = None /\ A <> ADDR_INVALID def /\
          Break.mapBreakpoint def A d <> ADDR_INVALID def)
    (Hnone : Forall (fun b => hitsAt def d A false b = false) (getList Exec d))
    (Hfuel : (length (getList Exec d) < fuel)%nat) :
  let '(ok, a', d1) := Bp.setTempBreakpoint def ext a d in
  ok = true /\ a' = setTempBreak true (setSel None a) /\
  d1 = setList Exec (getList Exec d ++ [a'])%list d /\
  Break.checkBreakpoint def ext doCommand fuel A 1 Exec fTemp d1
  = Some (true, Hist.historyInit def ext d) /\
  Break.checkBreakpoint def ext doCommand fuel A 1 Exec fTemp
    (Hist.historyInit def ext d)
  = Some (false, Hist.historyInit def ext d).
Proof.
  destruct Ha as (HA & Hc & HAi & HAm).
  assert (Hnone' : Forall (fun b => hitsAt def d A fTemp b = false) (getList Exec d)).
  { eapply Forall_impl; [exact Hnone|]. intros b. apply hitsAt_temp. }
  unfold Bp.setTempBreakpoint, Break.addBreakpoint. cbn [negb isExec].
  rewrite HA.
  set (a4 := setTempBreak true (setSel None a)).
  set (d1 := setList Exec (getList Exec d ++ [a4])%list d).
  split_and!; [done..| |].
  - assert (Hl1 : Forall (linearEntry def d1) (getList Exec d1)).
    { subst d1. rewrite getList_setList. apply Forall_app. split; [exact Hlin|].
      apply Forall_singleton. split_and!; [done | exact Hc |].
      exists A. by split_and!. }
    assert (Hf1 : (length (getList Exec d1) <= fuel)%nat).
    { subst d1. rewrite getList_setList, length_app. cbn [length]. lia. }
    destruct (checkBreakpoint_linear fuel A fTemp d1 Hs Hm Hl1 Hf1) as [_ H].
    rewrite (H (getList Exec d) a4 []).
    + cbn [fTempBreak a4 setTempBreak]. rewrite app_nil_r.
      change (setList Exec (getList Exec d) d1)
        with (setList Exec (getList Exec d) d).
      by rewrite (setList_same Exec _ d eq_refl).
    + subst d1. by rewrite getList_setList.
    + exact Hnone'.
    + unfold hitsAt. cbn [fTempBreak a4 setTempBreak addr setSel].
      rewrite HA, orb_true_r. cbn [andb]. apply Z.eqb_refl.
  - destruct (historyInit_cases d) as [h ->].
    assert (Hf : (length (getList Exec (setHistory h d)) <= fuel)%nat).
    { change (getList Exec (setHistory h d)) with (getList Exec d). lia. }
    destruct (checkBreakpoint_linear fuel A fTemp (setHistory h d) Hs Hm Hlin Hf)
      as [H _].
    apply H. exact Hnone'.
Qed.

End BreakMore.

(** ** The address mapping *)

Lemma land_shift16 q r M :
  0 <= r < 2 ^ 16 ->
  Z.land (q * 2 ^ 16 + r) (M * 2 ^ 16) = Z.land q M * 2 ^ 16.
Proof.
  intros Hr. apply Z.bits_inj'. intros n Hn. rewrite Z.land_spec.
  destruct (Z.ltb_spec n 16).
  - rewrite !(Z.mul_pow2_bits_low _ 16 n) by lia. apply andb_false_r.
  - assert (E : Z.testbit (q * 2 ^ 16 + r) n = Z.testbit q (n - 16)).
    { replace n with ((n - 16) + 16) at 1 by lia.
      rewrite <- Z.div_pow2_bits by lia.
      by rewrite Z.div_add_l, Z.div_small, Z.add_0_r by lia. }
    rewrite E, !Z.mul_pow2_bits by lia. by rewrite Z.land_spec.
Qed.

Section MapFacts.

Context (def : Defines).

Lemma mask_value k :
  20 <= k <= 32 ->
  JS.toInt32 (JS.and (2 ^ k - 1) (JS.not 0xffff)) =
  (if k =? 32 then -1 else 2 ^ (k - 16) - 1) * 2 ^ 16 /\
  JS.and (2 ^ k - 1) (JS.not 0xffff) =
  (if k =? 32 then -1 else 2 ^ (k - 16) - 1) * 2 ^ 16.
Proof.
  intros Hk.
  assert (Hc : k = 20 \/ k = 21 \/ k = 22 \/ k = 23 \/ k = 24 \/ k = 25 \/
               k = 26 \/ k = 27 \/ k = 28 \/ k = 29 \/ k = 30 \/ k = 31 \/
               k = 32) by lia.
  clear Hk.
  repeat (destruct Hc as [Hc|Hc]; [subst k; split; reflexivity|]).
  subst k; split; reflexivity.
Qed.

Lemma mapBreakpoint_below k d lin :
  20 <= k <= 32 -> maskAddr d = 2 ^ k - 1 ->
  0 <= lin < 2 ^ k - 0x10000 ->
  Break.mapBreakpoint def lin d = lin.
Proof.
  intros Hk Hm Hl. unfold Break.mapBreakpoint.
  destruct (negb (lin =? ADDR_INVALID def)); [|done].
  rewrite Hm. destruct (mask_value k Hk) as [E1 E2].
  unfold JS.and at 1. rewrite E1. rewrite E2.
  set (M := if k =? 32 then -1 else 2 ^ (k - 16) - 1).
  assert (P : 2 ^ k = 2 ^ (k - 16) * 65536).
  { replace k with ((k - 16) + 16) at 1 by lia.
    rewrite Z.pow_add_r by lia. reflexivity. }
  assert (P32 : 0 < 2 ^ (k - 16)) by (apply Z.pow_pos_nonneg; lia).
  set (x := JS.toInt32 lin).
  pose proof (Z.div_mod x 65536 ltac:(lia)) as Ex.
  pose proof (Z.mod_pos_bound x 65536 ltac:(lia)) as Hr.
  replace x with (x / 65536 * 2 ^ 16 + x mod 65536) by (change (2 ^ 16) with 65536; lia).
  rewrite land_shift16 by (change (2 ^ 16) with 65536; lia).
  destruct (Z.eqb_spec (Z.land (x / 65536) M * 2 ^ 16) (M * 2 ^ 16)) as [E|]; [|done].
  exfalso. apply Z.mul_reg_r in E; [|lia].
  subst M. destruct (Z.eqb_spec k 32) as [->|Hk32].
  - rewrite Z.land_m1_r in E.
    change (2 ^ 32) with 4294967296 in Hl.
    destruct (Z.ltb_spec lin (2 ^ 31)).
    + subst x. rewrite toInt32_small in E by lia.
      pose proof (Z.div_pos lin 65536). lia.
    + subst x. rewrite toInt32_big in E by (change (2 ^ 32) with 4294967296; lia).
      change (2 ^ 32) with 4294967296 in E. change (2 ^ 31) with 2147483648 in *.
      clear Ex Hr. Z.div_mod_to_equations. lia.
  - assert (Hk31 : k - 16 <= 15) by lia.
    assert (H31 : 2 ^ k <= 2 ^ 31) by (apply Z.pow_le_mono_r; lia).
    subst x. rewrite toInt32_small in E by lia.
    change (2 ^ (k - 16) - 1) with (Z.pred (2 ^ (k - 16))) in E.
    rewrite <- Z.ones_equiv, Z.land_ones in E by lia.
    rewrite Z.ones_equiv in E.
    assert (Hq : 0 <= lin / 65536 < 2 ^ (k - 16) - 1).
    { split; [apply Z.div_pos; lia|].
      apply Z.div_lt_upper_bound; lia. }
    rewrite Z.mod_small in E by lia. lia.
Qed.

(** X15 (mapBreakpoint).  On a bus of [k] address bits (20 to 32), the
    mapping moves nothing below the top 64KB of the address space, leaves
    the invalid address alone, and is idempotent: a mapped address maps
    to itself. *)
Theorem mapBreakpoint_only_aliases (k : Z) (d : Debugger)
    (Hk : 20 <= k <= 32) (Hmask : maskAddr d = 2 ^ k - 1) :
  (forall lin, 0 <= lin < 2 ^ k - 0x10000 ->
     Break.mapBreakpoint def lin d = lin) /\
  Break.mapBreakpoint def (ADDR_INVALID def) d = ADDR_INVALID def /\
  (forall lin, 0 <= lin < 2 ^ k ->
     Break.mapBreakpoint def (Break.mapBreakpoint def lin d) d
     = Break.mapBreakpoint def lin d).
Proof.
  split_and!.
  - intros lin Hl. by apply (mapBreakpoint_below k).
  - unfold Break.mapBreakpoint. by rewrite Z.eqb_refl.
  - intros lin Hl.
    destruct (Z.ltb_spec lin (2 ^ k - 0x10000)).
    { assert (E : Break.mapBreakpoint def lin d = lin)
        by (apply (mapBreakpoint_below k); [done | done | lia]).
      by rewrite !E. }
    destruct (Z.eqb_spec lin (ADDR_INVALID def)) as [E|Hi].
    { unfold Break.mapBreakpoint. apply Z.eqb_eq in E. rewrite E. cbn [negb].
      by rewrite E. }
    rewrite (mapBreakpoint_top def k d lin Hk Hmask) by (done || lia).
    set (r := 0xF0000 + lin mod 0x10000).
    pose proof (Z.mod_pos_bound lin 0x10000 ltac:(lia)) as Hr.
    destruct (Z.eqb_spec r (ADDR_INVALID def)) as [E|Hri].
    { unfold Break.mapBreakpoint. apply Z.eqb_eq in E. by rewrite E. }
    destruct (Z.eqb_spec k 20) as [->|Hk20].
    + rewrite (mapBreakpoint_top def 20 d r) by (done || (change (2 ^ 20) with 1048576; lia)).
      subst r. Z.div_mod_to_equations. lia.
    + assert (2 ^ 21 <= 2 ^ k) by (apply Z.pow_le_mono_r; lia).
      change (2 ^ 21) with 2097152 in *.
      apply (mapBreakpoint_below k); [done..|]. subst r. lia.
Qed.

End MapFacts.


(** ** The alias of the top 64KB *)

Section AliasFacts.

Context (def : Defines) (ext : Collaborators).
Context (doCommand : string -> bool -> Debugger -> bool * Debugger).

(** The addresses that map where [2^k - 0x10] maps: itself and
    0x000FFFF0. *)
Lemma reset_vector_aliases k d lin :
  20 <= k <= 32 -> maskAddr d = 2 ^ k - 1 ->
  0 <= lin < 2 ^ k -> lin <> ADDR_INVALID def ->
  2 ^ k - 0x10 <> ADDR_INVALID def ->
  (Break.mapBreakpoint def lin d =? Break.mapBreakpoint def (2 ^ k - 0x10) d) = true
  <-> lin = 2 ^ k - 0x10 \/ lin = 0x000FFFF0.
Proof.
  intros Hk Hm Hl Hi Hi2.
  assert (P : 2 ^ k = 2 ^ (k - 16) * 65536).
  { replace k with ((k - 16) + 16) at 1 by lia.
    rewrite Z.pow_add_r by lia. reflexivity. }
  assert (P16 : 16 <= 2 ^ (k - 16)).
  { change 16 with (2 ^ 4). apply Z.pow_le_mono_r; lia. }
  set (m := 2 ^ (k - 16)) in *.
  rewrite (mapBreakpoint_top def k d (2 ^ k - 0x10)) by (try done; lia).
  assert (E : (2 ^ k - 16) mod 65536 = 65520).
  { rewrite P. symmetry. apply Z.mod_unique_pos with (q := m - 1); lia. }
  rewrite E, Z.eqb_eq.
  destruct (Z.lt_ge_cases lin (2 ^ k - 0x10000)) as [Hlow|Hhigh].
  - rewrite (mapBreakpoint_below def k d lin) by (try done; lia). lia.
  - rewrite (mapBreakpoint_top def k d lin) by (try done; lia).
    pose proof (Z.div_mod lin 65536 ltac:(lia)) as D.
    pose proof (Z.mod_pos_bound lin 65536 ltac:(lia)) as B.
    assert (Q : lin / 65536 = m - 1) by lia.
    lia.
Qed.

(** C6.  Before comparison, an address in the top 64KB of the
    addressable range (address mask [2^k - 1], all address bits above the
    low 16 set) is mapped to the same offset in the top 64KB of the first
    megabyte; so an exec breakpoint at physical address [2^k - 0x10]
    matches an execution at 0x000FFFF0.  The match is the comparison of
    the two mapped addresses and nothing else: with one permanent
    breakpoint without commands in the list (and the INT/HALT messages
    off), the check of an executed address reports a hit exactly when
    the executed address and the breakpoint map to the same address, and
    leaves the debugger as it is; for the breakpoint at [2^k - 0x10]
    that is at [2^k - 0x10] itself and at 0x000FFFF0, at no other
    address. *)
Theorem top_64k_alias (k : Z) (d : Debugger)
    (Hk : 20 <= k <= 32) (Hmask : maskAddr d = 2 ^ k - 1) :
  (forall lin, 2 ^ k - 0x10000 <= lin < 2 ^ k -> lin <> ADDR_INVALID def ->
     Break.mapBreakpoint def lin d = 0xF0000 + lin mod 0x10000) /\
  (forall bp rest fuel,
     nSuppressBreaks d = 0 -> aBreakExec (breaks d) = bp :: rest ->
     sel bp = None -> addr bp = Some (2 ^ k - 0x10) ->
     fTempBreak bp = false -> aCmds bp = None ->
     0x000FFFF0 <> ADDR_INVALID def -> 2 ^ k - 0x10 <> ADDR_INVALID def ->
     fst <$> Break.checkBreakpoint def ext doCommand (S fuel) 0x000FFFF0 1
               Exec false d = Some true) /\
  (forall bp A fuel lin,
     nSuppressBreaks d = 0 ->
     messageEnabled ext (bitsMessage d)
       (JS.or (Messages_INT def) (Messages_HALT def)) = false ->
     aBreakExec (breaks d) = [bp] ->
     sel bp = None -> addr bp = Some A ->
     fTempBreak bp = false -> aCmds bp = None ->
     A <> ADDR_INVALID def -> Break.mapBreakpoint def A d <> ADDR_INVALID def ->
     Break.checkBreakpoint def ext doCommand (S fuel) lin 1 Exec false d
     = Some (Break.mapBreakpoint def lin d =? Break.mapBreakpoint def A d, d)) /\
  (forall bp fuel lin,
     nSuppressBreaks d = 0 ->
     messageEnabled ext (bitsMessage d)
       (JS.or (Messages_INT def) (Messages_HALT def)) = false ->
     aBreakExec (breaks d) = [bp] ->
     sel bp = None -> addr bp = Some (2 ^ k - 0x10) ->
     fTempBreak bp = false -> aCmds bp = None ->
     2 ^ k - 0x10 <> ADDR_INVALID def -> 0x000FFFF0 <> ADDR_INVALID def ->
     0 <= lin < 2 ^ k -> lin <> ADDR_INVALID def ->
     (Break.checkBreakpoint def ext doCommand (S fuel) lin 1 Exec false d
      = Some (true, d) <-> lin = 2 ^ k - 0x10 \/ lin = 0x000FFFF0) /\
     (Break.checkBreakpoint def ext doCommand (S fuel) lin 1 Exec false d
      = Some (false, d) <-> lin <> 2 ^ k - 0x10 /\ lin <> 0x000FFFF0)).
Proof.
  assert (G : forall bp A fuel lin,
     nSuppressBreaks d = 0 ->
     messageEnabled ext (bitsMessage d)
       (JS.or (Messages_INT def) (Messages_HALT def)) = false ->
     aBreakExec (breaks d) = [bp] ->
     sel bp = None -> addr bp = Some A ->
     fTempBreak bp = false -> aCmds bp = None ->
     A <> ADDR_INVALID def -> Break.mapBreakpoint def A d <> ADDR_INVALID def ->
     Break.checkBreakpoint def ext doCommand (S fuel) lin 1 Exec false d
     = Some (Break.mapBreakpoint def lin d =? Break.mapBreakpoint def A d, d)).
  { intros bp A fuel lin Hs Hm Hl Hsel Haddr Ht Hc HA HmA.
    assert (HL : getList Exec d = [bp]) by exact Hl.
    assert (Hlin : Forall (linearEntry def d) (getList Exec d)).
    { rewrite HL. apply Forall_singleton. split_and!; [done..|].
      exists A. by split_and!. }
    assert (Hf : (length (getList Exec d) <= S fuel)%nat).
    { rewrite HL. cbn [length]. lia. }
    destruct (checkBreakpoint_linear def ext doCommand (S fuel) lin false d
                Hs Hm Hlin Hf) as [N Y].
    assert (Hh : hitsAt def d lin false bp
                 = (Break.mapBreakpoint def lin d =? Break.mapBreakpoint def A d)).
    { unfold hitsAt. by rewrite Haddr. }
    destruct (Break.mapBreakpoint def lin d =? Break.mapBreakpoint def A d) eqn:E.
    - rewrite (Y [] bp []); [by rewrite Ht | done | done | by rewrite Hh].
    - apply N. rewrite HL. apply Forall_singleton. by rewrite Hh. }
  split_and!.
  - intros lin Hl Hi. by apply (mapBreakpoint_top def k).
  - intros bp rest fuel. by apply (checkBreakpoint_alias def ext doCommand).
  - exact G.
  - intros bp fuel lin Hs Hm Hl Hsel Haddr Ht Hc Hi2 Hi1 Hr Hi.
    assert (HmA : Break.mapBreakpoint def (2 ^ k - 0x10) d <> ADDR_INVALID def).
    { assert (P : 2 ^ k = 2 ^ (k - 16) * 65536).
      { replace k with ((k - 16) + 16) at 1 by lia.
        rewrite Z.pow_add_r by lia. reflexivity. }
      assert (P16 : 16 <= 2 ^ (k - 16)).
      { change 16 with (2 ^ 4). apply Z.pow_le_mono_r; lia. }
      rewrite (mapBreakpoint_top def k d (2 ^ k - 0x10)) by (try done; lia).
      assert (E : (2 ^ k - 16) mod 65536 = 65520).
      { rewrite P. symmetry.
        apply Z.mod_unique_pos with (q := 2 ^ (k - 16) - 1); lia. }
      rewrite E. exact Hi1. }
    rewrite (G bp (2 ^ k - 0x10) fuel lin) by done.
    pose proof (reset_vector_aliases k d lin Hk Hmask Hr Hi Hi2) as A.
    destruct (Break.mapBreakpoint def lin d
              =? Break.mapBreakpoint def (2 ^ k - 0x10) d).
    + split; [tauto|]. split; [done|]. intros [N1 N2].
      destruct (proj1 A eq_refl); done.
    + split.
      * split; [done|]. intros H. apply A in H. done.
      * split; [|done]. intros _.
        split; intros E; (assert (false = true) by (apply A; auto)); done.
Qed.

End AliasFacts.

(** The sample debugger has a 24-bit bus: a breakpoint at 0xFFFFF0 stops
    an execution at 0x0FFFF0, and none at 0x0FFFF1. *)
Lemma top_64k_alias_witness :
  let bp := {| off := 0; sel := None; addr := Some 0xFFFFF0;
               type := ADDR_PHYSICAL; fData32 := false; fAddr32 := false;
               fTempBreak := false; sCmd := None; aCmds := None |} in
  let d := setList Exec [bp] Sample.dbg0 in
  Break.mapBreakpoint Sample.def 0xFFFFF0 d = 0x0FFFF0 /\
  fst <$> Break.checkBreakpoint Sample.def Sample.ext Sample.doCommand 1
            0x000FFFF0 1 Exec false d = Some true /\
  Break.checkBreakpoint Sample.def Sample.ext Sample.doCommand 1
    0x000FFFF0 1 Exec false d = Some (true, d) /\
  Break.checkBreakpoint Sample.def Sample.ext Sample.doCommand 1
    0x000FFFF1 1 Exec false d = Some (false, d).
Proof.
  intros bp d.
  destruct (top_64k_alias Sample.def Sample.ext Sample.doCommand 24 d
              ltac:(lia) eq_refl) as (M & C & _ & I).
  split_and!.
  - rewrite (M 0xFFFFF0); [reflexivity | lia | discriminate].
  - apply (C bp [] 0%nat); try reflexivity; discriminate.
  - apply (I bp 0%nat 0x000FFFF0 eq_refl eq_refl eq_refl eq_refl eq_refl
             eq_refl eq_refl);
      [discriminate | discriminate | lia | discriminate | by right].
  - apply (I bp 0%nat 0x000FFFF1 eq_refl eq_refl eq_refl eq_refl eq_refl
             eq_refl eq_refl);
      [discriminate | discriminate | lia | discriminate | split; discriminate].
Defined.

(** ** The breakpoint lists *)

Section ListFacts.

Context (def : Defines) (ext : Collaborators).

Lemma removeMemBreaks_cached fWrite l : forall d,
  Forall (fun b => is_Some (addr b)) l ->
  Bp.removeMemBreaks def ext fWrite l d =
  setBusCalls (busCalls d ++ map (fun A => RemoveMemBreak A fWrite) (cachedAddrs l)) d.
Proof.
  induction l as [|b l IH]; intros d Hl.
  - cbn. rewrite app_nil_r. by destruct d.
  - inversion Hl as [|? ? [A HA] Hl']; subst. cbn [Bp.removeMemBreaks].
    unfold Addr.getAddr. rewrite HA. rewrite IH by done.
    unfold cachedAddrs. cbn [omap list_omap]. rewrite HA. cbn [map].
    cbn [busCalls setBusCalls]. rewrite <- app_assoc. by destruct d.
Qed.

(** X16 (clearBreakpoints).  [clearBreakpoints] empties the three lists and
    resets the suppression counter; for the memory breakpoints (whose
    linear address is cached) it tells the bus to remove each one, the
    read list first, at the very address cached; CPU, history and trace
    are not touched.  Afterwards no search finds a breakpoint. *)
Theorem clearBreakpoints_clears (d : Debugger)
    (Hr : Forall (fun b => is_Some (addr b)) (getList Read d))
    (Hw : Forall (fun b => is_Some (addr b)) (getList Write d)) :
  let d' := Bp.clearBreakpoints def ext d in
  getList Exec d' = [] /\ getList Read d' = [] /\ getList Write d' = [] /\
  nSuppressBreaks d' = 0 /\
  busCalls d' =
    (busCalls d
     ++ map (fun A => RemoveMemBreak A false) (cachedAddrs (getList Read d))
     ++ map (fun A => RemoveMemBreak A true) (cachedAddrs (getList Write d)))%list /\
  cpu d' = cpu d /\ history d' = history d /\ trace d' = trace d /\
  segDebugger d' = segDebugger d /\
  (forall k a fRemove fTemp,
     fst (fst (Break.findBreakpoint def ext k a fRemove fTemp d')) = false /\
     getList k (snd (Break.findBreakpoint def ext k a fRemove fTemp d')) = []).
Proof.
  intros d'. subst d'. unfold Bp.clearBreakpoints.
  rewrite (removeMemBreaks_cached false (getList Read (setList Exec [] d)))
    by exact Hr.
  set (d2 := setBusCalls _ (setList Exec [] d)).
  rewrite (removeMemBreaks_cached true (getList Write (setList Read [] d2)))
    by exact Hw.
  split_and!; try reflexivity.
  - cbn [busCalls setSuppress setList setBreaks setBusCalls]. subst d2.
    cbn [busCalls setBusCalls]. by rewrite <- app_assoc.
  - intros k a fRemove fTemp. unfold Break.findBreakpoint.
    set (dc := setSuppress 0 _).
    pose proof (getAddr_frame def ext a false 0 dc) as [_ B].
    destruct (Addr.getAddr def ext a false 0 dc) as [[lin a1] d1].
    cbn [snd] in B.
    assert (E : getList k d1 = []).
    { unfold getList. rewrite B. by destruct k. }
    rewrite E. cbn [Break.findLoop fst snd]. split; [done|].
    apply getList_setList.
Qed.

Lemma matchEntry_mem a lin b d :
  memEntry def b ->
  Break.matchEntry def ext a lin b d =
  (fst (fst (Break.matchEntry def ext a lin b d)), b, d).
Proof.
  intros (_ & A & HA & _). unfold Break.matchEntry.
  destruct (negb _); [|done]. unfold Addr.getAddr. by rewrite HA.
Qed.

Lemma findLoop_mem k a lin fR fT l : forall pre d,
  Forall (memEntry def) (pre ++ l)%list ->
  Forall (memEntry def)
    (getList k (snd (Break.findLoop def ext k a lin fR fT pre l d))).
Proof.
  induction l as [|b l IH]; intros pre d H; cbn [Break.findLoop].
  - cbn [snd]. rewrite getList_setList. by rewrite app_nil_r in H.
  - pose proof H as H'. apply Forall_app in H' as [Hp Hl].
    inversion Hl as [|? ? Hb Hl']; subst.
    rewrite (matchEntry_mem a lin b d Hb).
    destruct (_ && _)%bool.
    + destruct fR; cbn [snd].
      * unfold getList at 1. rewrite (proj2 (historyInit_frame def ext _)).
        assert (E : forall x, breaks (if negb (isExec k)
                     then setBusCalls x (setList k (pre ++ l) d)
                     else setList k (pre ++ l) d)
                   = breaks (setList k (pre ++ l) d))
          by (intros; by destruct (negb (isExec k))).
        rewrite E. fold (getList k (setList k (pre ++ l) d)).
        rewrite getList_setList. apply Forall_app. by split.
      * by rewrite getList_setList.
    + apply IH. by rewrite <- app_assoc.
Qed.

Lemma getAddr_result a fW nb d :
  let '(lin, a', _) := Addr.getAddr def ext a fW nb d in
  addr a' = Some lin \/ (addr a' = None /\ lin = ADDR_INVALID def).
Proof.
  unfold Addr.getAddr. destruct (addr a) as [lin|] eqn:Ea; [by left|].
  destruct (Addr.getSegment def ext (sel a) (type a) d) as [[seg|] d'].
  - by left.
  - by right.
Qed.

Lemma getSegment_scratch s ty d :
  snd (Addr.getSegment def ext s ty d) = d \/
  exists seg, snd (Addr.getSegment def ext s ty d) = setSegDebugger seg d.
Proof.
  unfold Addr.getSegment.
  repeat match goal with
  | |- context [if ?b then _ else _] => destruct b
  end; cbn [snd]; eauto.
Qed.

Lemma getAddr_scratch a fW nb d :
  snd (Addr.getAddr def ext a fW nb d) = d \/
  exists seg, snd (Addr.getAddr def ext a fW nb d) = setSegDebugger seg d.
Proof.
  unfold Addr.getAddr. destruct (addr a); [by left|].
  pose proof (getSegment_scratch (sel a) (type a) d) as H.
  destruct (Addr.getSegment def ext (sel a) (type a) d) as [[seg|] d'];
    cbn [snd] in *; exact H.
Qed.

(** X17 (addBreakpoint).  Adding to a memory breakpoint list (read or
    write) keeps the list one of entries with the selector zapped and a
    valid linear address cached.  The add succeeds exactly when the
    address resolves: it then appends the address, selector zapped, and
    tells the bus to watch the linear address it cached; when it fails it
    appends nothing and tells the bus nothing (the search that precedes
    it has been made all the same). *)
Theorem addBreakpoint_memory (k : BreakList) (a : DbgAddr) (d : Debugger)
    (Hk : isExec k = false)
    (Hinv : Forall (memEntry def) (getList k d)) :
  let '(ok, a', d') := Break.addBreakpoint def ext k a false d in
  let d1 := snd (Break.findBreakpoint def ext k a true false d) in
  Forall (memEntry def) (getList k d') /\
  if ok then
    memEntry def a' /\
    exists lin,
      addr a' = Some lin /\
      getList k d' = (getList k d1 ++ [a'])%list /\
      busCalls d' = (busCalls d1 ++ [AddMemBreak lin (isWrite k)])%list
  else
    (forall lin, addr a' = Some lin -> lin = ADDR_INVALID def) /\
    getList k d' = getList k d1 /\ busCalls d' = busCalls d1.
Proof.
  unfold Break.addBreakpoint. cbn [negb]. rewrite Hk. cbn [negb].
  assert (Hd1 : Forall (memEntry def)
                  (getList k (snd (Break.findBreakpoint def ext k a true false d)))).
  { unfold Break.findBreakpoint.
    pose proof (getAddr_frame def ext a false 0 d) as [_ B].
    destruct (Addr.getAddr def ext a false 0 d) as [[lin0 a0] d0]. cbn [snd] in B.
    pose proof (findLoop_mem k a0 (Break.mapBreakpoint def lin0 d0) true false
                  (getList k d0) [] d0) as F.
    destruct (Break.findLoop _ _ _ _ _ _ _ _ _ _) as [f dF]. cbn [snd] in *.
    apply F. cbn [app]. unfold getList. rewrite B. exact Hinv. }
  destruct (Break.findBreakpoint def ext k a true false d) as [[f a1] d1].
  cbn [snd] in *.
  pose proof (getAddr_frame def ext a1 false 0 d1) as [_ B].
  pose proof (getAddr_scratch a1 false 0 d1) as Sc.
  pose proof (getAddr_result a1 false 0 d1) as R.
  pose proof (getAddr_keeps def ext a1 false 0 d1) as K.
  destruct (Addr.getAddr def ext a1 false 0 d1) as [[lin a2] d2].
  cbn [snd] in B, Sc.
  assert (EL : getList k d2 = getList k d1) by (unfold getList; by rewrite B).
  assert (EB : busCalls d2 = busCalls d1).
  { by destruct Sc as [->|[seg ->]]. }
  destruct (Z.eqb_spec lin (ADDR_INVALID def)) as [Hi|Hi].
  - split; [by rewrite EL|]. split_and!; [|done..].
    intros x Hx. destruct R as [R|[R _]]; congruence.
  - destruct R as [R|[_ R]]; [|done].
    destruct K as (_ & _ & _ & _ & _ & _).
    assert (Hm : memEntry def (setSel None a2)).
    { split; [done|]. exists lin. by split. }
    assert (EH : forall x, getList k (Hist.historyInit def ext x) = getList k x).
    { intros x. unfold getList. by rewrite (proj2 (historyInit_frame def ext x)). }
    rewrite EH, getList_setList.
    split.
    + apply Forall_app. split; [|by apply Forall_singleton].
      change (getList k (setBusCalls (busCalls d2 ++ [AddMemBreak lin (isWrite k)]) d2))
        with (getList k d2). by rewrite EL.
    + split; [done|]. exists lin. split_and!; [done| |].
      * change (getList k (setBusCalls (busCalls d2 ++ [AddMemBreak lin (isWrite k)]) d2))
          with (getList k d2). by rewrite EL.
      * assert (EHb : forall x, busCalls (Hist.historyInit def ext x) = busCalls x).
        { intros x. unfold Hist.historyInit. by destruct (negb _). }
        rewrite EHb. cbn [busCalls setList setBreaks setBusCalls]. by rewrite EB.
Qed.

End ListFacts.

(** ** Searching the lists *)

Section FindMore.

Context (def : Defines) (ext : Collaborators).

Lemma findLoop_found_any k a lin fT l : forall fR fR' pre pre' d,
  fst (Break.findLoop def ext k a lin fR fT pre l d)
  = fst (Break.findLoop def ext k a lin fR' fT pre' l d).
Proof.
  induction l as [|b l IH]; intros fR fR' pre pre' d; cbn [Break.findLoop]; [done|].
  destruct (Break.matchEntry def ext a lin b d) as [[h b'] d'].
  destruct (h && _)%bool; [by destruct fR, fR'|]. apply IH.
Qed.

Lemma findLoop_length k a lin fR fT l : forall pre d,
  (length (getList k (snd (Break.findLoop def ext k a lin fR fT pre l d)))
   + (if (fR && fst (Break.findLoop def ext k a lin fR fT pre l d))%bool
      then 1 else 0)
   = length pre + length l)%nat.
Proof.
  induction l as [|b l IH]; intros pre d; cbn [Break.findLoop].
  - cbn [fst snd]. rewrite getList_setList, andb_false_r. cbn. lia.
  - destruct (Break.matchEntry def ext a lin b d) as [[h b'] d'].
    destruct (h && _)%bool.
    + destruct fR; cbn [fst snd andb].
      * unfold getList at 1. rewrite (proj2 (historyInit_frame def ext _)).
        assert (E : forall x, breaks (if negb (isExec k)
                     then setBusCalls x (setList k (pre ++ l) d')
                     else setList k (pre ++ l) d')
                   = breaks (setList k (pre ++ l) d'))
          by (intros; by destruct (negb (isExec k))).
        rewrite E. fold (getList k (setList k (pre ++ l) d')).
        rewrite getList_setList, length_app. cbn [length]. lia.
      * rewrite getList_setList, !length_app. cbn [length]. lia.
    + rewrite IH, length_app. cbn [length]. lia.
Qed.

(** X18 (addBreakpoint, findBreakpoint).  Setting an exec breakpoint never
    leaves the list with more than one entry added: the list grows by
    one when the address was not found in it and keeps its length when it
    was, the entry found being replaced.  Setting the same breakpoint
    again therefore leaves the length as it is. *)
Theorem addBreakpoint_replaces (a : DbgAddr) (d : Debugger) :
  let found := fst (fst (Break.findBreakpoint def ext Exec a false false d)) in
  let r1 := Break.addBreakpoint def ext Exec a false d in
  let r2 := Break.addBreakpoint def ext Exec (snd (fst r1)) false (snd r1) in
  length (getList Exec (snd r1))
    = (length (getList Exec d) + (if found then 0 else 1))%nat /\
  fst (fst r2) = true /\
  length (getList Exec (snd r2)) = length (getList Exec (snd r1)).
Proof.
  intros found r1 r2.
  assert (EH : forall x, getList Exec (Hist.historyInit def ext x) = getList Exec x).
  { intros x. unfold getList. by rewrite (proj2 (historyInit_frame def ext x)). }
  destruct (Addr.getAddr def ext a false 0 d) as [[lin0 a1] dA] eqn:EA.
  pose proof (getAddr_frame def ext a false 0 d) as [FA BA]. rewrite EA in FA, BA.
  cbn [snd] in FA, BA.
  assert (ELA : getList Exec dA = getList Exec d) by (unfold getList; by rewrite BA).
  destruct (addBreakpoint_exec def ext a d lin0 a1 dA EA) as (d1 & L0 & E1 & F1 & HL1).
  assert (Len1 : length (getList Exec (snd r1))
                 = (length (getList Exec d) + (if found then 0 else 1))%nat).
  { subst r1 found. unfold Break.addBreakpoint, Break.findBreakpoint.
    cbn [negb isExec]. rewrite EA.
    pose proof (findLoop_found_any Exec a1 (Break.mapBreakpoint def lin0 dA) false
                  (getList Exec dA) false true [] [] dA) as Ef.
    pose proof (findLoop_length Exec a1 (Break.mapBreakpoint def lin0 dA) true false
                  (getList Exec dA) [] dA) as L.
    destruct (Break.findLoop def ext Exec a1 _ false false [] _ dA) as [f0 dF0].
    destruct (Break.findLoop def ext Exec a1 _ true false [] _ dA) as [f dF].
    cbn [fst snd andb length Nat.add] in *. subst f0.
    rewrite EH, getList_setList, length_app. cbn [length].
    rewrite <- ELA. destruct f; lia. }
  split; [exact Len1|].
  subst r1 r2. rewrite E1 in *. cbn [fst snd] in *.
  unfold Break.addBreakpoint. cbn [negb isExec].
  rewrite (findBreakpoint_resolved def ext a d lin0 a1 dA d1 true EA F1).
  pose proof (findLoop_length Exec a1 (Break.mapBreakpoint def lin0 d1) true false
                (getList Exec d1) [] d1) as L.
  assert (Hf : fst (Break.findLoop def ext Exec a1 (Break.mapBreakpoint def lin0 d1)
                      true false [] (getList Exec d1) d1) = true).
  { rewrite HL1. apply (findLoop_last_match def ext _ _ _ _ _ _ _ _ d1);
      [apply frame_refl|].
    intros y Fy. by apply (self_match def ext a d lin0 a1 dA d1 y). }
  destruct (Break.findLoop def ext Exec a1 _ true false [] _ d1) as [f dF].
  cbn [fst snd andb length Nat.add] in *. subst f.
  split; [done|].
  rewrite EH, getList_setList, length_app. cbn [length]. lia.
Qed.

End FindMore.

Section FindReads.

Context (def : Defines) (ext : Collaborators).

Lemma sameBut_refl k d : sameBut k d d.
Proof. by split_and!. Qed.

Lemma sameBut_trans k d1 d2 d3 :
  sameBut k d1 d2 -> sameBut k d2 d3 -> sameBut k d1 d3.
Proof.
  intros (A1 & A2 & A3 & A4 & A5 & A6 & A7 & A8 & A9)
         (B1 & B2 & B3 & B4 & B5 & B6 & B7 & B8 & B9).
  split_and!; try congruence. intros k' Hk. rewrite A9, B9; done.
Qed.

Lemma sameBut_setList k l d : sameBut k (setList k l d) d.
Proof.
  split_and!; try done. intros k' Hk. by destruct k, k'.
Qed.

Lemma getSegment_sameBut k s ty d :
  sameBut k (snd (Addr.getSegment def ext s ty d)) d /\
  getList k (snd (Addr.getSegment def ext s ty d)) = getList k d.
Proof.
  unfold Addr.getSegment.
  repeat match goal with
  | |- context [if ?b then _ else _] => destruct b
  end; cbn [snd]; (split; [by split_and! | by destruct k]).
Qed.

Lemma getAddr_sameBut k a fW nb d :
  sameBut k (snd (Addr.getAddr def ext a fW nb d)) d /\
  getList k (snd (Addr.getAddr def ext a fW nb d)) = getList k d /\
  sameEntry (snd (fst (Addr.getAddr def ext a fW nb d))) a.
Proof.
  unfold Addr.getAddr. destruct (addr a); [by split_and!|].
  pose proof (getSegment_sameBut k (sel a) (type a) d) as [S L].
  destruct (Addr.getSegment def ext (sel a) (type a) d) as [[seg|] d'];
    cbn [fst snd] in *; by split_and!.
Qed.

Lemma matchEntry_sameBut k a lin b d :
  sameBut k (snd (Break.matchEntry def ext a lin b d)) d /\
  getList k (snd (Break.matchEntry def ext a lin b d)) = getList k d /\
  sameEntry (snd (fst (Break.matchEntry def ext a lin b d))) b.
Proof.
  unfold Break.matchEntry. destruct (negb _); [|by split_and!].
  pose proof (getAddr_sameBut k b false 0 d) as H.
  by destruct (Addr.getAddr def ext b false 0 d) as [[l b'] d'].
Qed.

Lemma findLoop_reads k a lin fT l : forall pre d,
  exists l',
    getList k (snd (Break.findLoop def ext k a lin false fT pre l d))
    = (pre ++ l')%list /\
    Forall2 sameEntry l' l /\
    sameBut k (snd (Break.findLoop def ext k a lin false fT pre l d)) d.
Proof.
  induction l as [|b l IH]; intros pre d; cbn [Break.findLoop].
  - exists []. cbn [snd]. rewrite getList_setList.
    split_and!; [by rewrite app_nil_r | constructor | apply sameBut_setList].
  - pose proof (matchEntry_sameBut k a lin b d) as (S & _ & E).
    destruct (Break.matchEntry def ext a lin b d) as [[h b'] d'].
    cbn [fst snd] in *. destruct (h && _)%bool.
    + exists (b' :: l). cbn [snd]. rewrite getList_setList.
      split_and!; [done | | ].
      * constructor; [done|]. by apply Forall_Forall2_diag, Forall_true.
      * eapply sameBut_trans; [apply sameBut_setList | done].
    + destruct (IH (pre ++ [b'])%list d') as (l' & EL & F & S').
      exists (b' :: l'). rewrite EL, <- app_assoc.
      split_and!; [done | by constructor |].
      by eapply sameBut_trans.
Qed.

(** X19 (findBreakpoint).  A search that does not remove changes no
    breakpoint: the list searched keeps its entries, in order, each one
    as it was but for the linear address the search may have cached in
    it; the other lists, the bus, the CPU, the history and the trace
    state are untouched. *)
Theorem findBreakpoint_reads_only (k : BreakList) (a : DbgAddr) (fTemp : bool)
    (d : Debugger) :
  let r := Break.findBreakpoint def ext k a false fTemp d in
  Forall2 sameEntry (getList k (snd r)) (getList k d) /\
  sameEntry (snd (fst r)) a /\
  sameBut k (snd r) d.
Proof.
  intros r. subst r. unfold Break.findBreakpoint.
  pose proof (getAddr_sameBut k a false 0 d) as (S & L & E).
  destruct (Addr.getAddr def ext a false 0 d) as [[lin0 a'] d1].
  cbn [fst snd] in *.
  destruct (findLoop_reads k a' (Break.mapBreakpoint def lin0 d1) fTemp
              (getList k d1) [] d1) as (l' & EL & F & S').
  destruct (Break.findLoop _ _ _ _ _ _ _ _ _ _) as [f d2]. cbn [fst snd] in *.
  rewrite EL. cbn [app]. rewrite <- L.
  split_and!; [done | done | by eapply sameBut_trans].
Qed.

End FindReads.

(** ** Temporary breakpoints *)

Section TempFacts.

Context (def : Defines) (ext : Collaborators).

Lemma sameEntry_temp a b : sameEntry a b -> fTempBreak a = fTempBreak b.
Proof. intros H. by apply (f_equal fTempBreak) in H. Qed.

Lemma sameEntry_refl a : sameEntry a a.
Proof. done. Qed.

Lemma sameEntry_trans a b c : sameEntry a b -> sameEntry b c -> sameEntry a c.
Proof. unfold sameEntry. congruence. Qed.

Lemma getAddr_same a fW nb d :
  sameEntry (snd (fst (Addr.getAddr def ext a fW nb d))) a.
Proof.
  pose proof (getAddr_keeps def ext a fW nb d) as K.
  destruct (Addr.getAddr def ext a fW nb d) as [[lin a'] d'].
  destruct K as (_ & _ & _ & _ & _ & [->| ->]); by destruct a.
Qed.

Lemma matchEntry_same q lin b d :
  sameEntry (snd (fst (Break.matchEntry def ext q lin b d))) b.
Proof.
  unfold Break.matchEntry. destruct (negb _); [|done].
  pose proof (getAddr_same b false 0 d) as H.
  by destruct (Addr.getAddr def ext b false 0 d) as [[l b'] d'].
Qed.

Lemma findLoop_temp q lin tgt post d : forall mid pre x,
  frame x d ->
  (forall y, frame y d ->
     fst (fst (Break.matchEntry def ext q lin tgt y)) = true) ->
  fTempBreak tgt = true ->
  exists l1 c l2 l1' x',
    (mid ++ tgt :: post)%list = (l1 ++ c :: l2)%list /\
    fTempBreak c = true /\ Forall2 sameEntry l1' l1 /\ frame x' d /\
    Break.findLoop def ext Exec q lin true true pre (mid ++ tgt :: post)%list x =
    (true, Hist.historyInit def ext (setList Exec (pre ++ l1' ++ l2) x')).
Proof.
  induction mid as [|c0 mid IH]; intros pre x Fx Hself Ht.
  - cbn [app Break.findLoop].
    pose proof (Hself x Fx) as Hh.
    pose proof (matchEntry_same q lin tgt x) as Hs.
    pose proof (matchEntry_frame def ext q lin tgt x) as (F1 & _). cbv zeta in F1.
    destruct (Break.matchEntry def ext q lin tgt x) as [[h t'] x1].
    cbn [fst snd] in *. subst h.
    rewrite (sameEntry_temp _ _ Hs), Ht. cbn [andb negb orb isExec].
    exists [], tgt, post, [], x1.
    split_and!; [done | done | constructor | by eapply frame_trans | done].
  - cbn [app Break.findLoop].
    pose proof (matchEntry_same q lin c0 x) as Hs.
    pose proof (matchEntry_frame def ext q lin c0 x) as (F1 & _). cbv zeta in F1.
    destruct (Break.matchEntry def ext q lin c0 x) as [[h c0'] x1].
    cbn [fst snd] in *.
    destruct (h && (negb true || fTempBreak c0'))%bool eqn:E.
    + cbn [negb isExec].
      exists [], c0, (mid ++ tgt :: post)%list, [], x1.
      split_and!; [done | | constructor | by eapply frame_trans | done].
      rewrite <- (sameEntry_temp _ _ Hs).
      apply andb_true_iff in E as [_ E]. exact E.
    + destruct (IH (pre ++ [c0'])%list x1) as (l1 & c & l2 & l1' & x' & EL & Hc & F2 & Fx' & EF);
        [by eapply frame_trans | done | done |].
      exists (c0 :: l1), c, l2, (c0' :: l1'), x'.
      split_and!; [by rewrite EL | done | by constructor | done |].
      rewrite EF. by rewrite <- app_assoc.
Qed.

Lemma filter_same (P : DbgAddr -> bool) l : forall l',
  (forall a b, sameEntry a b -> P a = P b) ->
  Forall2 sameEntry l l' ->
  Forall2 sameEntry (List.filter P l) (List.filter P l').
Proof.
  intros l' HP H. induction H as [|a b l l' Hab H IH]; [constructor|].
  cbn [List.filter]. rewrite (HP a b Hab). destruct (P b); [by constructor | done].
Qed.

Lemma same_list_trans l1 l2 l3 :
  Forall2 sameEntry l1 l2 -> Forall2 sameEntry l2 l3 -> Forall2 sameEntry l1 l3.
Proof.
  intros H. revert l3. induction H as [|a b l l' Hab H IH]; intros l3 H3.
  - inversion H3. constructor.
  - inversion H3; subst. constructor; [by eapply sameEntry_trans | by apply IH].
Qed.

Lemma same_list_refl l : Forall2 sameEntry l l.
Proof. by apply Forall_Forall2_diag, Forall_true. Qed.

Lemma isPermanent_same a b : sameEntry a b -> isPermanent a = isPermanent b.
Proof. intros H. unfold isPermanent. by rewrite (sameEntry_temp a b H). Qed.

Lemma filter_permanent_middle l1 c l2 :
  fTempBreak c = true ->
  List.filter isPermanent (l1 ++ c :: l2) = List.filter isPermanent (l1 ++ l2).
Proof.
  intros Hc. rewrite !List.filter_app. cbn [List.filter].
  unfold isPermanent at 2. by rewrite Hc.
Qed.

Lemma filter_temp_middle l1 c l2 :
  fTempBreak c = true ->
  length (List.filter fTempBreak (l1 ++ c :: l2))
  = S (length (List.filter fTempBreak (l1 ++ l2))).
Proof.
  intros Hc. rewrite !List.filter_app, !length_app. cbn [List.filter].
  rewrite Hc. cbn [length]. lia.
Qed.

Lemma removeTempAt_spec i b d :
  getList Exec d !! i = Some b -> fTempBreak b = true ->
  exists d',
    Bp.removeTempAt def ext i b d = (true, d') /\
    frame d' d /\
    Forall2 sameEntry (List.filter isPermanent (getList Exec d'))
      (List.filter isPermanent (getList Exec d)) /\
    S (length (List.filter fTempBreak (getList Exec d')))
    = length (List.filter fTempBreak (getList Exec d)) /\
    S (length (getList Exec d')) = length (getList Exec d).
Proof.
  intros Hi Ht. unfold Bp.removeTempAt.
  pose proof (getAddr_same b false 0 d) as Hs.
  pose proof (getAddr_frame def ext b false 0 d) as [FA BA].
  destruct (Addr.getAddr def ext b false 0 d) as [[lin0 b'] d1] eqn:EA.
  cbn [fst snd] in *.
  assert (EL : getList Exec d1 = getList Exec d) by (unfold getList; by rewrite BA).
  rewrite EL, getList_setList.
  set (L := getList Exec d) in *.
  set (d2 := setList Exec (<[i := b']> L) d1).
  assert (F2 : frame d2 d).
  { eapply frame_trans; [apply setList_frame | done]. }
  assert (Hlt : (i < length L)%nat) by (by eapply lookup_lt_Some).
  assert (E2 : <[i := b']> L = (take i L ++ b' :: drop (S i) L)%list).
  { by rewrite insert_take_drop. }
  assert (E0 : L = (take i L ++ b :: drop (S i) L)%list).
  { by rewrite <- (take_drop_middle L i b Hi) at 1. }
  rewrite E2.
  destruct (findLoop_temp b' (Break.mapBreakpoint def lin0 d2) b' (drop (S i) L) d2
              (take i L) [] d2)
    as (l1 & c & l2 & l1' & x' & ED & Hc & F12 & Fx' & EF).
  { apply frame_refl. }
  { intros y Fy. by apply (self_match def ext b d lin0 b' d1 d2 y). }
  { by rewrite (sameEntry_temp _ _ Hs). }
  rewrite EF. eexists. split; [reflexivity|].
  assert (EH : forall x, getList Exec (Hist.historyInit def ext x) = getList Exec x).
  { intros x. unfold getList. by rewrite (proj2 (historyInit_frame def ext x)). }
  rewrite EH, getList_setList. cbn [app].
  assert (S2 : Forall2 sameEntry (l1 ++ c :: l2)%list L).
  { rewrite <- ED.
    assert (H0 : Forall2 sameEntry (take i L ++ b' :: drop (S i) L)%list
                   (take i L ++ b :: drop (S i) L)%list).
    { apply Forall2_app; [apply same_list_refl|].
      constructor; [done | apply same_list_refl]. }
    by rewrite <- E0 in H0. }
  assert (S1 : Forall2 sameEntry (l1' ++ c :: l2)%list L).
  { eapply same_list_trans; [|exact S2].
    apply Forall2_app; [done | apply same_list_refl]. }
  split_and!.
  - eapply frame_trans; [apply historyInit_frame|].
    eapply frame_trans; [apply setList_frame|].
    by eapply frame_trans.
  - eapply same_list_trans;
      [|apply (filter_same isPermanent _ _ isPermanent_same S1)].
    rewrite (filter_permanent_middle l1' c l2 Hc). apply same_list_refl.
  - pose proof (filter_same fTempBreak _ _ sameEntry_temp S1) as Hf.
    apply Forall2_length in Hf. rewrite <- Hf.
    by rewrite (filter_temp_middle l1' c l2 Hc).
  - apply Forall2_length in S1. rewrite <- S1, !length_app. cbn [length]. lia.
Qed.

Lemma filter_all_permanent l :
  Forall (fun b => fTempBreak b = false) l -> List.filter isPermanent l = l.
Proof.
  induction 1 as [|b l Hb H IH]; [done|]. cbn [List.filter]. unfold isPermanent at 1.
  rewrite Hb. cbn [negb]. by rewrite IH.
Qed.

Lemma temp_counted l i b :
  l !! i = Some b -> fTempBreak b = true ->
  (0 < length (List.filter fTempBreak l))%nat.
Proof.
  revert i. induction l as [|x l IH]; intros i Hi Hb; [done|].
  cbn [List.filter]. destruct i as [|i]; cbn in Hi.
  - inversion Hi; subst. rewrite Hb. cbn. lia.
  - destruct (fTempBreak x); [cbn; lia | by eapply IH].
Qed.

Lemma filter_permanent_nontemp l :
  Forall (fun b => fTempBreak b = false) (List.filter isPermanent l).
Proof.
  induction l as [|x l IHl]; [constructor|].
  cbn [List.filter]. destruct (isPermanent x) eqn:Ex; [|done].
  constructor; [|done]. by apply negb_true_iff in Ex.
Qed.

Lemma same_list_nontemp l l' :
  Forall2 sameEntry l l' -> Forall (fun b => fTempBreak b = false) l' ->
  Forall (fun b => fTempBreak b = false) l.
Proof.
  induction 1 as [|a b l l' Hab S IH]; intros Hp; [constructor|].
  inversion Hp; subst. constructor; [|by apply IH].
  by rewrite (sameEntry_temp _ _ Hab).
Qed.

Lemma temp_count_le l : (length (List.filter fTempBreak l) <= length l)%nat.
Proof.
  induction l as [|x l IH]; [done|]. cbn [List.filter].
  destruct (fTempBreak x); cbn [length]; lia.
Qed.

Lemma clearTempLoop_spec t : forall d k i fuel,
  length (List.filter fTempBreak (getList Exec d)) = t ->
  (length (getList Exec d) - i = k)%nat ->
  Forall (fun b => fTempBreak b = false) (take i (getList Exec d)) ->
  (length (getList Exec d) - i + 1 + t * (length (getList Exec d) + 1) <= fuel)%nat ->
  exists d',
    Bp.clearTempLoop def ext fuel i d = Some d' /\
    Forall2 sameEntry (getList Exec d')
      (List.filter isPermanent (getList Exec d)) /\
    frame d' d.
Proof.
  induction t as [|t IHt]; intros d k; revert d;
    induction k as [|k IHk]; intros d i fuel Ht Hk Hpre Hf.
  all: destruct (getList Exec d !! i) as [b|] eqn:Hi.
  all: try (apply lookup_lt_Some in Hi as Hlt).
  all: try (apply lookup_ge_None in Hi as Hge).
  all: try lia.
  all: try (exists d; (split; [by destruct fuel; cbn [Bp.clearTempLoop]; rewrite Hi|]);
            (split; [|apply frame_refl]);
            rewrite filter_all_permanent;
            [apply same_list_refl | by rewrite take_ge in Hpre by lia]).
  - (* no temporary entry left, an entry at i *)
    destruct fuel as [|fuel]; [lia|]. cbn [Bp.clearTempLoop]. rewrite Hi.
    destruct (fTempBreak b) eqn:Hb.
    { pose proof (temp_counted _ _ _ Hi Hb). lia. }
    apply (IHk d (S i) fuel); [done | lia | | lia].
    rewrite (take_S_r _ _ _ Hi). apply Forall_app. split; [done|].
    by apply Forall_singleton.
  - (* temporary entries left, an entry at i *)
    destruct fuel as [|fuel]; [lia|]. cbn [Bp.clearTempLoop]. rewrite Hi.
    destruct (fTempBreak b) eqn:Hb.
    + destruct (removeTempAt_spec i b d Hi Hb) as (d1 & E & F1 & S1 & T1 & L1).
      rewrite E. cbn [negb].
      destruct (IHt d1 (length (getList Exec d1) - 0)%nat 0%nat fuel)
        as (d' & E' & S' & F');
        [lia | done | by rewrite take_0 | rewrite <- L1 in Hf; nia |].
      exists d'. split; [done|]. split; [|by eapply frame_trans].
      by eapply same_list_trans.
    + apply (IHk d (S i) fuel); [done | lia | | lia].
      rewrite (take_S_r _ _ _ Hi). apply Forall_app. split; [done|].
      by apply Forall_singleton.
Qed.

(** X20 (clearTempBreakpoint).  [clearTempBreakpoint()] removes every
    temporary breakpoint of the exec list and nothing else: the
    permanent breakpoints are kept, in their order, each one as it was
    but for the linear address cached in it.  The loop ends; a fuel of
    [(n + 1) * (n + 1)] for a list of [n] entries is never used up. *)
Theorem clearTempBreakpoint_removes_temporaries
    (doCommand : string -> bool -> Debugger -> bool * Debugger)
    (fuel : nat) (d : Debugger)
    (Hfuel : ((length (getList Exec d) + 1) * (length (getList Exec d) + 1)
              <= fuel)%nat) :
  exists d',
    Bp.clearTempBreakpoint def ext doCommand fuel None d = Some d' /\
    Forall (fun b => fTempBreak b = false) (getList Exec d') /\
    Forall2 sameEntry (getList Exec d')
      (List.filter isPermanent (getList Exec d)) /\
    frame d' d.
Proof.
  pose proof (temp_count_le (getList Exec d)) as Hle.
  destruct (clearTempLoop_spec _ d _ 0%nat fuel eq_refl eq_refl) as (d' & E & S & F).
  { by rewrite take_0. }
  { nia. }
  exists d'. split_and!; [done | | done | done].
  eapply same_list_nontemp; [exact S | apply filter_permanent_nontemp].
Qed.

End TempFacts.

Lemma substring_mid pre : forall cur rest,
  String.substring (String.length pre) (String.length cur) (pre ++ cur ++ rest)
  = cur.
Proof.
  induction pre as [|x pre IH]; intros cur rest.
  - cbn [String.length]. change ("" ++ cur ++ rest) with (cur ++ rest).
    induction cur as [|y cur IHc]; [by destruct rest|].
    rewrite append_cons. cbn [String.length String.substring]. by rewrite IHc.
  - rewrite append_cons. cbn [String.length String.substring]. apply IH.
Qed.

Lemma hasChar_app c a b : hasChar c (a ++ b) = (hasChar c a || hasChar c b)%bool.
Proof.
  induction a as [|x a IH]; [done|]. rewrite append_cons. cbn [hasChar].
  by rewrite IH, orb_assoc.
Qed.

(** ** Command lines *)

Section CmdFacts.

Context (lib : StrLib).

Lemma isQuote_hasQuote ch r :
  hasQuote (String ch r) = (Cmd.isQuote ch || hasQuote r)%bool.
Proof.
  unfold hasQuote, Cmd.isQuote. cbn [hasChar].
  destruct (Ascii.eqb ch Cmd.dquote), (Ascii.eqb ch Cmd.squote),
    (hasChar Cmd.dquote r), (hasChar Cmd.squote r); reflexivity.
Qed.

Lemma scan_pieces sCmd sep rest : forall pre cur q,
  sCmd = pre ++ cur ++ rest ->
  exists pieces,
    Cmd.scan lib sCmd sep rest (String.length (pre ++ cur)) (String.length pre) q
    = map (str_trim lib) pieces /\
    joinWith sep pieces = cur ++ rest /\ pieces <> [] /\
    (q = None -> hasQuote rest = false -> hasChar sep cur = false ->
     Forall (fun p => hasChar sep p = false) pieces).
Proof.
  induction rest as [|ch rest IH]; intros pre cur q E.
  - exists [cur]. cbn [Cmd.scan map joinWith]. unfold JS.substring.
    rewrite length_append.
    replace (String.length pre + String.length cur - String.length pre)%nat
      with (String.length cur) by lia.
    rewrite E, substring_mid, append_nil_r.
    split_and!; [done..|]. intros _ _ Hc. by constructor.
  - cbn [Cmd.scan].
    assert (E' : sCmd = pre ++ (cur ++ String ch "") ++ rest).
    { by rewrite E, !append_assoc. }
    assert (L' : String.length (pre ++ cur ++ String ch "")
                 = S (String.length (pre ++ cur))).
    { rewrite !length_append. cbn. lia. }
    assert (Econs : cur ++ String ch rest = (cur ++ String ch "") ++ rest).
    { by rewrite append_assoc. }
    destruct (Cmd.isQuote ch) eqn:Hq.
    { destruct (IH pre (cur ++ String ch "") (match q with
                  | None => Some ch
                  | Some q0 => if Ascii.eqb ch q0 then None else q end) E')
        as (pieces & Es & Ej & Hne & _).
      exists pieces. rewrite <- L', Es, Ej, Econs.
      split_and!; [done..|]. intros _ Hr. rewrite isQuote_hasQuote, Hq in Hr. done. }
    destruct (Ascii.eqb ch sep && match q with None => true | Some _ => false end)%bool
      eqn:Hs.
    + apply andb_true_iff in Hs as [Hs Hq0]. apply Ascii.eqb_eq in Hs. subst ch.
      assert (E2 : sCmd = (pre ++ cur ++ String sep "") ++ "" ++ rest).
      { rewrite E, !append_assoc. reflexivity. }
      destruct (IH (pre ++ cur ++ String sep "") "" q E2)
        as (pieces & Es & Ej & Hne & Hall).
      rewrite append_nil_r, !L' in Es.
      exists (cur :: pieces). cbn [map]. rewrite Es.
      unfold JS.substring. rewrite length_append.
      replace (String.length pre + String.length cur - String.length pre)%nat
        with (String.length cur) by lia.
      rewrite E at 1. rewrite substring_mid.
      split_and!; [done | | done |].
      * cbn [joinWith]. destruct pieces as [|p ps]; [done|]. by rewrite Ej.
      * intros Hqn Hr Hc. rewrite isQuote_hasQuote, Hq in Hr.
        constructor; [done|]. by apply Hall.
    + destruct (IH pre (cur ++ String ch "") q E') as (pieces & Es & Ej & Hne & Hall).
      exists pieces. rewrite <- L', Es, Ej, Econs.
      split_and!; [done..|]. intros Hqn Hr Hc. rewrite isQuote_hasQuote, Hq in Hr.
      apply Hall; [done..|]. rewrite hasChar_app, Hc. cbn [hasChar orb].
      rewrite orb_false_r. subst q. rewrite andb_true_r in Hs. exact Hs.
Qed.

Lemma replaceQuotes_plain s :
  hasChar Cmd.dquote s = false -> Cmd.replaceQuotes s = s.
Proof.
  induction s as [|c1 s IH]; [done|]. cbn [hasChar]. intros H.
  apply orb_false_iff in H as [H1 H2]. cbn [Cmd.replaceQuotes].
  destruct s as [|c2 r]; [done|]. rewrite H1. cbn [andb]. by rewrite IH.
Qed.

(** X21 (parseCommand).  A command line is cut into pieces that, joined
    again with the separator, give back the line (after the replacement
    of doubled double quotes); what is returned is the pieces, trimmed.
    There is always one piece at least, none for an empty or missing
    line.  On a line without quotes no piece contains the separator:
    this is the plain split on the separator. *)
Theorem parseCommand_pieces (s : string) (chSep : option ascii)
    (Hne : s <> "") :
  let sep := default ";"%char chSep in
  (exists pieces,
     Cmd.parseCommand lib (Some s) chSep = map (str_trim lib) pieces /\
     joinWith sep pieces = Cmd.replaceQuotes s /\ pieces <> [] /\
     (hasQuote s = false ->
      Cmd.replaceQuotes s = s /\
      Forall (fun p => hasChar sep p = false) pieces)) /\
  Cmd.parseCommand lib None chSep = [] /\
  Cmd.parseCommand lib (Some "") chSep = [].
Proof.
  intros sep. split; [|done]. unfold Cmd.parseCommand.
  apply String.eqb_neq in Hne. rewrite Hne.
  destruct (scan_pieces (Cmd.replaceQuotes s) sep (Cmd.replaceQuotes s) "" "" None
              eq_refl) as (pieces & Es & Ej & Hn & Hall).
  exists pieces. split_and!; [done..|].
  intros Hq. unfold hasQuote in Hq. apply orb_false_iff in Hq as [Hd Hs].
  pose proof (replaceQuotes_plain s Hd) as Er. split; [done|].
  apply Hall; [done | | done]. rewrite Er. unfold hasQuote. by rewrite Hd, Hs.
Qed.

Lemma scan_through sCmd sep mode u : forall rest i iPrev,
  match mode with
  | None => hasQuote u = false /\ hasChar sep u = false
  | Some q0 => hasChar q0 u = false
  end ->
  Cmd.scan lib sCmd sep (u ++ rest) i iPrev mode
  = Cmd.scan lib sCmd sep rest (i + String.length u) iPrev mode.
Proof.
  induction u as [|ch u IH]; intros rest i iPrev H.
  - cbn [String.length]. by rewrite Nat.add_0_r.
  - rewrite append_cons. cbn [Cmd.scan String.length].
    replace (i + S (String.length u))%nat with (S i + String.length u)%nat by lia.
    destruct mode as [q0|].
    + cbn [hasChar] in H. apply orb_false_iff in H as [H1 H2].
      rewrite H1, andb_false_r.
      destruct (Cmd.isQuote ch); by apply IH.
    + destruct H as [H1 H2]. rewrite isQuote_hasQuote in H1.
      apply orb_false_iff in H1 as [H1 H1'].
      cbn [hasChar] in H2. apply orb_false_iff in H2 as [H2 H2'].
      rewrite H1, H2. cbn [andb]. by apply IH.
Qed.

(** X22 (parseCommand).  A separator inside a quoted sequence does not
    split.  Take the line as it is after every pair of double quotes in
    a row has been replaced by a single quote: when it is made of a part
    without quotes or separators, a quoted sequence (between two double
    quotes, or two single quotes) that does not hold its own quote
    character, and once more a part without quotes or separators, the
    result is that line as a single command, whatever the quoted
    sequence holds. *)
Theorem quoted_separators_do_not_split (s a b c : string) (q sep : ascii)
    (Hs : Cmd.replaceQuotes s = a ++ String q (b ++ String q c))
    (Hq : Cmd.isQuote q = true)
    (Ha : hasQuote a = false /\ hasChar sep a = false)
    (Hb : hasChar q b = false)
    (Hc : hasQuote c = false /\ hasChar sep c = false) :
  Cmd.parseCommand lib (Some s) (Some sep)
  = [str_trim lib (a ++ String q (b ++ String q c))].
Proof.
  unfold Cmd.parseCommand.
  assert (Hne : String.eqb s "" = false).
  { apply String.eqb_neq. intros ->. cbn in Hs. by destruct a. }
  rewrite Hne, Hs. cbn [default].
  set (s' := a ++ String q (b ++ String q c)).
  unfold s' at 2.
  rewrite (scan_through s' sep None a) by done.
  cbn [Cmd.scan]. rewrite Hq.
  rewrite (scan_through s' sep (Some q) b) by done.
  cbn [Cmd.scan]. rewrite Hq, Ascii.eqb_refl.
  rewrite <- (append_nil_r c) at 1.
  rewrite (scan_through s' sep None c) by done.
  cbn [Cmd.scan]. unfold JS.substring. rewrite Nat.sub_0_r.
  replace (S (S (0 + String.length a) + String.length b) + String.length c)%nat
    with (String.length s').
  - by rewrite (substring_all s').
  - subst s'. rewrite !length_append. cbn [String.length].
    rewrite !length_append. cbn [String.length]. lia.
Qed.

Lemma shiftAt_bounds ch0 rest : forall i j,
  Cmd.shiftAt ch0 rest i = Some j -> (i <= j < i + String.length rest)%nat.
Proof.
  induction rest as [|ch rest IH]; intros i j H; cbn [Cmd.shiftAt] in H; [done|].
  cbn [String.length].
  destruct (_ || _)%bool; [inversion H; lia|].
  apply IH in H. lia.
Qed.

Lemma sub_split s : forall j,
  (j <= String.length s)%nat ->
  String.substring 0 j s ++ String.substring j (String.length s - j) s = s /\
  String.length (String.substring 0 j s) = j.
Proof.
  induction s as [|x s IH]; intros j Hj.
  - cbn in Hj. assert (j = 0)%nat as -> by lia. done.
  - destruct j as [|j].
    + cbn [String.substring Nat.sub String.length]. by rewrite substring_all.
    + cbn [String.length] in *. cbn [String.substring Nat.sub].
      destruct (IH j ltac:(lia)) as [E L]. rewrite append_cons, E.
      cbn [String.length]. by rewrite L.
Qed.

(** X23 (shiftArgs).  [shiftArgs] splits the first argument in two, a
    command and its operand, or leaves the arguments alone; it loses
    nothing: the two parts, neither empty, make up the first argument,
    and the other arguments follow unchanged.  A first argument that
    starts with [?] or [r] and is longer than one character is always
    split after that character. *)
Theorem shiftArgs_splits_first (s0 : string) (args : list string) :
  (Cmd.shiftArgs (s0 :: args) = s0 :: args \/
   exists c arg,
     Cmd.shiftArgs (s0 :: args) = c :: arg :: args /\
     c ++ arg = s0 /\ c <> "" /\ arg <> "") /\
  (forall ch0 t, s0 = String ch0 t -> t <> "" ->
     ch0 = "?"%char \/ ch0 = "r"%char ->
     Cmd.shiftArgs (s0 :: args) = String ch0 "" :: t :: args) /\
  Cmd.shiftArgs [] = [].
Proof.
  split_and!; [| |done].
  - unfold Cmd.shiftArgs. destruct s0 as [|ch0 t]; [by left|].
    destruct (Cmd.shiftAt ch0 t 1) as [j|] eqn:E; [|by left].
    right. apply shiftAt_bounds in E.
    destruct (sub_split (String ch0 t) j) as [Es Ls]; [cbn [String.length]; lia|].
    eexists _, _. split_and!; [done | exact Es | |].
    + intros E0. rewrite E0 in Ls. cbn in Ls. lia.
    + intros E0. rewrite E0, append_nil_r in Es.
      rewrite Es in Ls. cbn [String.length] in Ls. lia.
  - intros ch0 t -> Ht Hc. unfold Cmd.shiftArgs.
    destruct t as [|ch t]; [done|]. cbn [Cmd.shiftAt].
    assert (E : (Ascii.eqb ch0 "?" || Ascii.eqb ch0 "r")%bool = true).
    { destruct Hc as [->| ->]; reflexivity. }
    rewrite E. cbn [orb]. cbn [String.substring String.length Nat.sub].
    by rewrite substring_all.
Qed.

End CmdFacts.


(** ** Instances on the sample machine *)

(** On the sample machine ["8-2-3"] is 8 - (2 - 3) = 9. *)
Lemma ascending_chain_groups_right_witness :
  Expr.parseExpression Sample.lib Sample.def Sample.cpu0 id ∅ "8-2-3"
  = Expr.Number 9.
Proof.
  assert (R : forall s v, Sample.parseInt s = Some v -> Sample.trim s = s ->
                s <> "" -> Expr.getRegIndex s = -1 ->
                Expr.inherited s = false ->
                resolves Sample.lib Sample.def Sample.cpu0 ∅ s v).
  { intros s v Hp Ht Hs Hr Hi. split; simpl; rewrite Ht.
    - by apply String.eqb_neq.
    - unfold Expr.parseValue, Expr.getVariable.
      rewrite Hr, lookup_empty, Hi. simpl. by rewrite Hp. }
  change (Expr.parseTokens Sample.lib Sample.def Sample.cpu0 ∅
            (chainTokens "8"
               (map (fun e => (e.1, e.2.1)) [("-", ("2", 2)); ("-", ("3", 3))]))
          = Expr.toResult
              (rightFold 8
                 (map (fun e => (e.1, e.2.2)) [("-", ("2", 2)); ("-", ("3", 3))]))).
  apply ascending_chain_groups_right; [by apply R | | reflexivity].
  repeat constructor; by apply R.
Defined.

(** The pieces of ["1+2*3"]. *)
Lemma split_keeps_every_character_witness :
  alternating (Expr.split "1+2*3") /\ concatAll (Expr.split "1+2*3") = "1+2*3".
Proof. by apply split_keeps_every_character. Defined.

(** The text at 0x500 is read up to its zero byte. *)
Lemma getSZ_reads_string_witness :
  Mem.getSZ Sample.def Sample.ext (Some Demo.lin500) 0 Demo.textDbg
  = ("Hi", Some (setLinear (Some 0x503) Demo.lin500), Demo.textDbg).
Proof.
  apply (getSZ_reads_string Sample.def Sample.ext Demo.lin500 0x500 "Hi" 0
           Demo.textDbg); try reflexivity.
  - intros i Hi. cbn in *. lia.
  - intros [|[|i]] c; cbn; intros [= <-]; reflexivity.
Defined.

(** The word at 0x500 is 0x6948. *)
Lemma getShort_little_endian_witness :
  Addr.getShort Sample.def Sample.ext (Some Demo.lin500) 2 Demo.textDbg
  = (0x6948, Some (setLinear (Some 0x502) Demo.lin500), Demo.textDbg).
Proof.
  pose proof (getShort_little_endian Sample.def Sample.ext Demo.lin500 0x500
                Demo.textDbg eq_refl eq_refl) as H.
  destruct H as [H _]; [by cbn..|]. exact H.
Defined.

(** One line traced on the sample debugger. *)
Lemma traceLog_never_overflows_witness :
  (length (aTraceBuffer (trace (traceAll Sample.def [("SHLB", "shlb")]
                                  Sample.tracing))) <= TRACE_LIMIT)%nat.
Proof.
  assert (Hok : traceOk (trace Sample.tracing)) by (left; done).
  assert (Hn : Forall (fun c : string * string => Expr.inherited c.1 = false)
                 [("SHLB", "shlb")]) by (by repeat constructor).
  destruct (traceLog_never_overflows Sample.def [("SHLB", "shlb")]
              Sample.tracing Hok Hn) as (_ & H & _).
  by apply H.
Defined.

(** A check made while another is under way. *)
Lemma suppressed_checks_do_nothing_witness :
  Break.checkBreakpoint Sample.def Sample.ext Sample.doCommand 4 0x500 1 Exec false
    (setSuppress 1 (setList Exec [Demo.lin500] Sample.dbg0))
  = Some (false, setSuppress 1 (setList Exec [Demo.lin500] Sample.dbg0)).
Proof.
  by apply (suppressed_checks_do_nothing Sample.def Sample.ext Sample.doCommand).
Defined.

(** A permanent breakpoint at 0x500 is hit and stays. *)
Lemma checkBreakpoint_linear_list_witness :
  Break.checkBreakpoint Sample.def Sample.ext Sample.doCommand 4 0x500 1 Exec false
    (setList Exec [Demo.lin600; Demo.lin500] Sample.dbg0)
  = Some (true, setList Exec [Demo.lin600; Demo.lin500] Sample.dbg0).
Proof.
  assert (L : forall b A, sel b = None -> aCmds b = None -> addr b = Some A ->
                0 <= A < 0x1000 ->
                linearEntry Sample.def
                  (setList Exec [Demo.lin600; Demo.lin500] Sample.dbg0) b).
  { intros b A H1 H2 H3 H4. split_and!; [done..|]. exists A.
    assert (E : Break.mapBreakpoint Sample.def A
                  (setList Exec [Demo.lin600; Demo.lin500] Sample.dbg0) = A).
    { apply (mapBreakpoint_below Sample.def 24); [lia | done | lia]. }
    rewrite E. cbn. split_and!; [done | lia | lia]. }
  destruct (checkBreakpoint_linear_list Sample.def Sample.ext Sample.doCommand 4
              0x500 false (setList Exec [Demo.lin600; Demo.lin500] Sample.dbg0))
    as [_ H]; [reflexivity | reflexivity | | cbn; lia |].
  - repeat constructor; eapply L; by cbn.
  - apply (H [Demo.lin600] Demo.lin500 []); [reflexivity | | reflexivity].
    by repeat constructor.
Defined.

(** The breakpoint that [g 500] sets on the sample machine, beside a
    permanent one at 0x600. *)
Lemma temporary_breakpoint_is_hit_once_witness :
  Break.checkBreakpoint Sample.def Sample.ext Sample.doCommand 4 0x500 1 Exec false
    (snd (Bp.setTempBreakpoint Sample.def Sample.ext Demo.lin500
            (setList Exec [Demo.lin600] Sample.dbg0)))
  = Some (true, Hist.historyInit Sample.def Sample.ext
                  (setList Exec [Demo.lin600] Sample.dbg0)).
Proof.
  set (d := setList Exec [Demo.lin600] Sample.dbg0).
  assert (Ha : addr Demo.lin500 = Some 0x500 /\ aCmds Demo.lin500 = None /\
               0x500 <> ADDR_INVALID Sample.def /\
               Break.mapBreakpoint Sample.def 0x500 d <> ADDR_INVALID Sample.def).
  { split_and!; [reflexivity | reflexivity | cbn; lia | vm_compute; lia]. }
  assert (Hl : Forall (linearEntry Sample.def d) (getList Exec d)).
  { repeat constructor. exists 0x600.
    split_and!; [reflexivity | cbn; lia | vm_compute; lia]. }
  assert (Hn : Forall (fun b => hitsAt Sample.def d 0x500 false b = false)
                 (getList Exec d)) by (by repeat constructor).
  assert (Hf : (length (getList Exec d) < 4)%nat) by (cbn; lia).
  pose proof (temporary_breakpoint_is_hit_once Sample.def Sample.ext
                Sample.doCommand 4 0x500 false Demo.lin500 d
                eq_refl eq_refl Hl Ha Hn Hf) as H.
  destruct (Bp.setTempBreakpoint Sample.def Sample.ext Demo.lin500 d)
    as [[ok a'] d1].
  exact (proj1 (proj2 (proj2 (proj2 H)))).
Defined.

(** The 24-bit bus of the sample machine. *)
Lemma mapBreakpoint_only_aliases_witness :
  Break.mapBreakpoint Sample.def 0x12345 Sample.dbg0 = 0x12345.
Proof.
  destruct (mapBreakpoint_only_aliases Sample.def 24 Sample.dbg0) as (H & _);
    [lia | reflexivity |].
  apply H. lia.
Defined.

(** One read and one write breakpoint cleared. *)
Lemma clearBreakpoints_clears_witness :
  busCalls (Bp.clearBreakpoints Sample.def Sample.ext
              (setList Write [Demo.lin600] (setList Read [Demo.lin500] Sample.dbg0)))
  = [RemoveMemBreak 0x500 false; RemoveMemBreak 0x600 true].
Proof.
  destruct (clearBreakpoints_clears Sample.def Sample.ext
              (setList Write [Demo.lin600] (setList Read [Demo.lin500] Sample.dbg0)))
    as (_ & _ & _ & _ & H & _).
  - by repeat constructor.
  - by repeat constructor.
  - exact H.
Defined.

(** A write breakpoint at 1000:0100 on the sample machine. *)
Lemma addBreakpoint_memory_witness :
  Forall (memEntry Sample.def)
    (getList Write
       (snd (Break.addBreakpoint Sample.def Sample.ext Write Sample.addrA false
               Sample.dbg0))).
Proof.
  pose proof (addBreakpoint_memory Sample.def Sample.ext Write Sample.addrA
                Sample.dbg0 eq_refl) as H.
  destruct (Break.addBreakpoint Sample.def Sample.ext Write Sample.addrA false
              Sample.dbg0) as [[ok a'] d'].
  apply H. constructor.
Defined.

(** Two temporary breakpoints around a permanent one. *)
Lemma clearTempBreakpoint_removes_temporaries_witness :
  exists d',
    Bp.clearTempBreakpoint Sample.def Sample.ext Sample.doCommand 16 None
      (setList Exec [Demo.temp500; Demo.lin600; Demo.temp500] Sample.dbg0)
    = Some d' /\
    Forall2 sameEntry (getList Exec d') [Demo.lin600].
Proof.
  destruct (clearTempBreakpoint_removes_temporaries Sample.def Sample.ext
              Sample.doCommand 16
              (setList Exec [Demo.temp500; Demo.lin600; Demo.temp500] Sample.dbg0))
    as (d' & E & _ & S & _); [cbn; lia|].
  by exists d'.
Defined.

(** Two commands on one line. *)
Lemma parseCommand_pieces_witness :
  exists pieces,
    Cmd.parseCommand Sample.lib (Some "bp 100; g") None
    = map Sample.trim pieces /\
    joinWith ";" pieces = "bp 100; g" /\
    Forall (fun p => hasChar ";" p = false) pieces.
Proof.
  destruct (parseCommand_pieces Sample.lib "bp 100; g" None)
    as [(pieces & E & J & _ & H) _]; [done|].
  exists pieces. destruct (H eq_refl) as [R F]. rewrite R in J. done.
Defined.

(** A breakpoint with a command sequence, its commands between single
    quotes and between pairs of double quotes. *)
Lemma quoted_separators_do_not_split_witness :
  Cmd.parseCommand Sample.lib (Some "bp 100 'r;g'") (Some ";"%char)
  = ["bp 100 'r;g'"] /\
  Cmd.parseCommand Sample.lib
    (Some ("bp 100 " ++ String Cmd.dquote (String Cmd.dquote
             ("r;g" ++ String Cmd.dquote (String Cmd.dquote "")))))
    (Some ";"%char)
  = ["bp 100 'r;g'"].
Proof.
  split.
  - exact (quoted_separators_do_not_split Sample.lib "bp 100 'r;g'"
             "bp 100 " "r;g" "" "'" ";"
             eq_refl eq_refl (conj eq_refl eq_refl) eq_refl (conj eq_refl eq_refl)).
  - exact (quoted_separators_do_not_split Sample.lib
             ("bp 100 " ++ String Cmd.dquote (String Cmd.dquote
                ("r;g" ++ String Cmd.dquote (String Cmd.dquote ""))))
             "bp 100 " "r;g" "" "'" ";"
             eq_refl eq_refl (conj eq_refl eq_refl) eq_refl (conj eq_refl eq_refl)).
Defined.
